(* ===== verification/_CoqProject ===== *)
-Q . S2P
Prelude.v
ChessData.v
Capability.v
CheckDetector.v
MoveGen.v
Setup.v
Engine.v
MoveLog.v
Server.v
Emits.v
GameSpec.v
Liveness.v
Lobby.v
LobbyList.v
LobbySpec.v
Rooms.v
Scenarios.v
LobbyRuns.v
RoomRuns.v
Witnesses.v
