(* ===== verification/Prelude.v ===== *)
(** * A verification development of the chess-backend rules engine

    The repository is a Node/TypeScript game server for a chess variant
    played on square boards of side 8 to 16, where each side first turns
    a quota of its pawns into "Vanguard" pieces and then plays.  The
    rules engine is the class [ChessGameEngine] of
    [src/ChessGameEngine.ts]; [src/Lobby.ts] and [src/LobbyList.ts] give
    each lobby an engine and register the lobby's sockets with it;
    [src/index.ts] wires socket.io to the lobby list.  The movement rules
    of the pieces live in a module [./piece] that is not in the
    repository, and so does [./types].

    ** How the parts interact

    An engine holds a board (a grid of tiles, each with a piece and a
    cache [spacesToMove] of legal destinations, plus the vanguard quota
    and counters), a game record (side to move, check flag, winner,
    stalemate, board length, started flag, taken pieces) and a move log.
    Each socket a lobby registers gets its own closure variable [color]
    and listeners for 'choose-team', 'start-game', 'quit-game', 'reset',
    'make-move' and 'place-vanguard'.  Every handler that changes the
    board ends by calling [populateAvailableMoves], which regenerates all
    caches once both sides have placed their vanguards; that generator
    calls [inCheck] on deep copies of the board to drop moves that leave
    the mover's king attacked.

    ** Files, in dependency order

    - [Prelude] (this file): JavaScript array indexing by a [Z] index
      ([zlookup], notation [l !!z i]), lemmas on [fold_left], the tactics
      [invc], [case_if], [bool_to_prop] and the hint databases [chess] and
      [chess_rw].
    - [ChessData]: the enums [Color] and [PieceType], the records
      [Coordinate], [Piece], [Tile], [Board], [Game], [Log], and the board
      accessors ([tileAt] is [tiles[row][col]], [setTileN] an assignment
      to a tile, [setSpaces] an assignment to a cache).  A piece's
      history flags, owned by [./piece], are a type parameter [H].
    - [Capability]: the class [PieceCapability] of the four functions the
      engine calls on [./piece] ([tryMove], [makeMove], [moveMade],
      [setCoordToPiece] and the constructor), and the class [PieceLaws] of
      what the generator's correctness needs of them: they look at pieces
      and counters, not at caches (they respect [≡], boards equal up to
      caches, a setoid with [Proper] instances), and [makeMove] keeps the
      grid's shape and the counters.  No theorem fixes the rules of the
      pieces: every engine theorem holds for every instance.
    - [CheckDetector], Module [Detector]: [inCheck] (lines 74-104), its two
      forEach traversals as [findOpponentKing] (the last opposing king in
      row-major order) and [existsb attacks].
    - [MoveGen]: [populateAvailableMoves] (lines 29-71).  [forEachSetSpaces]
      is the in-place forEach, where a tile's cache is written before the
      next tile is generated; [legalMovesAt] the body for one tile;
      [keepsKingSafe] the deep copy, trial [makeMove], refresh of every
      cache of the copy ([refreshPseudo]) and [inCheck] test; the gate on
      the vanguard counters is [vanguardsPending].
    - [Setup]: the record [Engine] (the class's fields), [createGame]
      (lines 242-486) with its six layouts [tiles8] ... [tilesDefault] and
      the coordinate pass [assignCoords].
    - [Engine]: each socket listener as a function of the submitting
      socket's [color] and the engine state, with result [Done s] or
      [Thrown s]: [Thrown] is a JavaScript exception, which in a socket.io
      listener is uncaught and ends the process; [s] is the state the
      mutations before the throw left.  [onMakeMove] (lines 155-215) with
      [afterMove], [notifyMoveMade], [moveNotation], [addLogMessage] and
      the unbound [addTakenPiece]; [onPlaceVanguard] (217-239); [onStartGame],
      [onQuitGame], [onReset] (129-152); the constructor [initialEngine].
    - [MoveLog]: a reader [readMove] of the lines [moveNotation] writes
      (lines 193-208), for the round trip of the log.
    - [Server]: one engine with its socket registrations in order (a
      socket registered twice runs each listener twice); [handle] runs an
      event on every registration of the socket, stopping at the first
      throw; [reachable] is the closure of the constructor under completed
      events.
    - [Emits]: the messages ([Msg], by socket.io key) the engine's
      handlers pass to [sendMessageToAllUsers], as handlers [...W] that
      return the state of [Engine]'s handler with the messages in the
      order the code sends them; [getGameInfo] and [LobbyInfo] are the
      objects [getGameInfo()] and [getLobbyInfo()] build.
    - [GameSpec]: the game as the spec (sections 4 and 8) describes it,
      an abstract machine [astep] on [AState] (quota, vanguards placed
      per side, side to move, moves logged), the abstraction [abstr] of an
      engine, and the refinement of the machine by the server.
    - [Liveness]: sequences of 'place-vanguard' requests ([runDeploys])
      and of socket events ([runEvents]), and the plan [deployPlan] that
      names, column after column, the pawns of both pawn ranks.
    - [Lobby]: a lobby of [src/Lobby.ts]: its code, its users and its
      engine; [removeUserFromLobby] (every user of the name goes).
    - [LobbyList]: [src/LobbyList.ts] and the handlers of [src/index.ts]
      as a [World]: a store of every lobby object ever constructed
      (listeners keep references to lobbies the list has dropped), the
      list [lobbies] of indices into it, the listeners held by sockets
      ([gameRegs]: the engine's listeners with their [color] closures;
      [leaveOnce]: the [socket.once('leave-lobby')] listeners), and the
      position [draws] in the stream of random draws [makeId] reads.
      [worldStep] is one socket event; [reachableW] the states the
      startup and completed events lead to.
    - [LobbySpec]: the composition of [GameSpec] with the lobby layer:
      for any preorder on engines that the listener calls follow, every
      completed event relates each lobby object's engine to its engine
      afterwards ([storeStep], Section [StoreRelation]); the instance
      [absStep], the spec machine's steps on the abstraction; and the
      isolation of the engines of lobbies a socket has not joined.
    - [Rooms]: the socket.io layer as a [Net] beside the [World]: the
      rooms each socket has joined ([socket.join], [socket.leave]) and
      the list of messages sent, with their target (one socket, a room
      resolved to its members at the send, or everyone).
      [addUserN], [removeUserFromLobbyN], [addUserToLobbyN] and
      [worldStepN] are the lobby handlers with their joins, leaves and
      emits; [worldStepN_erase] shows that forgetting the [Net] gives
      [worldStep], so every theorem on [reachableW] holds of
      [reachableN].
    - [Scenarios]: a sample piece module [SamplePieces] (ordinary chess
      moves, one-step vanguards) that satisfies [PieceLaws] and shows the
      class satisfiable, and the spec's positions (section 8).
    - [LobbyRuns], [RoomRuns]: reachable states of the process, built by
      running concrete event sequences, with and without the [Net].
    - [Witnesses]: each theorem with hypotheses applied, with
      [vm_compute], at a concrete input of [Scenarios], [LobbyRuns] or
      [RoomRuns] where they hold.

    ** What is proved

    - Move generation: [spacesToMove_spec] characterises every cache on
      every branch; [legal_move_keeps_king_safe] is the safety of the
      listed moves; [populate_sequential_eq_ref] shows that the in-place
      traversal equals computing every cache from the original board (a
      refinement of the sequential code by a reference definition, proved
      through [forEachSetSpaces_spec] and the [Proper] laws);
      [populate_gate] is the gate.
    - Handlers: [onMakeMove] on every branch (rejection, throw on a bad
      source square, throw on a capture, acceptance, turn alternation,
      end-of-game test); [onPlaceVanguard] on every branch; [onReset]
      canonical and idempotent.
    - Refinement (GameSpec): every completed event of a reachable server
      is matched by zero or more steps of the spec's machine
      ([handle_refines]); every reachable server is, seen through
      [abstr], a state the machine reaches from its initial state
      ([reachable_refines]); the machine's invariant, proved on the
      machine alone, therefore holds of every reachable engine
      ([engine_spec_invariant]).
    - Refinement of the process (LobbySpec): in a reachable state of
      the process every completed socket event moves the game of every
      lobby object, listed or dropped, by zero or more steps of the
      spec's machine ([lobby_events_refine]), and every lobby's game is
      reached by the machine from its start ([lobbies_refine_spec]).
      A lobby event changes no game.  Engines are isolated: an event
      leaves the engine of every lobby whose listeners the socket does
      not hold as it was ([lobby_engine_isolated]), while broadcasts are
      not isolated (see Messages below).  'leave-lobby' keeps every game
      listener and every engine, so every later game event acts on the
      engines as if the leave had not happened
      ([leave_lobby_keeps_games]): a player who left keeps playing.
    - Round trip (MoveLog): reading back a logged move gives the moved
      piece's type, the destination square and the check mark
      ([readMove_moveNotation]) on the sixteen lettered columns.
    - Liveness (Liveness): the vanguard gate is never a dead end.  From
      any state, with one socket per team, a reset to any size followed by
      the plan's requests completes with no throw, and reaches a state
      with both quotas deployed, the gate open and White to move
      ([deployment_completes], [server_deployment_completes]).
    - Setup: [createGame] builds square grids with empty caches,
      coordinates assigned, one king per side, mirrored colors, for every
      size (the default case included).
    - Invariants of reachable states, by induction on [reachable]: the
      vanguard counters stay within the quota, while vanguards are pending
      caches are empty and nothing is logged, [takenPieces] stays empty,
      the side to move is White or Black.
    - Departures of the code from the spec, for every input: acceptance
      of a move consults [tryMove], never [spacesToMove], and the check
      flag uses the submitting socket's team ([onMakeMove_accepts]); a
      capture throws ([onMakeMove_capture_throws]).
    - Lobbies: in every reachable state of the process every lobby's
      engine keeps the engine invariant and every lobby has the code
      'AAAA'; 'join-lobby' joins the first listed lobby or nothing;
      'create-lobby' joins nobody; [removeUserFromLobbies], which mutates
      each lobby inside its [filter] callback, equals a reference filter
      on the lobbies as they were, and leaves no listed lobby with the
      name; lobbies without users are never dropped; the code loop ends
      once an unused candidate is within the fuel; [makeId] builds four
      characters of its alphabet.
    - Messages (Emits, Rooms): 'make-move' sends nothing unless it
      changes the game, and then exactly the new log and the new game
      ([make_move_messages]); after the deployment every
      'place-vanguard' announces 'vanguards-placed' again
      ([vanguards_placed_repeated]); 'join-lobby' joins the room, answers
      the socket and reaches every member of the room
      ([join_lobby_messages]).  Every room any socket is in is 'AAAA',
      in every reachable state ([rooms_all_AAAA]), so lobbies share one
      room and the broadcasts of any lobby, listed or dropped, reach the
      players of every lobby.

    ** Bounds and fuel

    Only the [while] loop of [createNewLobbyCode] needs fuel: it re-draws
    a code while the code is in use, which in JavaScript ends with
    probability one but not surely; [codeLoop] takes the number of
    re-draws allowed and answers [None] when it is spent, and
    [createNewLobbyCode_total] shows that fuel for [k] attempts suffices
    when the [k]-th candidate is unused (in a reachable state only the
    code 'AAAA' is used, so one attempt suffices unless the draws spell
    it).  Every other traversal is a [fold_left] or [map] over the grid,
    whose side is at most 16, or over a list, and the generator's loops
    are over [seq 0 n].  Coordinates are [Z], as a client sends them, so
    negative and too large indices are modelled; JavaScript numbers are
    not bounded here because no value computed by the engine exceeds the
    board side plus one.

    ** Not modelled

    The HTTP server, express and CORS set-up of [index.ts], the MongoDB
    connection (never called), the transport of socket.io (a message is
    modelled as delivered to the members of its target when it is sent)
    and logging to the console are I/O without effect on the modelled
    state and are omitted.  [Math.random] is a
    stream of draws fixed by a variable of the lobby sections.  [./piece] is an
    interface, and [./types]' enum values are modelled from the spec
    ([typeInitial], [colorTruthy]).
*)

From stdpp Require Export base list strings gmap pretty.
From Stdlib Require Export ZArith Lia.

Declare Scope chess_scope.
Delimit Scope chess_scope with chess.
Open Scope chess_scope.

(** ** JavaScript array indexing

    [arr[i]] on a JavaScript array yields [undefined] when [i] is
    negative or at least [arr.length]; we model the result as an option
    and index with [Z], which is what a coordinate received from a
    client is. *)

Definition zlookup {A} (l : list A) (i : Z) : option A :=
  if (i <? 0)%Z then None else l !! Z.to_nat i.

Notation "l !!z i" := (zlookup l i) (at level 20) : chess_scope.

Lemma zlookup_of_nat {A} (l : list A) (n : nat) :
  l !!z (Z.of_nat n) = l !! n.
Proof.
  unfold zlookup. destruct (Z.ltb_spec (Z.of_nat n) 0); [lia|].
  by rewrite Nat2Z.id.
Qed.

Lemma zlookup_neg {A} (l : list A) (i : Z) : (i < 0)%Z -> l !!z i = None.
Proof. intros Hi. unfold zlookup. destruct (Z.ltb_spec i 0); [done | lia]. Qed.

Lemma zlookup_Some {A} (l : list A) (i : Z) (x : A) :
  l !!z i = Some x <->
  (0 <= i)%Z /\ l !! Z.to_nat i = Some x.
Proof.
  unfold zlookup. destruct (Z.ltb_spec i 0); split; intros Hl; try done.
  - destruct Hl; lia.
  - by destruct Hl.
Qed.

Lemma zlookup_None {A} (l : list A) (i : Z) :
  l !!z i = None <-> (i < 0 \/ Z.of_nat (length l) <= i)%Z.
Proof.
  unfold zlookup. destruct (Z.ltb_spec i 0); [split; [lia|done]|].
  rewrite lookup_ge_None. lia.
Qed.

(** ** Folds that only touch part of a state

    [Array.prototype.forEach] with a callback that mutates shared state
    is a left fold over the visited indices; these lemmas carry an
    invariant and a projection through such a fold. *)

Lemma fold_left_preserve {A B} (P : A -> Prop) (f : A -> B -> A) (l : list B) (a : A) :
  P a -> (forall a b, In b l -> P a -> P (f a b)) -> P (fold_left f l a).
Proof.
  revert a. induction l as [|x l IH]; intros a Ha Hstep; simpl; [done|].
  apply IH; [apply Hstep; [left|]; done|].
  intros a' b Hb. apply Hstep. by right.
Qed.

Lemma fold_left_proj {A B C} (g : A -> C) (f : A -> B -> A) (l : list B) (a : A) :
  (forall a b, In b l -> g (f a b) = g a) -> g (fold_left f l a) = g a.
Proof.
  intros Hstep. apply (fold_left_preserve (fun x => g x = g a)); [done|].
  intros x b Hb Hx. by rewrite Hstep.
Qed.

(** ** Lists *)

(** [filter] keeps a list whose every element passes. *)
Lemma filter_all {A} (P : A -> Prop) `{!forall x, Decision (P x)} (l : list A) :
  Forall P l -> filter P l = l.
Proof. induction 1; [done|]. rewrite filter_cons_True by done. by f_equal. Qed.

(** [filter] only asks its predicate about the list's members. *)
Lemma filter_ext_in {A} (P Q : A -> Prop) `{!forall x, Decision (P x)} `{!forall x, Decision (Q x)}
    (l : list A) :
  (forall x, x ∈ l -> P x <-> Q x) -> filter P l = filter Q l.
Proof.
  induction l as [|x l IH]; intros Hpq; [done|]. rewrite !filter_cons.
  rewrite IH by (intros y Hy; apply Hpq; by right).
  destruct (decide (P x)) as [Hp|Hp], (decide (Q x)) as [Hq|Hq]; try done.
  - exfalso. apply Hq. apply (Hpq x); [by left|done].
  - exfalso. apply Hp. apply (Hpq x); [by left|done].
Qed.

(** A [filter] of a list keeps what holds of all its elements. *)
Lemma Forall_filter_sub {A} (P Q : A -> Prop) `{!forall x, Decision (Q x)} (l : list A) :
  Forall P l -> Forall P (filter Q l).
Proof. rewrite !Forall_forall. intros HP x Hx. apply list_elem_of_filter in Hx as [_ Hx]. by apply HP. Qed.

(** ** Tactics and hints *)

Create HintDb chess discriminated.
Create Rewrite HintDb chess_rw.

(** Invert a hypothesis and substitute what it equates. *)
Ltac invc H := inversion H; subst; clear H.

(** Split every [if] and [match] on a boolean test of the goal, keeping
    the test's outcome as a named hypothesis. *)
Ltac case_if :=
  match goal with
  | |- context [if ?b then _ else _] => let E := fresh "E" in destruct b eqn:E
  end.

(** Reflect the usual boolean tests of the models into propositions. *)
Ltac bool_to_prop :=
  repeat match goal with
  | H : (_ && _) = true |- _ => apply andb_true_iff in H as [? ?]
  | H : (_ || _) = false |- _ => apply orb_false_iff in H as [? ?]
  | H : negb _ = true |- _ => apply negb_true_iff in H
  | H : negb _ = false |- _ => apply negb_false_iff in H
  | H : (_ <? _)%nat = true |- _ => apply Nat.ltb_lt in H
  | H : (_ <? _)%nat = false |- _ => apply Nat.ltb_ge in H
  | H : (_ <? _)%Z = true |- _ => apply Z.ltb_lt in H
  | H : (_ <? _)%Z = false |- _ => apply Z.ltb_ge in H
  | H : bool_decide _ = true |- _ => apply bool_decide_eq_true in H
  | H : bool_decide _ = false |- _ => apply bool_decide_eq_false in H
  end.

#[export] Hint Resolve zlookup_of_nat : chess.
#[export] Hint Rewrite @zlookup_of_nat : chess_rw.
