(* ===== verification/ChessData.v ===== *)
(** * ChessData: the engine's data model

    The engine imports [Color], [PieceType], [Piece], [Coordinate],
    [BoardTiles], [Board], [Game] and [Log] from [./types], a file that
    is not in the repository; their shape is read off the object literals
    of [src/ChessGameEngine.ts] (constructor, lines 14-16, tiles
    [{ piece, spacesToMove }]) and off the spec (section 3).  A piece
    carries history flags owned by the piece module; their type is the
    parameter [H] of every record here.

    The file also holds the board accessors every component uses: tile
    lookup by [nat] index (loops of the engine) and by [Z] coordinate
    (messages of clients), the in-place update of one tile's
    [spacesToMove] cache, the row-major list of visited tiles, and the
    erasure of all caches, which gives the move generator's equivalence
    of boards equal up to their move caches. *)

From S2P Require Import Prelude.

Inductive Color := White | Black | Null.
Inductive PieceType :=
  Empty | Pawn | Knight | Bishop | Rook | Queen | King | Vanguard.

Record Coordinate := mkCoord { row : Z; col : Z }.

Definition coord_eqb (a b : Coordinate) : bool :=
  bool_decide (row a = row b) && bool_decide (col a = col b).

Record Piece (H : Type) := mkPiece {
  ptype : PieceType;
  pcolor : Color;
  pcoord : option Coordinate;
  phist : H
}.
Arguments mkPiece {H}.
Arguments ptype {H}. Arguments pcolor {H}. Arguments pcoord {H}. Arguments phist {H}.

(** [BoardTiles]: [{ piece, spacesToMove }]. *)
Record Tile (H : Type) := mkTile { piece : Piece H; spacesToMove : list Coordinate }.
Arguments mkTile {H}. Arguments piece {H}. Arguments spacesToMove {H}.

(** [Board]: [{ tiles, vanguards, whiteVanguards, blackVanguards }]
    (ChessGameEngine.ts line 14).  [vanguards] is the deployment quota. *)
Record Board (H : Type) := mkBoard {
  tiles : list (list (Tile H));
  vanguards : nat;
  whiteVanguards : nat;
  blackVanguards : nat
}.
Arguments mkBoard {H}. Arguments tiles {H}. Arguments vanguards {H}.
Arguments whiteVanguards {H}. Arguments blackVanguards {H}.

(** [Game] (line 15).  Its [board] field is the same object as the
    engine's [board] (the constructor stores [this.board] in it and no
    code replaces either), so the engine state below keeps one board. *)
Record Game (H : Type) := mkGame {
  playersTurn : Color;
  inCheck : Color;
  winner : Color;
  stalemate : bool;
  boardLength : Z;
  started : bool;
  takenPieces : list (Piece H)
}.
Arguments mkGame {H}. Arguments playersTurn {H}. Arguments inCheck {H}.
Arguments winner {H}. Arguments stalemate {H}. Arguments boardLength {H}.
Arguments started {H}. Arguments takenPieces {H}.

(** [Log] (line 16). *)
Record Log := mkLog { blackMoves : list string; whiteMoves : list string }.

(** [c === Color.White ? Color.Black : Color.White] (lines 59 and 172). *)
Definition otherColor (c : Color) : Color :=
  match c with White => Black | _ => White end.

Section Access.
Context {H : Type}.

Definition set_tiles (b : Board H) (ts : list (list (Tile H))) : Board H :=
  mkBoard ts (vanguards b) (whiteVanguards b) (blackVanguards b).

(** [board.tiles[r][c]] with loop indices. *)
Definition tileAtN (b : Board H) (r c : nat) : option (Tile H) :=
  tiles b !! r ≫= fun rw => rw !! c.

(** [board.tiles[p.row][p.col]] with a client's coordinate: [None] is
    JavaScript's [undefined]. *)
Definition tileAt (b : Board H) (p : Coordinate) : option (Tile H) :=
  tiles b !!z row p ≫= fun rw => rw !!z col p.

(** [board.tiles[r][c] = t]. *)
Definition setTileN (b : Board H) (r c : nat) (t : Tile H) : Board H :=
  set_tiles b (alter (fun rw => <[c := t]> rw) r (tiles b)).

(** [board.tiles[r][c].spacesToMove = moves]: the tile object is mutated
    in place, its piece is kept. *)
Definition setSpaces (b : Board H) (r c : nat) (moves : list Coordinate) : Board H :=
  set_tiles b (alter (fun rw => alter (fun t => mkTile (piece t) moves) c rw) r (tiles b)).

(** The shape of the tile grid: row lengths. *)
Definition shape (b : Board H) : list nat := length <$> tiles b.

(** The tiles [forEach] visits, row by row: [(rowIndex, colIndex)];
    [forEach] fixes each array's length when it starts. *)
Definition tileIndices (b : Board H) : list (nat * nat) :=
  mjoin (imap (fun r n => (fun c => (r, c)) <$> seq 0 n) (shape b)).

(** Every tile's cache emptied: the board up to its move caches. *)
Definition eraseTile (t : Tile H) : Tile H := mkTile (piece t) [].
Definition erase (b : Board H) : Board H := set_tiles b ((fun rw : list (Tile H) => eraseTile <$> rw) <$> tiles b).

End Access.

(** Decidable equality of the enums and of coordinates. *)
#[export] Instance Color_eq_dec : EqDecision Color.
Proof. solve_decision. Defined.
#[export] Instance PieceType_eq_dec : EqDecision PieceType.
Proof. solve_decision. Defined.
#[export] Instance Coordinate_eq_dec : EqDecision Coordinate.
Proof. solve_decision. Defined.

(** ** Lemmas on the accessors *)
Section AccessLemmas.
Context {H : Type}.
Implicit Types (b : Board H) (t : Tile H).

Lemma tileAt_of_nat b r c :
  tileAt b (mkCoord (Z.of_nat r) (Z.of_nat c)) = tileAtN b r c.
Proof. unfold tileAt, tileAtN; simpl. rewrite zlookup_of_nat. destruct (_ !! r); simpl; auto with chess. Qed.

Lemma tileAt_Some b p t :
  tileAt b p = Some t <->
  (0 <= row p /\ 0 <= col p)%Z /\ tileAtN b (Z.to_nat (row p)) (Z.to_nat (col p)) = Some t.
Proof.
  unfold tileAt, tileAtN. destruct (tiles b !!z row p) as [rw|] eqn:E; simpl.
  - apply zlookup_Some in E as [E1 E2]. rewrite E2; simpl. rewrite zlookup_Some. naive_solver.
  - split; [done|]. intros [[Hr _] Hl]. unfold zlookup in E.
    destruct (Z.ltb_spec (row p) 0); [lia|]. by rewrite E in Hl.
Qed.

Lemma tileIndices_spec b r c :
  (r, c) ∈ tileIndices b <-> is_Some (tileAtN b r c).
Proof.
  unfold tileIndices, tileAtN, shape. rewrite list_elem_of_join. split.
  - intros (l & Hin & Hl). apply list_elem_of_lookup in Hl as [i Hi].
    rewrite list_lookup_imap, list_lookup_fmap in Hi.
    destruct (tiles b !! i) as [rw|] eqn:Ei; simplify_eq/=.
    apply list_elem_of_fmap in Hin as (c' & [= -> ->] & Hc). rewrite Ei; simpl.
    apply elem_of_seq in Hc. apply lookup_lt_is_Some. lia.
  - destruct (tiles b !! r) as [rw|] eqn:Er; simpl; [|by intros []].
    intros Hc%lookup_lt_is_Some.
    exists ((fun c => (r, c)) <$> seq 0 (length rw)). split.
    + apply list_elem_of_fmap. exists c. split; [done|]. apply elem_of_seq. lia.
    + apply list_elem_of_lookup. exists r. by rewrite list_lookup_imap, list_lookup_fmap, Er.
Qed.

Lemma tileAtN_setSpaces b r c r' c' m :
  tileAtN (setSpaces b r c m) r' c' =
  if decide ((r, c) = (r', c')) then (fun t => mkTile (piece t) m) <$> tileAtN b r' c'
  else tileAtN b r' c'.
Proof.
  unfold tileAtN, setSpaces, set_tiles; simpl.
  destruct (decide (r = r')) as [<-|Hr].
  - rewrite list_lookup_alter_eq. destruct (tiles b !! r) as [rw|]; simpl; [|by case_decide].
    destruct (decide (c = c')) as [<-|Hc].
    + rewrite decide_True by done. by rewrite list_lookup_alter_eq.
    + rewrite decide_False by congruence. by rewrite list_lookup_alter_ne.
  - rewrite decide_False by congruence. by rewrite list_lookup_alter_ne.
Qed.

Lemma shape_setSpaces b r c m : shape (setSpaces b r c m) = shape b.
Proof.
  unfold shape, setSpaces, set_tiles; simpl. apply list_eq. intros i.
  rewrite !list_lookup_fmap. destruct (decide (r = i)) as [<-|Hi].
  - rewrite list_lookup_alter_eq. destruct (tiles b !! r); simpl; [|done].
    by rewrite length_alter.
  - by rewrite list_lookup_alter_ne.
Qed.

Lemma tileAtN_setTileN b r c t r' c' :
  tileAtN (setTileN b r c t) r' c' =
  if decide ((r, c) = (r', c')) then const t <$> tileAtN b r' c' else tileAtN b r' c'.
Proof.
  unfold tileAtN, setTileN, set_tiles; simpl.
  destruct (decide (r = r')) as [<-|Hr].
  - rewrite list_lookup_alter_eq. destruct (tiles b !! r) as [rw|]; simpl; [|by case_decide].
    destruct (decide (c = c')) as [<-|Hc].
    + rewrite decide_True by done. destruct (decide (c < length rw)) as [Hl|Hl].
      * rewrite list_lookup_insert_eq by done. by destruct (lookup_lt_is_Some_2 rw c Hl) as [? ->].
      * rewrite list_insert_ge by lia. by rewrite (proj2 (lookup_ge_None _ _)) by lia.
    + rewrite decide_False by congruence. by rewrite list_lookup_insert_ne.
  - rewrite decide_False by congruence. by rewrite list_lookup_alter_ne.
Qed.

Lemma shape_setTileN b r c t : shape (setTileN b r c t) = shape b.
Proof.
  unfold shape, setTileN, set_tiles; simpl. apply list_eq. intros i.
  rewrite !list_lookup_fmap. destruct (decide (r = i)) as [<-|Hi].
  - rewrite list_lookup_alter_eq. destruct (tiles b !! r); simpl; [|done].
    by rewrite length_insert.
  - by rewrite list_lookup_alter_ne.
Qed.

Lemma tileIndices_shape b1 b2 : shape b1 = shape b2 -> tileIndices b1 = tileIndices b2.
Proof. unfold tileIndices. by intros ->. Qed.

End AccessLemmas.
