(* ===== verification/Capability.v ===== *)
(** * Capability: the piece module the engine calls

    [src/ChessGameEngine.ts] calls four functions of [./piece], a module
    that is not in the repository (spec section 6): [tryMove] (the
    pseudo-legal test), [makeMove] (apply a move, reporting a captured
    piece through a callback), [moveMade] (history bookkeeping) and
    [setCoordToPiece], plus the constructor [new ChessPiece(color, type,
    coord?)].  The first three are the class [PieceCapability]; the
    engine's theorems are proved against it, for every instance.

    [makeMove(board, to, piece, onCapture)] mutates the board and calls
    [onCapture(captured)]; we model it as returning the mutated board and
    the piece it reported, if any.

    [PieceLaws] states what the engine's correctness arguments need of
    the piece module: [tryMove] and [makeMove] look at the pieces and
    counters of a board, never at its [spacesToMove] caches, and
    [makeMove] keeps the grid's shape and the vanguard counters.  These
    are exactly "equal up to caches" ([≡] below) being respected.  The
    file [Scenarios.v] gives an instance satisfying the laws. *)

From S2P Require Import Prelude ChessData.

Class PieceCapability (H : Type) := {
  (** history flags of a freshly constructed piece *)
  hist0 : H;
  tryMove : Board H -> Coordinate -> Piece H -> bool;
  makeMove : Board H -> Coordinate -> Piece H -> Board H * option (Piece H);
  (** [moveMade(movedPiece, otherPiece)]: the updated [otherPiece] *)
  moveMade : Piece H -> Piece H -> Piece H
}.

Section Pieces.
Context {H : Type} `{!PieceCapability H}.

(** [new ChessPiece(color, type, coord?)]. *)
Definition newChessPiece (c : Color) (ty : PieceType) (p : option Coordinate) : Piece H :=
  mkPiece ty c p hist0.

(** [ChessPiece.setCoordToPiece(coord, piece)]. *)
Definition setCoordToPiece (p : Coordinate) (pc : Piece H) : Piece H :=
  mkPiece (ptype pc) (pcolor pc) (Some p) (phist pc).

End Pieces.

(** ** Boards equal up to their move caches *)

#[export] Instance board_equiv {H} : Equiv (Board H) := fun b1 b2 => erase b1 = erase b2.

#[export] Instance board_equiv_equivalence {H} : Equivalence (≡@{Board H}).
Proof. split; unfold equiv, board_equiv; [done | by intros ?? -> | by intros ??? -> ->]. Qed.

Class PieceLaws (H : Type) `{!PieceCapability H} := {
  tryMove_proper :> Proper ((≡) ==> (=) ==> (=) ==> (=)) (@tryMove H _);
  makeMove_board_proper b1 b2 d p : b1 ≡ b2 -> (makeMove b1 d p).1 ≡ (makeMove b2 d p).1;
  makeMove_capture_proper b1 b2 d p : b1 ≡ b2 -> (makeMove b1 d p).2 = (makeMove b2 d p).2;
  makeMove_shape b d p : shape (makeMove b d p).1 = shape b;
  makeMove_vanguards b d p :
    vanguards (makeMove b d p).1 = vanguards b /\
    whiteVanguards (makeMove b d p).1 = whiteVanguards b /\
    blackVanguards (makeMove b d p).1 = blackVanguards b
}.

Lemma tryMove_equiv `{PieceLaws H} b1 b2 d p : b1 ≡ b2 -> tryMove b1 d p = tryMove b2 d p.
Proof. intros He. by apply tryMove_proper. Qed.

Section EquivLemmas.
Context {H : Type}.
Implicit Types b : Board H.

Lemma erase_idemp b : erase (erase b) = erase b.
Proof.
  unfold erase, set_tiles; cbn [tiles]. f_equal.
  rewrite <-list_fmap_compose. apply list_fmap_ext. intros _ rw _. simpl.
  rewrite <-list_fmap_compose. by apply list_fmap_ext.
Qed.

Lemma erase_equiv b : erase b ≡ b.
Proof. unfold equiv, board_equiv. apply erase_idemp. Qed.

Lemma tileAtN_erase b r c : tileAtN (erase b) r c = eraseTile <$> tileAtN b r c.
Proof.
  unfold tileAtN, erase, set_tiles; cbn [tiles]. rewrite list_lookup_fmap.
  destruct (tiles b !! r); simpl; [|done]. by rewrite list_lookup_fmap.
Qed.

Lemma shape_erase b : shape (erase b) = shape b.
Proof.
  unfold shape, erase, set_tiles; cbn [tiles]. rewrite <-list_fmap_compose.
  apply list_fmap_ext. intros _ rw _. simpl. by rewrite length_fmap.
Qed.

Lemma erase_setSpaces b r c m : erase (setSpaces b r c m) = erase b.
Proof.
  unfold erase, setSpaces, set_tiles; cbn [tiles]. f_equal. apply list_eq. intros i.
  rewrite !list_lookup_fmap. destruct (decide (r = i)) as [<-|Hi].
  - rewrite list_lookup_alter_eq. destruct (tiles b !! r) as [rw|]; simpl; [|done].
    f_equal. apply list_eq. intros j. rewrite !list_lookup_fmap.
    destruct (decide (c = j)) as [<-|Hj].
    + rewrite list_lookup_alter_eq. by destruct (rw !! c).
    + by rewrite list_lookup_alter_ne.
  - by rewrite list_lookup_alter_ne.
Qed.

Lemma setSpaces_equiv b r c m : setSpaces b r c m ≡ b.
Proof. unfold equiv, board_equiv. apply erase_setSpaces. Qed.

Lemma equiv_shape b1 b2 : b1 ≡ b2 -> shape b1 = shape b2.
Proof. unfold equiv, board_equiv. intros He. by rewrite <-shape_erase, He, shape_erase. Qed.

Lemma equiv_length b1 b2 : b1 ≡ b2 -> length (tiles b1) = length (tiles b2).
Proof. intros He%equiv_shape. unfold shape in He. by rewrite <-(length_fmap length), He, length_fmap. Qed.

Lemma equiv_piece b1 b2 r c : b1 ≡ b2 -> piece <$> tileAtN b1 r c = piece <$> tileAtN b2 r c.
Proof.
  unfold equiv, board_equiv. intros He.
  assert (Hl := f_equal (fun b => tileAtN b r c) He). simpl in Hl.
  rewrite !tileAtN_erase in Hl.
  destruct (tileAtN b1 r c), (tileAtN b2 r c); simplify_eq/=; congruence.
Qed.

Lemma equiv_counters b1 b2 : b1 ≡ b2 ->
  vanguards b1 = vanguards b2 /\ whiteVanguards b1 = whiteVanguards b2 /\
  blackVanguards b1 = blackVanguards b2.
Proof. unfold equiv, board_equiv, erase, set_tiles. intros He. by inversion He. Qed.

#[export] Instance setSpaces_proper r c m : Proper ((≡) ==> (≡)) (fun b : Board H => setSpaces b r c m).
Proof. intros b1 b2 He. by rewrite !setSpaces_equiv. Qed.

(** Two boards of the same shape and counters are equal when every tile
    lookup agrees. *)
Lemma board_eq_of_lookup b1 b2 :
  shape b1 = shape b2 ->
  vanguards b1 = vanguards b2 -> whiteVanguards b1 = whiteVanguards b2 ->
  blackVanguards b1 = blackVanguards b2 ->
  (forall r c, tileAtN b1 r c = tileAtN b2 r c) -> b1 = b2.
Proof.
  destruct b1 as [ts1 q1 w1 k1], b2 as [ts2 q2 w2 k2]; unfold shape, tileAtN; simpl.
  intros Hs -> -> -> Hl. f_equal. apply list_eq. intros r.
  assert (Hr := f_equal (fun l => l !! r) Hs). simpl in Hr. rewrite !list_lookup_fmap in Hr.
  specialize (Hl r).
  destruct (ts1 !! r) as [rw1|], (ts2 !! r) as [rw2|]; simplify_eq/=; [|done].
  f_equal. apply list_eq. apply Hl.
Qed.

(** ... and equal up to caches when every piece agrees. *)
Lemma equiv_of_lookup b1 b2 :
  shape b1 = shape b2 ->
  vanguards b1 = vanguards b2 -> whiteVanguards b1 = whiteVanguards b2 ->
  blackVanguards b1 = blackVanguards b2 ->
  (forall r c, piece <$> tileAtN b1 r c = piece <$> tileAtN b2 r c) -> b1 ≡ b2.
Proof.
  intros Hs Hq Hw Hk Hl. unfold equiv, board_equiv. apply board_eq_of_lookup; try done.
  - by rewrite !shape_erase.
  - intros r c. rewrite !tileAtN_erase. specialize (Hl r c).
    destruct (tileAtN b1 r c), (tileAtN b2 r c); simplify_eq/=; unfold eraseTile; congruence.
Qed.

Lemma setTileN_proper b1 b2 r c t : b1 ≡ b2 -> setTileN b1 r c t ≡ setTileN b2 r c t.
Proof.
  intros He. destruct (equiv_counters _ _ He) as (Hq & Hw & Hk).
  apply equiv_of_lookup; try done.
  - rewrite !shape_setTileN. by apply equiv_shape.
  - intros r' c'. rewrite !tileAtN_setTileN. assert (Hp := equiv_piece _ _ r' c' He).
    case_decide; [|done]. destruct (tileAtN b1 r' c'), (tileAtN b2 r' c'); simplify_eq/=; done.
Qed.

Lemma tileAt_as_N b p :
  tileAt b p = if decide (0 <= row p /\ 0 <= col p)%Z
               then tileAtN b (Z.to_nat (row p)) (Z.to_nat (col p)) else None.
Proof.
  destruct (tileAt b p) as [t|] eqn:E.
  - apply tileAt_Some in E as [Hnn E]. by rewrite decide_True.
  - case_decide as Hnn; [|done]. destruct (tileAtN b _ _) eqn:E'; [|done].
    assert (tileAt b p = Some t) as E2 by (by apply tileAt_Some). congruence.
Qed.

Lemma equiv_piece_at b1 b2 p : b1 ≡ b2 -> piece <$> tileAt b1 p = piece <$> tileAt b2 p.
Proof. intros He. rewrite !tileAt_as_N. case_decide; [by apply equiv_piece|done]. Qed.

End EquivLemmas.

#[export] Hint Resolve setSpaces_equiv erase_equiv : chess.
#[export] Hint Rewrite @erase_setSpaces @erase_idemp @shape_erase @shape_setSpaces : chess_rw.
