(* ===== verification/MoveGen.v ===== *)
(** * MoveGen: [ChessGameEngine.populateAvailableMoves]

    [populateAvailableMoves()] (src/ChessGameEngine.ts lines 29-71)
    returns at once while a side has fewer vanguards than the quota;
    otherwise it visits every tile of the live board in row-major order
    and, for a non-empty tile, keeps the destinations [D] of the square
    grid such that [tryMove(board, D, piece)] holds and, on a deep copy
    of the board where the move was made and every tile's cache was
    recomputed with [tryMove], the mover's king is not in check.  The
    tile's [spacesToMove] is assigned as soon as its destinations are
    known, so later tiles see a live board whose earlier caches are
    already fresh; the copy's caches are likewise assigned one by one.

    The model keeps this order: [forEachSetSpaces] is the in-place
    traversal, [mapSpaces] the simultaneous assignment.  The first
    theorem shows that the two agree whenever the per-tile value reads
    the board only up to its caches, which the piece module's laws give;
    from it follow the characterisation of the generated moves, king
    safety, and the gate. *)

From S2P Require Import Prelude ChessData Capability CheckDetector.

(** ** In-place traversal of the tiles *)
Section Traverse.
Context {H : Type}.
Implicit Types b : Board H.

(** [tiles.forEach((row, r) => row.forEach((tile, c) => {
       tile.spacesToMove = g(board, r, c, tile.piece) }))]: the callback
    sees the board as the previous iterations left it (both callbacks of
    the engine read the tile through [tile.piece] only). *)
Definition forEachSetSpaces (g : Board H -> nat -> nat -> Piece H -> list Coordinate)
    (b : Board H) : Board H :=
  fold_left (fun b' '(r, c) =>
               match tileAtN b' r c with
               | Some t => setSpaces b' r c (g b' r c (piece t))
               | None => b'
               end) (tileIndices b) b.

(** Every cache assigned at once from the board as it was. *)
Definition mapSpaces (g : nat -> nat -> Piece H -> list Coordinate) (b : Board H) : Board H :=
  set_tiles b (imap (fun r rw => imap (fun c t => mkTile (piece t) (g r c (piece t))) rw) (tiles b)).

Lemma tileAtN_mapSpaces g b r c :
  tileAtN (mapSpaces g b) r c = (fun t => mkTile (piece t) (g r c (piece t))) <$> tileAtN b r c.
Proof.
  unfold tileAtN, mapSpaces, set_tiles; cbn [tiles]. rewrite list_lookup_imap.
  destruct (tiles b !! r); simpl; [|done]. by rewrite list_lookup_imap.
Qed.

Lemma shape_mapSpaces g b : shape (mapSpaces g b) = shape b.
Proof.
  unfold shape, mapSpaces, set_tiles; cbn [tiles]. apply list_eq. intros r.
  rewrite !list_lookup_fmap, list_lookup_imap. destruct (tiles b !! r); simpl; [|done].
  by rewrite length_imap.
Qed.

Lemma mapSpaces_equiv g b : mapSpaces g b ≡ b.
Proof.
  apply equiv_of_lookup; try done; [apply shape_mapSpaces|].
  intros r c. rewrite tileAtN_mapSpaces. by destruct (tileAtN b r c).
Qed.

(** [mapSpaces] overwrites every cache, so it reads a board only up to
    its caches. *)
Lemma mapSpaces_proper g b1 b2 : b1 ≡ b2 -> mapSpaces g b1 = mapSpaces g b2.
Proof.
  intros He. destruct (equiv_counters _ _ He) as (Hq & Hw & Hk).
  apply board_eq_of_lookup; try done.
  - rewrite !shape_mapSpaces. by apply equiv_shape.
  - intros r c. rewrite !tileAtN_mapSpaces. assert (Hp := equiv_piece _ _ r c He).
    destruct (tileAtN b1 r c), (tileAtN b2 r c); simplify_eq/=; congruence.
Qed.

Lemma mapSpaces_ext g1 g2 b :
  (forall r c p, g1 r c p = g2 r c p) -> mapSpaces g1 b = mapSpaces g2 b.
Proof.
  intros Hg. apply board_eq_of_lookup; try done; [by rewrite !shape_mapSpaces|].
  intros r c. rewrite !tileAtN_mapSpaces. destruct (tileAtN b r c); simpl; by rewrite ?Hg.
Qed.

Lemma decide_in_snoc_here {A B} `{!EqDecision A} (x : A) V (u v : B) :
  (if decide (x ∈ V ++ [x]) then u else v) = u.
Proof. rewrite decide_True; [done|]. apply elem_of_app. right. by left. Qed.

Lemma decide_in_snoc_other {A B} `{!EqDecision A} (x y : A) V (u v : B) :
  y ≠ x -> (if decide (x ∈ V ++ [y]) then u else v) = (if decide (x ∈ V) then u else v).
Proof.
  intros Hne. destruct (decide (x ∈ V ++ [y])) as [Hin|Hin], (decide (x ∈ V)) as [Hin'|Hin'];
    rewrite ?elem_of_app, ?list_elem_of_singleton in Hin; naive_solver.
Qed.

Section Sequential.
Variable g : Board H -> nat -> nat -> Piece H -> list Coordinate.
Variable b : Board H.
(** The value computed for a tile reads the live board up to its caches. *)
Hypothesis Hg : forall b' r c p, b' ≡ b -> g b' r c p = g b r c p.

Let upd (V : list (nat * nat)) (r c : nat) : option (Tile H) :=
  if decide ((r, c) ∈ V) then (fun t => mkTile (piece t) (g b r c (piece t))) <$> tileAtN b r c
  else tileAtN b r c.

Lemma forEach_fold (l : list (nat * nat)) (b' : Board H) (V : list (nat * nat)) :
  b' ≡ b -> (forall r c, tileAtN b' r c = upd V r c) ->
  let b'' := fold_left (fun b' '(r, c) =>
               match tileAtN b' r c with
               | Some t => setSpaces b' r c (g b' r c (piece t))
               | None => b'
               end) l b' in
  b'' ≡ b /\ forall r c, tileAtN b'' r c = upd (V ++ l) r c.
Proof.
  revert b' V. induction l as [|[r c] l IH]; intros b' V He Hl; simpl.
  { by rewrite app_nil_r. }
  replace (V ++ (r, c) :: l) with ((V ++ [(r, c)]) ++ l) by by rewrite <-app_assoc.
  apply IH.
  - destruct (tileAtN b' r c); [|done]. by rewrite setSpaces_equiv.
  - intros r' c'. unfold upd. rewrite (Hl r c). unfold upd.
    destruct (tileAtN b r c) as [t0|] eqn:E0.
    + assert (exists t', (if decide ((r, c) ∈ V)
                          then (fun t => mkTile (piece t) (g b r c (piece t))) <$> Some t0 else Some t0)
                         = Some t' /\ piece t' = piece t0) as (t' & -> & Hp).
      { case_decide; eauto. }
      rewrite tileAtN_setSpaces, Hp, (Hg _ _ _ _ He).
      destruct (decide ((r, c) = (r', c'))) as [[= <- <-]|Hne].
      * rewrite Hl. unfold upd. rewrite E0. rewrite decide_in_snoc_here.
        destruct (decide ((r, c) ∈ V)); simpl; congruence.
      * rewrite Hl. unfold upd. by rewrite decide_in_snoc_other.
    + simpl. destruct (decide ((r, c) = (r', c'))) as [[= <- <-]|Hne].
      * rewrite E0. destruct (decide ((r, c) ∈ V)); rewrite Hl; unfold upd; rewrite E0; by repeat case_decide.
      * destruct (decide ((r, c) ∈ V)); rewrite Hl; unfold upd; by rewrite decide_in_snoc_other.
Qed.

(** The in-place traversal computes the simultaneous assignment. *)
Lemma forEachSetSpaces_spec : forEachSetSpaces g b = mapSpaces (g b) b.
Proof.
  unfold forEachSetSpaces.
  destruct (forEach_fold (tileIndices b) b [] (reflexivity _)) as [He Hl].
  { intros r c. unfold upd. by rewrite decide_False by set_solver. }
  destruct (equiv_counters _ _ He) as (Hq & Hw & Hk).
  apply board_eq_of_lookup; try done.
  - rewrite shape_mapSpaces. by apply equiv_shape.
  - intros r c. rewrite Hl, tileAtN_mapSpaces. unfold upd. simpl.
    destruct (tileAtN b r c) eqn:E; [|by case_decide].
    rewrite decide_True; [done|]. apply tileIndices_spec. by rewrite E.
Qed.

End Sequential.
End Traverse.

(** ** The generator *)
Section Generator.
Context {H : Type} `{!PieceCapability H}.
Implicit Types (b : Board H) (p : Piece H).

(** [for (i = 0; i < tiles.length; i++) for (j = 0; j < tiles.length; j++)
      { row: i, col: j }] (lines 38-40 and 47-49): both loops are bounded
    by the number of rows. *)
Definition coords (n : nat) : list Coordinate :=
  mjoin ((fun i => (fun j => mkCoord (Z.of_nat i) (Z.of_nat j)) <$> seq 0 n) <$> seq 0 n).

(** Lines 46-54: the destinations [tryMove] accepts for [p] on [b]. *)
Definition pseudoMoves (b : Board H) (p : Piece H) : list Coordinate :=
  filter (fun d => tryMove b d p = true) (coords (length (tiles b))).

(** Lines 44-57: every tile of the copy gets its pseudo-legal moves. *)
Definition refreshPseudo (nb : Board H) : Board H :=
  forEachSetSpaces (fun nb' _ _ p => pseudoMoves nb' p) nb.

(** Lines 42-62 for one candidate [D]: [newBoard] is a deep copy of the
    live board ([JSON.parse(JSON.stringify(board))]), the move is made on
    it with a callback that ignores captures, its caches are recomputed,
    and [D] is kept when [inCheck(otherColor, newBoard.tiles)] is false.
    The piece moved on the copy, [newBoard.tiles[r][c].piece], is the
    copy of [tile.piece]. *)
Definition keepsKingSafe (b : Board H) (p : Piece H) (d : Coordinate) : bool :=
  let nb := (makeMove b d p).1 in
  negb (Detector.inCheck (otherColor (pcolor p)) (tiles (refreshPseudo nb))).

(** Lines 36-68 for one tile: nothing for an [Empty] piece. *)
Definition legalMovesAt (b : Board H) (r c : nat) (p : Piece H) : list Coordinate :=
  if decide (ptype p = Empty) then []
  else filter (fun d => (tryMove b d p && keepsKingSafe b p d) = true)
              (coords (length (tiles b))).

(** Line 30: [blackVanguards < vanguards || whiteVanguards < vanguards]. *)
Definition vanguardsPending (b : Board H) : bool :=
  (blackVanguards b <? vanguards b) || (whiteVanguards b <? vanguards b).

Definition populateAvailableMoves (b : Board H) : Board H :=
  if vanguardsPending b then b else forEachSetSpaces legalMovesAt b.


(** The reference: every cache computed from the board as it was. *)
Definition populateRef (b : Board H) : Board H :=
  if vanguardsPending b then b else mapSpaces (legalMovesAt b) b.

End Generator.

(** ** What the generator computes *)
Section GeneratorLaws.
Context {H : Type} `{!PieceCapability H} `{!PieceLaws H}.
Implicit Types (b : Board H) (p : Piece H).

Lemma pseudoMoves_proper b1 b2 p : b1 ≡ b2 -> pseudoMoves b1 p = pseudoMoves b2 p.
Proof.
  intros He. unfold pseudoMoves. rewrite (equiv_length _ _ He).
  apply list_filter_iff. intros d. by rewrite (tryMove_equiv _ _ _ _ He).
Qed.

(** The copy's caches, assigned one by one, are its pseudo-legal moves. *)
Lemma refreshPseudo_spec nb : refreshPseudo nb = mapSpaces (fun _ _ p => pseudoMoves nb p) nb.
Proof. apply forEachSetSpaces_spec. intros b' r c p He. by apply pseudoMoves_proper. Qed.

Lemma refreshPseudo_proper nb1 nb2 : nb1 ≡ nb2 -> refreshPseudo nb1 = refreshPseudo nb2.
Proof.
  intros He. rewrite !refreshPseudo_spec, (mapSpaces_proper _ _ _ He).
  apply mapSpaces_ext. intros _ _ p. by apply pseudoMoves_proper.
Qed.

Lemma keepsKingSafe_proper b1 b2 p d : b1 ≡ b2 -> keepsKingSafe b1 p d = keepsKingSafe b2 p d.
Proof.
  intros He. unfold keepsKingSafe.
  by rewrite (refreshPseudo_proper _ _ (makeMove_board_proper _ _ d p He)).
Qed.

Lemma legalMovesAt_proper b1 b2 r c p : b1 ≡ b2 -> legalMovesAt b1 r c p = legalMovesAt b2 r c p.
Proof.
  intros He. unfold legalMovesAt. case_decide; [done|]. rewrite (equiv_length _ _ He).
  apply list_filter_iff. intros d. by rewrite (tryMove_equiv _ _ _ _ He), (keepsKingSafe_proper _ _ _ _ He).
Qed.

Lemma vanguardsPending_proper b1 b2 : b1 ≡ b2 -> vanguardsPending b1 = vanguardsPending b2.
Proof. intros He. destruct (equiv_counters _ _ He) as (Hq & Hw & Hk). unfold vanguardsPending. by rewrite Hq, Hw, Hk. Qed.

Lemma populate_eq_ref b : populateAvailableMoves b = populateRef b.
Proof.
  unfold populateAvailableMoves, populateRef. destruct (vanguardsPending b); [done|].
  apply forEachSetSpaces_spec. intros b' r c p He. by apply legalMovesAt_proper.
Qed.

(** The generator only writes caches. *)
Lemma populate_equiv b : populateAvailableMoves b ≡ b.
Proof.
  rewrite populate_eq_ref. unfold populateRef.
  destruct (vanguardsPending b); [done | apply mapSpaces_equiv].
Qed.

Lemma tileAtN_populate b r c :
  vanguardsPending b = false ->
  tileAtN (populateAvailableMoves b) r c =
  (fun t => mkTile (piece t) (legalMovesAt b r c (piece t))) <$> tileAtN b r c.
Proof.
  intros Hp. rewrite populate_eq_ref. unfold populateRef. rewrite Hp.
  apply tileAtN_mapSpaces.
Qed.

Lemma coords_spec n d :
  d ∈ coords n <-> (0 <= row d < Z.of_nat n /\ 0 <= col d < Z.of_nat n)%Z.
Proof.
  unfold coords. rewrite list_elem_of_join. split.
  - intros (l & Hd & Hl). apply list_elem_of_fmap in Hl as (i & -> & Hi%elem_of_seq).
    apply list_elem_of_fmap in Hd as (j & -> & Hj%elem_of_seq). simpl. lia.
  - destruct d as [r c]; simpl. intros [Hr Hc].
    exists ((fun j => mkCoord r (Z.of_nat j)) <$> seq 0 n). split.
    + apply list_elem_of_fmap. exists (Z.to_nat c). split; [f_equal; lia|]. apply elem_of_seq. lia.
    + apply list_elem_of_fmap. exists (Z.to_nat r). split.
      * apply list_fmap_ext. intros _ j _. f_equal. lia.
      * apply elem_of_seq. lia.
Qed.

Lemma spacesToMove_iff b r c t :
  vanguardsPending b = false -> tileAtN b r c = Some t ->
  exists t', tileAtN (populateAvailableMoves b) r c = Some t' /\ piece t' = piece t /\
  forall d, d ∈ spacesToMove t' <->
    ptype (piece t) <> Empty /\
    (0 <= row d < Z.of_nat (length (tiles b)) /\ 0 <= col d < Z.of_nat (length (tiles b)))%Z /\
    tryMove b d (piece t) = true /\ keepsKingSafe b (piece t) d = true.
Proof.
  intros Hp Ht. rewrite tileAtN_populate, Ht by done. eexists; split_and!; [done..|]. intros d.
  simpl. unfold legalMovesAt. case_decide as HE.
  - split; [intros ?%not_elem_of_nil|]; naive_solver.
  - rewrite list_elem_of_filter, coords_spec, andb_true_iff. naive_solver.
Qed.

Lemma indexedTiles_tileAtN b r c t :
  (r, c, t) ∈ indexedTiles (tiles b) <-> tileAtN b r c = Some t.
Proof. apply indexedTiles_spec. Qed.

(** A candidate survives the check test exactly when, on the copy where
    it was made, the mover's side has a king that no pseudo-legal move of
    the other side reaches (the last such king in row-major order). *)
Lemma keepsKingSafe_spec b p d :
  pcolor p <> Null ->
  keepsKingSafe b p d = true <->
  let nb := (makeMove b d p).1 in
  exists kr kc tk,
    Detector.findOpponentKing (otherColor (pcolor p)) (tiles (refreshPseudo nb))
      = Some (mkCoord (Z.of_nat kr) (Z.of_nat kc)) /\
    tileAtN nb kr kc = Some tk /\ ptype (piece tk) = King /\ pcolor (piece tk) = pcolor p /\
    forall r' c' t', tileAtN nb r' c' = Some t' -> pcolor (piece t') = otherColor (pcolor p) ->
      mkCoord (Z.of_nat kr) (Z.of_nat kc) ∉ pseudoMoves nb (piece t').
Proof.
  intros Hc. unfold keepsKingSafe. simpl. set (nb := (makeMove b d p).1).
  rewrite negb_true_iff.
  destruct (Detector.findOpponentKing _ _) as [k|] eqn:Ef.
  2:{ unfold Detector.inCheck. rewrite Ef. split; [done|]. intros (? & ? & ? & ? & _); done. }
  assert (Hk := Detector.findOpponentKing_Some _ _ _ Ef).
  destruct Hk as (kr & kc & tk & -> & Hin & Hking).
  apply indexedTiles_tileAtN in Hin. rewrite refreshPseudo_spec, tileAtN_mapSpaces in Hin.
  destruct (tileAtN nb kr kc) as [tk0|] eqn:Etk; simplify_eq/=.
  unfold Detector.isOpponentKing in Hking. simpl in Hking. bool_to_prop.
  split.
  - intros Hno. exists kr, kc, tk0. split_and!; try done.
    + destruct (pcolor p), (pcolor (piece tk0)); naive_solver.
    + intros r' c' t' Ht' Hcol Hatt. assert (Hchk : Detector.inCheck (otherColor (pcolor p))
        (tiles (refreshPseudo nb)) = true); [|congruence].
      apply (Detector.inCheck_attacked _ _ _ Ef).
      exists r', c', (mkTile (piece t') (pseudoMoves nb (piece t'))). split_and!; try done.
      apply indexedTiles_tileAtN. rewrite refreshPseudo_spec, tileAtN_mapSpaces, Ht'. done.
  - intros (kr' & kc' & tk' & [= <- <-]%(inj Some) & _ & _ & _ & Hsafe).
    destruct (Detector.inCheck _ _) eqn:Hchk; [|done].
    apply (Detector.inCheck_attacked _ _ _ Ef) in Hchk as (r' & c' & t' & Hin' & Hcol & Hatt).
    apply indexedTiles_tileAtN in Hin'. rewrite refreshPseudo_spec, tileAtN_mapSpaces in Hin'.
    destruct (tileAtN nb r' c') as [t0|] eqn:Et0; simplify_eq/=.
    exfalso. by apply (Hsafe r' c' t0).
Qed.

(** C1. King safety: every destination the generator lists for a piece leaves,
    on the board where the move is made, a king of the mover's color that
    no piece of the other color can reach with a pseudo-legal move. *)
Theorem legal_move_keeps_king_safe b r c t t' d :
  vanguardsPending b = false -> tileAtN b r c = Some t -> pcolor (piece t) <> Null ->
  tileAtN (populateAvailableMoves b) r c = Some t' -> d ∈ spacesToMove t' ->
  let nb := (makeMove b d (piece t)).1 in
  exists kr kc tk, tileAtN nb kr kc = Some tk /\ ptype (piece tk) = King /\
    pcolor (piece tk) = pcolor (piece t) /\
    forall r' c' t'', tileAtN nb r' c' = Some t'' -> pcolor (piece t'') = otherColor (pcolor (piece t)) ->
      mkCoord (Z.of_nat kr) (Z.of_nat kc) ∉ pseudoMoves nb (piece t'').
Proof.
  intros Hp Ht Hc Ht' Hd.
  destruct (spacesToMove_iff b r c t Hp Ht) as (t0 & Ht0 & _ & Hspec). simplify_eq.
  apply Hspec in Hd as (_ & _ & _ & Hsafe).
  apply keepsKingSafe_spec in Hsafe as (kr & kc & tk & _ & ?); [|done]. eauto.
Qed.

(** C3. Sequential traversal: [populateAvailableMoves] assigns each tile's
    cache on the live board as soon as it is computed, so later tiles are
    generated on a board whose earlier caches are already new.  Because
    generation looks only at pieces and counters, the result equals the
    reference [populateRef] that computes every cache from the board as it
    was. *)
Theorem populate_sequential_eq_ref b : populateAvailableMoves b = populateRef b.
Proof. apply populate_eq_ref. Qed.

(** C2. The generated destinations of a tile, on every branch: a destination
    is listed exactly when the piece is not [Empty], the square is on the
    grid, [tryMove] accepts it and the mover's king is not in check on
    the copy where it was made. *)
Theorem spacesToMove_spec b r c t :
  vanguardsPending b = false -> tileAtN b r c = Some t ->
  exists t', tileAtN (populateAvailableMoves b) r c = Some t' /\ piece t' = piece t /\
  forall d, d ∈ spacesToMove t' <->
    ptype (piece t) <> Empty /\
    (0 <= row d < Z.of_nat (length (tiles b)) /\ 0 <= col d < Z.of_nat (length (tiles b)))%Z /\
    tryMove b d (piece t) = true /\ keepsKingSafe b (piece t) d = true.
Proof. apply spacesToMove_iff. Qed.

End GeneratorLaws.
