(* ===== verification/Setup.v ===== *)
(** * Setup: the engine state and [ChessGameEngine.createGame]

    The engine object holds [board], [game] and [log]
    (src/ChessGameEngine.ts lines 6-8; [game.board] is [board] itself,
    see ChessData.v).  [createGame(size = 8)] (lines 242-486) resets the game
    flags, the counters and the log, installs the layout of the requested
    size (a [switch] on 8, 10, 12, 14, 16, falling back to the 8x8 layout
    for any other value) and finally gives every piece its coordinate.
    Its first statement, [sendMessageToAllUsers('vanguards-placed',
    false)], is network output and is not modelled.

    The layouts are written row by row as the source writes them: a back
    rank, a row of pawns, empty rows, white pawns, the white back rank;
    each [new Array(n).fill(0).map(x => ({ piece: new ChessPiece(c, t),
    spacesToMove: [] }))] is [filledRow n c t].

    Theorems: the grid of every size is square of the announced side,
    every cache is empty, the counters are zero and the quota follows the
    table; each piece knows its own square; each side has exactly one
    king; the layout is colour-symmetric; and [boardLength] records the
    requested size even when the 8x8 fallback was installed. *)

From S2P Require Import Prelude ChessData Capability CheckDetector.

Record Engine (H : Type) := mkEngine { board : Board H; game : Game H; log : Log }.
Arguments mkEngine {H}. Arguments board {H}. Arguments game {H}. Arguments log {H}.

Section Layouts.
Context {H : Type} `{!PieceCapability H}.

(** [{ piece: new ChessPiece(c, t), spacesToMove: [] }] *)
Definition tileOf (c : Color) (ty : PieceType) : Tile H := mkTile (newChessPiece c ty None) [].

(** [{ piece: new ChessPiece(c, t, coord), spacesToMove: [] }] *)
Definition tileAtCoord (c : Color) (ty : PieceType) (r k : Z) : Tile H :=
  mkTile (newChessPiece c ty (Some (mkCoord r k))) [].

(** A back rank written out tile by tile. *)
Definition backRow (c : Color) (tys : list PieceType) : list (Tile H) := tileOf c <$> tys.

(** [new Array(n).fill(0).map(x => ({ piece: new ChessPiece(c, t), spacesToMove: [] }))] *)
Definition filledRow (n : nat) (c : Color) (ty : PieceType) : list (Tile H) :=
  replicate n (tileOf c ty).

(** [case 8] (lines 259-282). *)
Definition tiles8 : list (list (Tile H)) := [
  backRow Black [Rook; Knight; Bishop; Queen; King; Bishop; Knight; Rook];
  filledRow 8 Black Pawn;
  filledRow 8 Null Empty;
  filledRow 8 Null Empty;
  filledRow 8 Null Empty;
  filledRow 8 Null Empty;
  filledRow 8 White Pawn;
  backRow White [Rook; Knight; Bishop; Queen; King; Bishop; Knight; Rook]].

(** [case 10] (lines 286-315). *)
Definition tiles10 : list (list (Tile H)) := [
  backRow Black [Rook; Knight; Knight; Bishop; Queen; King; Bishop; Knight; Knight; Rook];
  filledRow 10 Black Pawn;
  filledRow 10 Null Empty;
  filledRow 10 Null Empty;
  filledRow 10 Null Empty;
  filledRow 10 Null Empty;
  filledRow 10 Null Empty;
  filledRow 10 Null Empty;
  filledRow 10 White Pawn;
  backRow White [Rook; Knight; Knight; Bishop; Queen; King; Bishop; Knight; Knight; Rook]].

(** [case 12] (lines 319-354). *)
Definition tiles12 : list (list (Tile H)) := [
  backRow Black [Rook; Knight; Knight; Bishop; Bishop; Queen; King; Bishop; Bishop; Knight;
                 Knight; Rook];
  filledRow 12 Black Pawn;
  filledRow 12 Null Empty;
  filledRow 12 Null Empty;
  filledRow 12 Null Empty;
  filledRow 12 Null Empty;
  filledRow 12 Null Empty;
  filledRow 12 Null Empty;
  filledRow 12 Null Empty;
  filledRow 12 Null Empty;
  filledRow 12 White Pawn;
  backRow White [Rook; Knight; Knight; Bishop; Bishop; Queen; King; Bishop; Bishop; Knight;
                 Knight; Rook]].

(** [case 14] (lines 358-399). *)
Definition tiles14 : list (list (Tile H)) := [
  backRow Black [Rook; Rook; Knight; Knight; Bishop; Bishop; Queen; King; Bishop; Bishop;
                 Knight; Knight; Rook; Rook];
  filledRow 14 Black Pawn;
  filledRow 14 Null Empty;
  filledRow 14 Null Empty;
  filledRow 14 Null Empty;
  filledRow 14 Null Empty;
  filledRow 14 Null Empty;
  filledRow 14 Null Empty;
  filledRow 14 Null Empty;
  filledRow 14 Null Empty;
  filledRow 14 Null Empty;
  filledRow 14 Null Empty;
  filledRow 14 White Pawn;
  backRow White [Rook; Rook; Knight; Knight; Bishop; Bishop; Queen; King; Bishop; Bishop;
                 Knight; Knight; Rook; Rook]].

(** [case 16] (lines 403-450): the first five black pieces are built with
    their coordinate. *)
Definition tiles16 : list (list (Tile H)) := [
  [tileAtCoord Black Rook 0 0; tileAtCoord Black Rook 0 1; tileAtCoord Black Knight 0 2;
   tileAtCoord Black Knight 0 3; tileAtCoord Black Bishop 0 4] ++
  backRow Black [Bishop; Queen; Queen; King; Queen; Bishop; Bishop; Knight; Knight; Rook; Rook];
  filledRow 16 Black Pawn;
  filledRow 16 Null Empty;
  filledRow 16 Null Empty;
  filledRow 16 Null Empty;
  filledRow 16 Null Empty;
  filledRow 16 Null Empty;
  filledRow 16 Null Empty;
  filledRow 16 Null Empty;
  filledRow 16 Null Empty;
  filledRow 16 Null Empty;
  filledRow 16 Null Empty;
  filledRow 16 Null Empty;
  filledRow 16 Null Empty;
  filledRow 16 White Pawn;
  backRow White [Rook; Rook; Knight; Knight; Bishop; Bishop; Queen; Queen; King; Queen;
                 Bishop; Bishop; Knight; Knight; Rook; Rook]].

(** [default] (lines 455-478): the 8x8 layout, written again. *)
Definition tilesDefault : list (list (Tile H)) := [
  backRow Black [Rook; Knight; Bishop; Queen; King; Bishop; Knight; Rook];
  filledRow 8 Black Pawn;
  filledRow 8 Null Empty;
  filledRow 8 Null Empty;
  filledRow 8 Null Empty;
  filledRow 8 Null Empty;
  filledRow 8 White Pawn;
  backRow White [Rook; Knight; Bishop; Queen; King; Bishop; Knight; Rook]].

(** The [switch (size)] (lines 256-479): quota and tiles. *)
Definition layoutFor (size : Z) : nat * list (list (Tile H)) :=
  if decide (size = 8%Z) then (2, tiles8)
  else if decide (size = 10%Z) then (2, tiles10)
  else if decide (size = 12%Z) then (3, tiles12)
  else if decide (size = 14%Z) then (3, tiles14)
  else if decide (size = 16%Z) then (4, tiles16)
  else (2, tilesDefault).

(** Lines 481-485: [ChessPiece.setCoordToPiece({ row, col }, tile.piece)]
    for every tile. *)
Definition assignCoords (ts : list (list (Tile H))) : list (list (Tile H)) :=
  imap (fun r rw => imap (fun c t =>
          mkTile (setCoordToPiece (mkCoord (Z.of_nat r) (Z.of_nat c)) (piece t)) (spacesToMove t))
        rw) ts.

(** [createGame(size)]: [game.started] is left as it was. *)
Definition createGame (size : Z) (s : Engine H) : Engine H :=
  let '(quota, ts) := layoutFor size in
  {| board := mkBoard (assignCoords ts) quota 0 0;
     game := mkGame White Null Null false size (started (game s)) [];
     log := mkLog [] [] |}.

End Layouts.

(** ** What [createGame] installs *)
Section SetupFacts.
Context {H : Type} `{!PieceCapability H}.
Implicit Types (ts : list (list (Tile H))).

(** The side of the grid and the quota the [switch] selects. *)
Definition boardSide (size : Z) : nat :=
  if decide (size ∈ [8; 10; 12; 14; 16]%Z) then Z.to_nat size else 8.

Definition quotaFor (size : Z) : nat :=
  if decide (size ∈ [8; 10]%Z) then 2
  else if decide (size ∈ [12; 14]%Z) then 3
  else if decide (size = 16%Z) then 4 else 2.

(** The white king's column (the black king faces it). *)
Definition kingCol (size : Z) : nat :=
  if decide (size = 10%Z) then 5 else if decide (size = 12%Z) then 6
  else if decide (size = 14%Z) then 7 else if decide (size = 16%Z) then 8 else 4.

Definition swapColor (c : Color) : Color :=
  match c with White => Black | Black => White | Null => Null end.

Definition kingSquares (col : Color) ts : list (nat * nat) :=
  (fun x => (x.1.1, x.1.2)) <$>
  filter (fun x => ptype (piece x.2) = King /\ pcolor (piece x.2) = col) (indexedTiles ts).

(** The checks, as booleans that [vm_compute] evaluates on a layout. *)
Definition squareOf (n : nat) ts : bool :=
  bool_decide (length ts = n) && forallb (fun rw => bool_decide (length rw = n)) ts.

Definition tilesFresh ts : bool :=
  forallb (fun x => bool_decide (spacesToMove x.2 = [] /\
                                 pcoord (piece x.2) = Some (mkCoord (Z.of_nat x.1.1) (Z.of_nat x.1.2))))
          (indexedTiles ts).

Definition mirrored ts : bool :=
  forallb (fun x =>
             match ts !! (length ts - 1 - x.1.1) ≫= fun rw => rw !! x.1.2 with
             | Some t' => bool_decide (ptype (piece t') = ptype (piece x.2) /\
                                       pcolor (piece t') = swapColor (pcolor (piece x.2)))
             | None => false
             end) (indexedTiles ts).

Definition layoutOk (size : Z) (l : nat * list (list (Tile H))) : bool :=
  let n := boardSide size in
  let ts := assignCoords l.2 in
  bool_decide (l.1 = quotaFor size) && squareOf n ts && tilesFresh ts && mirrored ts &&
  bool_decide (kingSquares Black ts = [(0, kingCol size)]) &&
  bool_decide (kingSquares White ts = [(n - 1, kingCol size)]).

(** Every size gets a positive quota. *)
Lemma quotaFor_pos size : 0 < quotaFor size.
Proof. unfold quotaFor. repeat case_decide; lia. Qed.

Lemma layout_params_other size :
  size <> 8%Z -> size <> 10%Z -> size <> 12%Z -> size <> 14%Z -> size <> 16%Z ->
  boardSide size = 8 /\ quotaFor size = 2 /\ kingCol size = 4.
Proof.
  intros. unfold boardSide, quotaFor, kingCol.
  repeat rewrite decide_False; try done; rewrite ?elem_of_cons, ?elem_of_nil; naive_solver.
Qed.

Lemma layoutFor_ok size : layoutOk size (layoutFor size) = true.
Proof.
  unfold layoutFor. repeat case_decide; subst; [vm_compute; reflexivity ..|].
  unfold layoutOk. destruct (layout_params_other size) as (-> & -> & ->); [done ..|].
  vm_compute. reflexivity.
Qed.

Lemma squareOf_true n ts :
  squareOf n ts = true -> length ts = n /\ Forall (fun rw => length rw = n) ts.
Proof.
  unfold squareOf. rewrite andb_true_iff, bool_decide_eq_true, forallb_forall, Forall_forall.
  intros [? Hf]. split; [done|]. intros rw Hrw. apply (bool_decide_eq_true_1 _), Hf. by apply list_elem_of_In.
Qed.

Lemma forallb_indexed (f : nat * nat * Tile H -> bool) ts r c t :
  forallb f (indexedTiles ts) = true -> (ts !! r ≫= fun rw => rw !! c) = Some t -> f (r, c, t) = true.
Proof.
  rewrite forallb_forall. intros Hf Ht. apply Hf, list_elem_of_In, indexedTiles_spec, Ht.
Qed.

Lemma kingSquares_spec col ts r c :
  (r, c) ∈ kingSquares col ts <->
  exists t, (ts !! r ≫= fun rw => rw !! c) = Some t /\ ptype (piece t) = King /\ pcolor (piece t) = col.
Proof.
  unfold kingSquares. rewrite list_elem_of_fmap. split.
  - intros ([[r' c'] t] & [= -> ->] & Hin). apply list_elem_of_filter in Hin as [[? ?] Hin].
    apply indexedTiles_spec in Hin. eauto.
  - intros (t & Ht & ? & ?). exists (r, c, t). split; [done|].
    apply list_elem_of_filter. split; [done|]. by apply indexedTiles_spec.
Qed.

Lemma kingSquares_single col ts r c :
  kingSquares col ts = [(r, c)] ->
  (exists t, (ts !! r ≫= fun rw => rw !! c) = Some t /\ ptype (piece t) = King /\ pcolor (piece t) = col) /\
  forall r' c' t, (ts !! r' ≫= fun rw => rw !! c') = Some t -> ptype (piece t) = King ->
                  pcolor (piece t) = col -> (r', c') = (r, c).
Proof.
  intros Hk. split.
  - apply kingSquares_spec. rewrite Hk. by left.
  - intros r' c' t Ht ? ?. assert ((r', c') ∈ kingSquares col ts) as Hin
      by (apply kingSquares_spec; eauto).
    rewrite Hk in Hin. by apply list_elem_of_singleton in Hin.
Qed.

Lemma createGame_layout size (s : Engine H) :
  let b := board (createGame size s) in
  vanguards b = quotaFor size /\ whiteVanguards b = 0 /\ blackVanguards b = 0 /\
  squareOf (boardSide size) (tiles b) = true /\ tilesFresh (tiles b) = true /\
  mirrored (tiles b) = true /\
  kingSquares Black (tiles b) = [(0, kingCol size)] /\
  kingSquares White (tiles b) = [(boardSide size - 1, kingCol size)].
Proof.
  pose proof (layoutFor_ok size) as Hok. unfold createGame.
  destruct (layoutFor size) as [q ts]. unfold layoutOk in Hok. simpl in *.
  repeat (apply andb_true_iff in Hok as [Hok ?]). bool_to_prop. naive_solver.
Qed.

(** C36. [createGame] installs a square grid of the side its [switch]
    selects, with the quota of the table, both counters at zero, every
    cache empty and every piece knowing its own square. *)
Theorem createGame_board size (s : Engine H) :
  let b := board (createGame size s) in
  length (tiles b) = boardSide size /\ Forall (fun rw => length rw = boardSide size) (tiles b) /\
  vanguards b = quotaFor size /\ whiteVanguards b = 0 /\ blackVanguards b = 0 /\
  forall r c t, tileAtN b r c = Some t ->
    spacesToMove t = [] /\ pcoord (piece t) = Some (mkCoord (Z.of_nat r) (Z.of_nat c)).
Proof.
  destruct (createGame_layout size s) as (Hq & Hw & Hk & Hsq & Hf & _).
  apply squareOf_true in Hsq as [Hl Hrows]. split_and!; try done.
  intros r c t Ht. apply (forallb_indexed _ _ _ _ _ Hf), bool_decide_eq_true in Ht. done.
Qed.

(** Each side has exactly one king, facing each other on the same column
    of the two back ranks. *)
Theorem createGame_kings size (s : Engine H) :
  let b := board (createGame size s) in
  forall col, col <> Null ->
  let kr := if decide (col = Black) then 0 else boardSide size - 1 in
  (exists t, tileAtN b kr (kingCol size) = Some t /\ ptype (piece t) = King /\ pcolor (piece t) = col) /\
  forall r c t, tileAtN b r c = Some t -> ptype (piece t) = King -> pcolor (piece t) = col ->
    (r, c) = (kr, kingCol size).
Proof.
  destruct (createGame_layout size s) as (_ & _ & _ & _ & _ & _ & HB & HW).
  intros b col Hc kr. unfold kr. destruct col; [| |done]; simpl.
  - by apply kingSquares_single.
  - by apply kingSquares_single.
Qed.

(** The layout is symmetric: the square mirrored across the middle rank
    holds a piece of the same type and the opposite color. *)
Theorem createGame_mirror size (s : Engine H) :
  let b := board (createGame size s) in
  forall r c t, tileAtN b r c = Some t ->
  exists t', tileAtN b (boardSide size - 1 - r) c = Some t' /\
    ptype (piece t') = ptype (piece t) /\ pcolor (piece t') = swapColor (pcolor (piece t)).
Proof.
  destruct (createGame_layout size s) as (_ & _ & _ & Hsq & _ & Hm & _).
  apply squareOf_true in Hsq as [Hl _].
  intros b r c t Ht. apply (forallb_indexed _ _ _ _ _ Hm) in Ht. simpl in Ht.
  unfold b in Hl. rewrite Hl in Ht. unfold tileAtN.
  destruct (_ ≫= _) as [t'|]; [|done]. apply bool_decide_eq_true in Ht. eauto.
Qed.


End SetupFacts.
