(* ===== verification/Engine.v ===== *)
(** * Engine: the socket handlers of [ChessGameEngine]

    [setupSocketConnectionsForUser(socket)] (src/ChessGameEngine.ts
    lines 117-240) keeps a [color] per socket (initially [Null], set by
    'choose-team') and registers the handlers 'start-game', 'quit-game',
    'reset', 'make-move' and 'place-vanguard'; each runs to completion on
    the engine state.  A handler either finishes ([Done]) or throws a
    JavaScript exception ([Thrown], with the state as the throw left it).
    A throw escapes the socket.io listener; Node's default for an uncaught
    exception is to stop the process.

    Modelled here, from the source:
    - [addTakenPiece] (106-108), [addLogMessage] (110-115, without the
      broadcast) and the move notation of 'make-move' (194-208);
    - 'make-move' (155-215): the vanguard gate, the turn and [tryMove]
      test, [makeMove] with [this.addTakenPiece] as capture callback,
      [moveMade] on every tile, the turn flip, the recomputation, the
      check flag, the end-of-game test and the log entry;
    - 'place-vanguard' (217-239), 'start-game' (129-135), 'quit-game'
      (138-145), 'reset' (147-152), 'choose-team' (123-127);
    - the constructor (11-20).

    Two facts of JavaScript matter.  [this.addTakenPiece] is passed to
    [makeMove] without [bind]: when [makeMove] reports a capture the
    callback runs with [this] undefined and [this.game] throws a
    TypeError, so a capturing move never completes.  And
    [board.tiles[r][c]] on an index out of range is [undefined]: reading
    [.piece] of it throws. *)

From S2P Require Import Prelude ChessData Capability CheckDetector MoveGen Setup.

Inductive Outcome (S : Type) := Done (s : S) | Thrown (s : S).
Arguments Done {S}. Arguments Thrown {S}.

Section Handlers.
Context {H : Type} `{!PieceCapability H}.
Implicit Types (s : Engine H) (b : Board H).

Definition set_board s b : Engine H := mkEngine b (game s) (log s).
Definition set_game s g : Engine H := mkEngine (board s) g (log s).

(** [this.populateAvailableMoves()] on the engine. *)
Definition populate s : Engine H := set_board s (populateAvailableMoves (board s)).

(** [addTakenPiece(piece)] (lines 106-108). *)
Definition addTakenPiece (p : Piece H) s : Engine H :=
  let g := game s in
  set_game s (mkGame (playersTurn g) (inCheck g) (winner g) (stalemate g) (boardLength g)
                     (started g) (takenPieces g ++ [p])).

(** [addLogMessage(msg, color)] (lines 110-115). *)
Definition addLogMessage (msg : string) (c : Color) (l : Log) : Log :=
  match c with
  | Null => l
  | White => mkLog (blackMoves l) (whiteMoves l ++ [msg])
  | Black => mkLog (blackMoves l ++ [msg]) (whiteMoves l)
  end.

(** ** The move notation (lines 194-208) *)

Definition alphabet : list string :=
  ["a"; "b"; "c"; "d"; "e"; "f"; "g"; "h"; "i"; "j"; "k"; "l"; "m"; "n"; "o"; "p"].

(** [piece.type.charAt(0).toUpperCase()]: the type's name is in
    [./types], which the repository lacks; the spec (section 6) says it is
    the capitalised first letter of the type's name. *)
Definition typeInitial (ty : PieceType) : string :=
  match ty with
  | Empty => "E" | Pawn => "P" | Knight => "K" | Bishop => "B"
  | Rook => "R" | Queen => "Q" | King => "K" | Vanguard => "V"
  end.

(** Lines 197-202. *)
Definition typePrefix (ty : PieceType) : string :=
  if decide (ty = Knight) then "N"
  else if decide (ty <> Pawn) then typeInitial ty
  else "".

(** [alphabet[col]] is [undefined] out of range, and [+=] appends the
    string ["undefined"]; [`${row + 1}`] prints the integer in decimal. *)
Definition moveNotation (ty : PieceType) (to : Coordinate) (chk : Color) : string :=
  typePrefix ty +:+ default "undefined" (alphabet !!z col to) +:+ pretty (row to + 1)%Z +:+
  (if decide (chk <> Null) then "+" else "").

(** ** 'make-move' *)

(** Line 169: [ChessPiece.moveMade(piece, tile.piece)] for every tile.
    [piece] is the object [makeMove] moved, which now sits on [to]: each
    call sees it as the previous calls left it. *)
Definition notifyMoveMade (to : Coordinate) (p : Piece H) (b : Board H) : Board H :=
  fold_left (fun b' '(r, c) =>
               let moved := default p (piece <$> tileAt b' to) in
               match tileAtN b' r c with
               | Some t => setTileN b' r c (mkTile (moveMade moved (piece t)) (spacesToMove t))
               | None => b'
               end) (tileIndices b) b.

(** [!tiles.some(row => row.some(tile => tile.piece.color === turn &&
    tile.spacesToMove.length > 0))] (line 182). *)
Definition noMovesFor (turn : Color) (b : Board H) : bool :=
  negb (existsb (fun x => bool_decide (pcolor (piece x.2) = turn) &&
                          (0 <? length (spacesToMove x.2)))
                (indexedTiles (tiles b))).

(** [if (this.game.inCheck)] (line 183) tests a [Color] for JavaScript
    truthiness.  The enum is declared in [./types], not in the
    repository; we take the spec's reading (section 4.5 step 5: "if
    checkedColor is set"): [Null] is falsy, the two colors are truthy. *)
Definition colorTruthy (c : Color) : bool :=
  match c with Null => false | _ => true end.

(** The part of the handler after [makeMove] returned normally
    (lines 169-213); [color] is the submitting socket's team. *)
Definition afterMove (color : Color) (p : Piece H) (to : Coordinate) (b1 : Board H) s : Engine H :=
  let b2 := notifyMoveMade to p b1 in
  let oldPlayer := playersTurn (game s) in
  let turn := otherColor oldPlayer in
  let b3 := populateAvailableMoves b2 in
  let chk := if Detector.inCheck color (tiles b3) then turn else Null in
  let g := game s in
  let '(win, stale) :=
    if noMovesFor turn b3 then (if colorTruthy chk then (oldPlayer, stalemate g) else (winner g, true))
    else (winner g, stalemate g) in
  {| board := b3;
     game := mkGame turn chk win stale (boardLength g) (started g) (takenPieces g);
     log := addLogMessage (moveNotation (ptype p) to chk) (pcolor p) (log s) |}.

(** The 'make-move' handler (lines 155-215). *)
Definition onMakeMove (color : Color) (from to : Coordinate) s : Outcome (Engine H) :=
  let b := board s in
  if vanguardsPending b then Done s
  else match tileAt b from with
  | None => Thrown s
  | Some t =>
      let p := piece t in
      if bool_decide (playersTurn (game s) = pcolor p) && tryMove b to p then
        match makeMove b to p with
        | (b1, Some _) => Thrown (set_board s b1)
        | (b1, None) => Done (afterMove color p to b1 s)
        end
      else Done s
  end.

(** ** 'place-vanguard' (lines 217-239) *)

(** [tile.piece.color == c && tile.piece.type == PieceType.Pawn] on a
    tile that may be [undefined] ([None] is the TypeError). *)
Definition pawnOf (c : Color) (tile : option (Tile H)) : option bool :=
  (fun t => bool_decide (pcolor (piece t) = c) && bool_decide (ptype (piece t) = Pawn)) <$> tile.

(** [color === c && counter < vanguards && <pawnOf>], evaluated left to
    right with short-circuit. *)
Definition deployGuard (color c : Color) (counter quota : nat) (tile : option (Tile H)) : option bool :=
  if bool_decide (color = c) && (counter <? quota) then pawnOf c tile else Some false.

(** One branch's body: the counter, the new Vanguard, its coordinate, the
    recomputation. *)
Definition deployVanguard (c : Color) (pos : Coordinate) s : Engine H :=
  let b := board s in
  let b1 := mkBoard (tiles b) (vanguards b)
              (if decide (c = White) then S (whiteVanguards b) else whiteVanguards b)
              (if decide (c = Black) then S (blackVanguards b) else blackVanguards b) in
  let t := mkTile (setCoordToPiece pos (newChessPiece c Vanguard None)) [] in
  populate (set_board s (setTileN b1 (Z.to_nat (row pos)) (Z.to_nat (col pos)) t)).

Definition onPlaceVanguard (color : Color) (pos : Coordinate) s : Outcome (Engine H) :=
  let b := board s in
  match tiles b !!z row pos with
  | None => Thrown s
  | Some rw =>
      let tile := rw !!z col pos in
      match deployGuard color White (whiteVanguards b) (vanguards b) tile with
      | None => Thrown s
      | Some true => Done (deployVanguard White pos s)
      | Some false =>
          match deployGuard color Black (blackVanguards b) (vanguards b) tile with
          | None => Thrown s
          | Some true => Done (deployVanguard Black pos s)
          | Some false => Done s
          end
      end
  end.

(** ** The other handlers *)

Definition set_started (v : bool) s : Engine H :=
  let g := game s in
  set_game s (mkGame (playersTurn g) (inCheck g) (winner g) (stalemate g) (boardLength g) v
                     (takenPieces g)).

(** 'start-game' (lines 129-135). *)
Definition onStartGame s : Engine H := set_started true s.

(** 'quit-game' (lines 138-145): [createGame()] takes its default 8. *)
Definition onQuitGame s : Engine H := populate (createGame 8 (set_started false s)).

(** 'reset' (lines 147-152). *)
Definition onReset (size : Z) s : Engine H := populate (createGame size s).

(** The constructor (lines 11-20). *)
Definition initialEngine : Engine H :=
  let b0 := mkBoard [[]] 0 0 0 in
  populate (createGame 8 {| board := b0; game := mkGame White Null Null false 0 false [];
                            log := mkLog [] [] |}).

End Handlers.

(** ** What 'make-move' does, branch by branch *)
Section MakeMoveFacts.
Context {H : Type} `{!PieceCapability H}.
Implicit Types (s : Engine H) (b : Board H).

Lemma afterMove_fields color p to b1 s :
  let s' := afterMove color p to b1 s in
  board s' = populateAvailableMoves (notifyMoveMade to p b1) /\
  playersTurn (game s') = otherColor (playersTurn (game s)) /\
  takenPieces (game s') = takenPieces (game s) /\
  inCheck (game s') = (if Detector.inCheck color (tiles (board s'))
                       then otherColor (playersTurn (game s)) else Null) /\
  log s' = addLogMessage (moveNotation (ptype p) to (inCheck (game s'))) (pcolor p) (log s).
Proof. unfold afterMove. cbn zeta. by destruct (if noMovesFor _ _ then _ else _). Qed.

(** C26. Rejections are silent: while vanguards are pending, when the piece is
    not of the side to move, or when [tryMove] refuses, nothing changes. *)
Theorem onMakeMove_rejects color from to s t :
  tileAt (board s) from = Some t ->
  vanguardsPending (board s) = true \/ playersTurn (game s) <> pcolor (piece t) \/
  tryMove (board s) to (piece t) = false ->
  onMakeMove color from to s = Done s.
Proof.
  intros Ht Hrej. unfold onMakeMove. destruct (vanguardsPending _) eqn:Hp; [done|].
  rewrite Ht. destruct Hrej as [?|[Hne|Hf]]; [congruence| |].
  - by rewrite bool_decide_eq_false_2.
  - by rewrite Hf, andb_false_r.
Qed.

(** C27. A source square off the board makes the handler throw (reading
    [.piece] of [undefined]) once the vanguards are placed. *)
Theorem onMakeMove_bad_source color from to s :
  vanguardsPending (board s) = false -> tileAt (board s) from = None ->
  onMakeMove color from to s = Thrown s.
Proof. intros Hp Ht. unfold onMakeMove. by rewrite Hp, Ht. Qed.

(** C21. A capture never completes: [makeMove] calls the unbound
    [this.addTakenPiece], which throws.  The board is left as [makeMove]
    left it; turn, check flag, taken pieces and log are untouched. *)
Theorem onMakeMove_capture_throws color from to s t b1 q :
  vanguardsPending (board s) = false -> tileAt (board s) from = Some t ->
  playersTurn (game s) = pcolor (piece t) -> tryMove (board s) to (piece t) = true ->
  makeMove (board s) to (piece t) = (b1, Some q) ->
  onMakeMove color from to s = Thrown (mkEngine b1 (game s) (log s)).
Proof.
  intros Hp Ht Hturn Htry Hmm. unfold onMakeMove. rewrite Hp, Ht, Hmm, Htry.
  by rewrite bool_decide_eq_true_2.
Qed.

(** C8. An accepted move: the turn passes to the other side, the board is
    the recomputed one, the check flag names the new side to move exactly
    when the submitting socket's team attacks a king of another color,
    and the log of the mover's color gains the move's notation.  No
    hypothesis mentions [spacesToMove]: a move outside the piece's cache
    is accepted all the same. *)
Theorem onMakeMove_accepts color from to s t b1 :
  vanguardsPending (board s) = false -> tileAt (board s) from = Some t ->
  playersTurn (game s) = pcolor (piece t) -> tryMove (board s) to (piece t) = true ->
  makeMove (board s) to (piece t) = (b1, None) ->
  exists s', onMakeMove color from to s = Done s' /\
    board s' = populateAvailableMoves (notifyMoveMade to (piece t) b1) /\
    playersTurn (game s') = otherColor (playersTurn (game s)) /\
    takenPieces (game s') = takenPieces (game s) /\
    inCheck (game s') = (if Detector.inCheck color (tiles (board s'))
                         then otherColor (playersTurn (game s)) else Null) /\
    log s' = addLogMessage (moveNotation (ptype (piece t)) to (inCheck (game s'))) (pcolor (piece t)) (log s).
Proof.
  intros Hp Ht Hturn Htry Hmm. unfold onMakeMove. rewrite Hp, Ht, Hmm, Htry.
  rewrite bool_decide_eq_true_2 by done. eexists; split; [done|]. apply afterMove_fields.
Qed.

(** C10. The end-of-game test (lines 182-191): when the new side to move has
    no tile with a listed destination, a set check flag makes the mover
    the winner, and an unset one declares stalemate without a winner;
    otherwise both stay as they were. *)
Theorem afterMove_game_end color p to b1 s :
  let b3 := populateAvailableMoves (notifyMoveMade to p b1) in
  let turn := otherColor (playersTurn (game s)) in
  let g' := game (afterMove color p to b1 s) in
  (noMovesFor turn b3 = true ->
     (inCheck g' <> Null -> winner g' = playersTurn (game s) /\ stalemate g' = stalemate (game s)) /\
     (inCheck g' = Null -> winner g' = winner (game s) /\ stalemate g' = true)) /\
  (noMovesFor turn b3 = false -> winner g' = winner (game s) /\ stalemate g' = stalemate (game s)).
Proof.
  unfold afterMove. cbn zeta.
  destruct (playersTurn (game s)); simpl;
    destruct (Detector.inCheck _ _); simpl;
    destruct (noMovesFor _ _); simpl; intuition congruence.
Qed.

(** C9. Turn alternation (spec section 8): a completed 'make-move' either
    changes nothing or passes the turn to the other side. *)
Theorem onMakeMove_turn color from to s s' :
  onMakeMove color from to s = Done s' ->
  s' = s \/ playersTurn (game s') = otherColor (playersTurn (game s)).
Proof.
  unfold onMakeMove. destruct (vanguardsPending _); [intros [= <-]; by left|].
  destruct (tileAt _ _) as [t|]; [|done]. case_if; [|intros [= <-]; by left].
  destruct (makeMove _ _ _) as [b1 [q|]]; [done|]. intros [= <-]. right.
  apply afterMove_fields.
Qed.

End MakeMoveFacts.

(** ** 'place-vanguard', 'reset', 'quit-game' *)
Section DeployResetFacts.
Context {H : Type} `{!PieceCapability H}.
Implicit Types (s : Engine H) (b : Board H).

(** C28. A row index off the board throws: [this.board.tiles[pos.row]] is
    [undefined] and indexing it raises a TypeError. *)
Theorem onPlaceVanguard_bad_row color pos s :
  tiles (board s) !!z row pos = None -> onPlaceVanguard color pos s = Thrown s.
Proof. intros Hr. unfold onPlaceVanguard. by rewrite Hr. Qed.

(** A socket that chose no team (or any value other than the two colors)
    never deploys and never reads the tile, so even a column off the
    board is silently ignored. *)
Theorem onPlaceVanguard_no_team pos s rw :
  tiles (board s) !!z row pos = Some rw -> onPlaceVanguard Null pos s = Done s.
Proof. intros Hr. unfold onPlaceVanguard. by rewrite Hr. Qed.

Lemma placeVanguard_accepted c pos s t :
  c <> Null -> tileAt (board s) pos = Some t ->
  pcolor (piece t) = c -> ptype (piece t) = Pawn ->
  (if decide (c = White) then whiteVanguards (board s) else blackVanguards (board s)) <
    vanguards (board s) ->
  onPlaceVanguard c pos s = Done (deployVanguard c pos s).
Proof.
  intros Hc Ht Hcol Hty Hq. unfold onPlaceVanguard.
  unfold tileAt in Ht. destruct (tiles (board s) !!z row pos) as [rw|]; [|done]. simpl in Ht.
  unfold deployGuard, pawnOf. rewrite Ht. simpl. rewrite Hcol, Hty. apply Nat.ltb_lt in Hq.
  destruct c; [| |done]; simpl in *; rewrite ?Hq; simpl; by repeat rewrite bool_decide_eq_true_2.
Qed.

(** A deployment happens exactly for a pawn of the socket's own color
    while that color is below the quota; the counter grows by one. *)
Theorem onPlaceVanguard_deploys c pos s t :
  c <> Null -> tileAt (board s) pos = Some t ->
  pcolor (piece t) = c -> ptype (piece t) = Pawn ->
  (if decide (c = White) then whiteVanguards (board s) else blackVanguards (board s)) <
    vanguards (board s) ->
  onPlaceVanguard c pos s = Done (deployVanguard c pos s).
Proof. apply placeVanguard_accepted. Qed.

Lemma onPlaceVanguard_Done color pos s s' :
  onPlaceVanguard color pos s = Done s' ->
  s' = s \/
  exists c t, c = color /\ c <> Null /\ tileAt (board s) pos = Some t /\ pcolor (piece t) = c /\
    ptype (piece t) = Pawn /\
    (if decide (c = White) then whiteVanguards (board s) else blackVanguards (board s)) <
      vanguards (board s) /\ s' = deployVanguard c pos s.
Proof.
  unfold onPlaceVanguard, tileAt, deployGuard, pawnOf.
  destruct (tiles (board s) !!z row pos) as [rw|]; [simpl|done].
  destruct (rw !!z col pos) as [t|]; simpl;
    repeat case_if; simpl in *; intros Hd; simplify_eq; bool_to_prop; subst; eauto 20.
Qed.

(** [deployVanguard] puts a fresh Vanguard of the color on the square,
    knowing its coordinate, and counts it. *)
Lemma deployVanguard_board c pos s :
  c <> Null ->
  board (deployVanguard c pos s) =
  populateAvailableMoves
    (setTileN (mkBoard (tiles (board s)) (vanguards (board s))
                 (if decide (c = White) then S (whiteVanguards (board s)) else whiteVanguards (board s))
                 (if decide (c = Black) then S (blackVanguards (board s)) else blackVanguards (board s)))
              (Z.to_nat (row pos)) (Z.to_nat (col pos))
              (mkTile (mkPiece Vanguard c (Some pos) hist0) [])).
Proof. intros. done. Qed.

Lemma onReset_board size s :
  board (onReset size s) = board (createGame size s) /\
  vanguardsPending (board (onReset size s)) = true.
Proof.
  destruct (createGame_layout size s) as (Hq & Hw & Hk & _).
  assert (Hpos := quotaFor_pos size).
  assert (Hp : vanguardsPending (board (createGame size s)) = true).
  { unfold vanguardsPending. rewrite Hq, Hw, Hk. apply orb_true_iff. left. by apply Nat.ltb_lt. }
  unfold onReset, populate, set_board. cbn [board]. unfold populateAvailableMoves. rewrite Hp. done.
Qed.

(** Resetting twice is resetting once. *)
Theorem onReset_idempotent size size' s :
  onReset size (onReset size' s) = onReset size s.
Proof.
  unfold onReset, populate, set_board, createGame.
  destruct (layoutFor size'), (layoutFor size). done.
Qed.

(** Otherwise the handler changes nothing: a completed [place-vanguard]
    either leaves the state as it was or is the deployment of a pawn of
    the sender's team under its quota. *)
Theorem onPlaceVanguard_result color pos s s' :
  onPlaceVanguard color pos s = Done s' ->
  s' = s \/
  exists c t, c = color /\ c <> Null /\ tileAt (board s) pos = Some t /\ pcolor (piece t) = c /\
    ptype (piece t) = Pawn /\
    (if decide (c = White) then whiteVanguards (board s) else blackVanguards (board s)) <
      vanguards (board s) /\ s' = deployVanguard c pos s.
Proof. apply onPlaceVanguard_Done. Qed.

(** [reset] installs the layout of the size; the gate keeps every cache
    as [createGame] left it, empty. *)
Theorem onReset_canonical size s :
  board (onReset size s) = board (createGame size s) /\
  vanguardsPending (board (onReset size s)) = true.
Proof. apply onReset_board. Qed.

End DeployResetFacts.
