(* ===== verification/MoveLog.v ===== *)
(** * MoveLog: reading a line of the move log back

    'make-move' logs a move as [moveNotation ty to chk] (ChessGameEngine.ts
    lines 193-208): the type's prefix ("N" for a knight, nothing for a
    pawn, otherwise the capitalised initial), the column's letter
    [alphabet[col]], the row plus one in decimal, and "+" when the check
    flag is set.  [readMove] is a reader of such lines written from that
    description; [readMove_moveNotation] is the round trip: on every
    square of a board of side at most 16 the line gives back the piece
    type (the eight prefixes are distinct), the square and the check
    mark.  Off those columns [alphabet[col]] is
    [undefined] and the line cannot be read ([readMove_far_column]). *)

From S2P Require Import Prelude ChessData Capability CheckDetector MoveGen Setup Engine.
From Stdlib Require Import Ascii.

(** ** The reader *)

Definition isUpper (a : ascii) : bool := bool_decide (65 <= nat_of_ascii a <= 90).

Definition digitOf (a : ascii) : option N :=
  let n := N_of_ascii a in if bool_decide (48 <= n <= 57)%N then Some (n - 48)%N else None.

(** The column whose letter is [a]. *)
Definition columnOf (a : ascii) : option nat := fst <$> list_find (fun x => x = String a EmptyString) alphabet.

(** The longest run of digits: its value, how many digits, the rest. *)
Fixpoint readNum (s : string) (acc : N) (k : nat) : N * nat * string :=
  match s with
  | String a s' => match digitOf a with Some d => readNum s' (acc * 10 + d)%N (S k) | None => (acc, k, s) end
  | EmptyString => (acc, k, EmptyString)
  end.

Definition splitPrefix (s : string) : string * string :=
  match s with
  | String a r => if isUpper a then (String a EmptyString, r) else (EmptyString, s)
  | EmptyString => (EmptyString, EmptyString)
  end.

(** The type a prefix stands for: each of the eight types has its own. *)
Definition readType (prefix : string) : option PieceType :=
  head (filter (fun ty => typePrefix ty = prefix) [Empty; Pawn; Knight; Bishop; Rook; Queen; King; Vanguard]).

(** A log line: the piece type, the column, the row, whether it ends in
    "+". *)
Definition readMove (s : string) : option (PieceType * Z * Z * bool) :=
  let '(prefix, s1) := splitPrefix s in
  ty ← readType prefix;
  match s1 with
  | String a s2 =>
      match columnOf a with
      | Some c =>
          match readNum s2 0 0 with
          | (n, S _, EmptyString) => Some (ty, Z.of_nat c, (Z.of_N n - 1)%Z, false)
          | (n, S _, String "+" EmptyString) => Some (ty, Z.of_nat c, (Z.of_N n - 1)%Z, true)
          | _ => None
          end
      | None => None
      end
  | EmptyString => None
  end.

(** ** Decimal numerals read back *)

Lemma digitOf_pretty_N_char x : (x < 10)%N -> digitOf (pretty_N_char x) = Some x.
Proof.
  intros Hx. assert (x = 0 \/ x = 1 \/ x = 2 \/ x = 3 \/ x = 4 \/ x = 5 \/ x = 6 \/ x = 7 \/ x = 8 \/ x = 9)%N
    as Hc by lia.
  repeat destruct Hc as [->|Hc]; [reflexivity..|]. by subst.
Qed.

(** Reading the digits [pretty_N_go] puts in front of [s]. *)
Lemma readNum_pretty_N_go x s acc k :
  exists j, readNum (pretty_N_go x s) acc k = readNum s (acc * 10 ^ N.of_nat j + x)%N (k + j) /\
            ((0 < x)%N -> 0 < j).
Proof.
  revert s acc k. induction (N.lt_wf_0 x) as [x _ IH]; intros s acc k.
  assert (x = 0 \/ 0 < x)%N as [->|Hx] by lia.
  - exists 0. rewrite pretty_N_go_0. split; [f_equal; [f_equal; lia|lia]|lia].
  - rewrite pretty_N_go_step by done.
    destruct (IH (x `div` 10)%N ltac:(by apply N.div_lt) (String (pretty_N_char (x `mod` 10)) s) acc k)
      as (j & Hj & _).
    exists (S j). rewrite Hj. simpl. rewrite digitOf_pretty_N_char by (apply N.mod_lt; lia).
    split; [|lia]. f_equal; [|lia].
    rewrite Nat2N.inj_succ, N.pow_succ_r'.
    pose proof (N.div_mod x 10 ltac:(lia)) as Hdm. nia.
Qed.

(** [pretty_N_go] writes in front of what it is given. *)
Lemma pretty_N_go_app x s t : pretty_N_go x s +:+ t = pretty_N_go x (s +:+ t).
Proof.
  revert s. induction (N.lt_wf_0 x) as [x _ IH]; intros s.
  assert (x = 0 \/ 0 < x)%N as [->|Hx] by lia; [by rewrite !pretty_N_go_0|].
  rewrite (pretty_N_go_step x s), (pretty_N_go_step x (s +:+ t)) by done. rewrite IH by (by apply N.div_lt). done.
Qed.

(** A positive number in decimal, then [t]: the reader takes the number
    and at least one digit, and stops at [t] when [t] starts with no
    digit. *)
Lemma readNum_pretty_pos (z : Z) t :
  (0 < z)%Z -> (forall a t', t = String a t' -> digitOf a = None) ->
  exists j, readNum (pretty z +:+ t) 0 0 = (Z.to_N z, S j, t).
Proof.
  intros Hz Ht. destruct z as [|p|p]; [lia| |lia].
  change (pretty (Z.pos p)) with (if decide (N.pos p = 0%N) then "0" else pretty_N_go (N.pos p) ""). rewrite decide_False by done.
  rewrite pretty_N_go_app. change ("" +:+ t) with t.
  destruct (readNum_pretty_N_go (N.pos p) t 0 0) as ([|j] & Hj & Hpos); [specialize (Hpos eq_refl); lia|].
  exists j. rewrite Hj. simpl. destruct t as [|a t']; [done|].
  simpl. by rewrite (Ht a t' eq_refl).
Qed.

(** ** The round trip *)

Lemma readType_typePrefix ty : readType (typePrefix ty) = Some ty.
Proof. by destruct ty. Qed.

(** The column letters, one by one. *)
Lemma column_letter (c : Z) :
  (0 <= c < 16)%Z ->
  exists a, alphabet !!z c = Some (String a EmptyString) /\ isUpper a = false /\
            columnOf a = Some (Z.to_nat c).
Proof.
  intros Hc. replace (alphabet !!z c) with (alphabet !! Z.to_nat c)
    by (rewrite <-zlookup_of_nat, Z2Nat.id by lia; done).
  assert (Hn : Z.to_nat c < 16) by lia. revert Hn. generalize (Z.to_nat c) as n. intros n Hn.
  do 16 (destruct n as [|n]; [eexists; split_and!; reflexivity|]). lia.
Qed.

Lemma append_single (a : ascii) x : String a EmptyString +:+ x = String a x.
Proof. done. Qed.

Lemma append_cons (a : ascii) s x : String a s +:+ x = String a (s +:+ x).
Proof. done. Qed.

(** The prefix is empty or one capital letter. *)
Lemma typePrefix_shape ty :
  typePrefix ty = EmptyString \/ exists a, typePrefix ty = String a EmptyString /\ isUpper a = true.
Proof. destruct ty; (left; reflexivity) || (right; eexists; split; reflexivity). Qed.

Lemma splitPrefix_app ty (a : ascii) r :
  isUpper a = false -> splitPrefix (typePrefix ty +:+ String a r) = (typePrefix ty, String a r).
Proof.
  intros Ha. destruct (typePrefix_shape ty) as [->|(b & -> & Hb)]; simpl; [by rewrite Ha|by rewrite Hb].
Qed.

Lemma mark_no_digit (chk : Color) a t' :
  (if decide (chk <> Null) then "+" else "") = String a t' -> digitOf a = None.
Proof. case_decide; [by intros [= <- _]|done]. Qed.

(** C12. The round trip of the log: on a column of the alphabet and a row
    on the board, the line [make-move] logs gives back the moved piece's
    type, the destination square and whether the check mark was
    written. *)
Theorem readMove_moveNotation ty to chk :
  (0 <= col to < 16)%Z -> (0 <= row to)%Z ->
  readMove (moveNotation ty to chk) = Some (ty, col to, row to, bool_decide (chk <> Null)).
Proof.
  intros Hc Hr. destruct (column_letter (col to) Hc) as (a & Ha & Hup & Hcol).
  unfold moveNotation. rewrite Ha. cbn [default id]. rewrite append_single.
  unfold readMove. rewrite splitPrefix_app by done. cbn iota beta.
  rewrite readType_typePrefix. cbn [mbind option_bind]. rewrite Hcol.
  destruct (readNum_pretty_pos (row to + 1) (if decide (chk <> Null) then "+" else ""))
    as (j & Hj); [lia|apply mark_no_digit|].
  rewrite Hj. rewrite Z2N.id, Z2Nat.id by lia.
  replace (row to + 1 - 1)%Z with (row to) by lia.
  case_decide as Hk; [by rewrite bool_decide_true|].
  destruct chk; [discriminate..|done].
Qed.

(** Off the sixteen columns of [alphabet] (a negative column or one of
    16 or more) [alphabet[col]] is [undefined], the line reads
    "undefined" where the letter should be, and no column can be read
    from it. *)
Theorem readMove_far_column ty to chk :
  (col to < 0 \/ 16 <= col to)%Z -> readMove (moveNotation ty to chk) = None.
Proof.
  intros Hc. unfold moveNotation.
  assert (Hn : alphabet !!z col to = None) by (apply zlookup_None; simpl; lia).
  rewrite Hn. cbn [default id]. rewrite append_cons.
  unfold readMove. rewrite splitPrefix_app by done. rewrite readType_typePrefix. reflexivity.
Qed.
