(* ===== verification/Server.v ===== *)
(** * Server: one engine and the sockets connected to it

    Every call of [setupSocketConnectionsForUser(socket)]
    (src/ChessGameEngine.ts lines 117-240, called by [Lobby.addUserToLobby])
    creates a closure variable [color = Color.Null] and registers the five
    game handlers plus 'choose-team' on that socket.  A socket that joins
    twice is registered twice, and socket.io runs every listener of an
    event, in registration order.  The state is therefore the engine and
    the list of registrations [(socket id, color)] in order; an event from
    a socket runs the handler of each of its registrations on the state
    the previous one left, and the first throw stops the process.

    [reachable] is the set of states the constructor and a sequence of
    completed events lead to.  The invariants proved over it: the
    vanguard counters never exceed the quota; while a side is below it,
    every cache is empty and no move has been logged; the taken-piece list
    stays empty (a capture throws before anything is recorded); the side
    to move is never [Null]. *)

From S2P Require Import Prelude ChessData Capability CheckDetector MoveGen Setup Engine.

Record Server (H : Type) := mkServer { engine : Engine H; registrations : list (nat * Color) }.
Arguments mkServer {H}. Arguments engine {H}. Arguments registrations {H}.

Inductive Event :=
  | EvConnect (sid : nat)
  | EvChooseTeam (sid : nat) (c : Color)
  | EvStartGame (sid : nat)
  | EvQuitGame (sid : nat)
  | EvReset (sid : nat) (size : Z)
  | EvMakeMove (sid : nat) (from to : Coordinate)
  | EvPlaceVanguard (sid : nat) (pos : Coordinate).

Section Dispatch.
Context {H : Type} `{!PieceCapability H}.
Implicit Types (s : Engine H) (sv : Server H).

(** Run the listener of every registration of [sid], in order. *)
Definition runListeners (sid : nat) (h : Color -> Engine H -> Outcome (Engine H))
    (regs : list (nat * Color)) (s : Engine H) : Outcome (Engine H) :=
  fold_left (fun acc '(sid', col) =>
               match acc with
               | Thrown e => Thrown e
               | Done e => if decide (sid = sid') then h col e else Done e
               end) regs (Done s).

Definition withEngine sv (o : Outcome (Engine H)) : Outcome (Server H) :=
  match o with
  | Done e => Done (mkServer e (registrations sv))
  | Thrown e => Thrown (mkServer e (registrations sv))
  end.

Definition handle (ev : Event) sv : Outcome (Server H) :=
  let run sid h := withEngine sv (runListeners sid h (registrations sv) (engine sv)) in
  match ev with
  | EvConnect sid => Done (mkServer (engine sv) (registrations sv ++ [(sid, Null)]))
  | EvChooseTeam sid c =>
      Done (mkServer (engine sv)
              ((fun x : nat * Color => if decide (x.1 = sid) then (x.1, c) else x) <$> registrations sv))
  | EvStartGame sid => run sid (fun _ e => Done (onStartGame e))
  | EvQuitGame sid => run sid (fun _ e => Done (onQuitGame e))
  | EvReset sid size => run sid (fun _ e => Done (onReset size e))
  | EvMakeMove sid from to => run sid (fun col e => onMakeMove col from to e)
  | EvPlaceVanguard sid pos => run sid (fun col e => onPlaceVanguard col pos e)
  end.

Definition initialServer : Server H := mkServer initialEngine [].

Inductive reachable : Server H -> Prop :=
  | reachable_init : reachable initialServer
  | reachable_step sv ev sv' : reachable sv -> handle ev sv = Done sv' -> reachable sv'.

(** A listener traversal that completes carries an invariant [I] and a
    reflexive, transitive relation [R] that every completed listener
    call keeps: the first throw ends the traversal. *)
Lemma runListeners_preserve (I : Engine H -> Prop) (R : relation (Engine H))
    (HR : forall e, R e e) (HT : forall e1 e2 e3, R e1 e2 -> R e2 e3 -> R e1 e3) sid h regs s s' :
  (forall col e e', I e -> h col e = Done e' -> I e' /\ R e e') ->
  I s -> runListeners sid h regs s = Done s' -> I s' /\ R s s'.
Proof.
  intros Hh. unfold runListeners. revert s.
  assert (Hthrown : forall l e, fold_left (fun acc '(sid', col) =>
            match acc with Thrown e => Thrown e | Done e => if decide (sid = sid') then h col e else Done e end)
            l (Thrown e) = Thrown e).
  { induction l as [|[??] l IH]; intros e; [done|]. apply IH. }
  induction regs as [|[sid' col] regs IH]; intros s Hs; simpl; [intros [= <-]; by split|].
  case_decide; [|by apply IH].
  destruct (h col s) as [e|e] eqn:He; [|by rewrite Hthrown].
  intros Hrun. destruct (Hh col s e Hs He) as [He' Hse].
  destruct (IH e He' Hrun) as [Hs' Hes']. split; [done|]. by apply (HT s e s').
Qed.

End Dispatch.

(** ** Invariants of the reachable states *)
Section Invariant.
Context {H : Type} `{!PieceCapability H} `{!PieceLaws H}.
Implicit Types (s : Engine H) (b : Board H) (sv : Server H).

Definition counters b : nat * nat * nat := (vanguards b, whiteVanguards b, blackVanguards b).

Record engineInv (s : Engine H) : Prop := {
  inv_quota_pos : 0 < vanguards (board s);
  inv_white_le : whiteVanguards (board s) <= vanguards (board s);
  inv_black_le : blackVanguards (board s) <= vanguards (board s);
  inv_gate_caches : vanguardsPending (board s) = true ->
    forall r c t, tileAtN (board s) r c = Some t -> spacesToMove t = [];
  inv_gate_log : vanguardsPending (board s) = true ->
    whiteMoves (log s) = [] /\ blackMoves (log s) = [];
  inv_taken : takenPieces (game s) = [];
  inv_turn : playersTurn (game s) <> Null
}.

Lemma counters_pending b1 b2 : counters b1 = counters b2 -> vanguardsPending b1 = vanguardsPending b2.
Proof. unfold counters, vanguardsPending. by intros [= -> -> ->]. Qed.

Lemma counters_notify to p b : counters (notifyMoveMade to p b) = counters b.
Proof.
  apply fold_left_proj. intros b' [r c] _. by destruct (tileAtN b' r c).
Qed.

Lemma counters_populate b : counters (populateAvailableMoves b) = counters b.
Proof.
  unfold populateAvailableMoves. destruct (vanguardsPending b); [done|].
  apply fold_left_proj. intros b' [r c] _. by destruct (tileAtN b' r c).
Qed.

Lemma counters_makeMove b d p : counters (makeMove b d p).1 = counters b.
Proof. unfold counters. by destruct (makeMove_vanguards b d p) as (-> & -> & ->). Qed.

Lemma onMakeMove_Done color from to s s' :
  onMakeMove color from to s = Done s' ->
  s' = s \/ vanguardsPending (board s) = false /\
  exists t b1, makeMove (board s) to (piece t) = (b1, None) /\ playersTurn (game s) = pcolor (piece t) /\
    s' = afterMove color (piece t) to b1 s.
Proof.
  unfold onMakeMove. destruct (vanguardsPending _) eqn:Hp; [intros [= <-]; by left|].
  destruct (tileAt _ _) as [t|]; [|done]. destruct (bool_decide _ && tryMove _ _ _) eqn:Hg; [|intros [= <-]; by left].
  apply andb_true_iff in Hg as [Hturn%bool_decide_eq_true _].
  destruct (makeMove _ _ _) as [b1 [q|]] eqn:Hm; [done|]. intros [= <-]. right. eauto 10.
Qed.

Lemma tilesFresh_caches (ts : list (list (Tile H))) r c t :
  tilesFresh ts = true -> (ts !! r ≫= fun rw => rw !! c) = Some t -> spacesToMove t = [].
Proof. intros Hf Ht. apply (forallb_indexed _ _ _ _ _ Hf), bool_decide_eq_true in Ht. by destruct Ht. Qed.

Lemma inv_reset size s : engineInv (onReset size s).
Proof.
  destruct (onReset_board size s) as [Hb Hp].
  destruct (createGame_layout size s) as (Hq & Hw & Hk & _ & Hfresh & _).
  assert (Hpos := quotaFor_pos size).
  split; rewrite ?Hb; try lia.
  - intros _ r c t Ht. by apply (tilesFresh_caches _ r c t Hfresh).
  - intros _. unfold onReset, populate, createGame. by destruct (layoutFor size).
  - unfold onReset, populate, createGame. by destruct (layoutFor size).
  - unfold onReset, populate, createGame. by destruct (layoutFor size).
Qed.

Lemma inv_start s : engineInv s -> engineInv (onStartGame s).
Proof. intros []. by split. Qed.

Lemma inv_quit s : engineInv (onQuitGame s).
Proof. apply inv_reset. Qed.

Lemma inv_afterMove color p to b1 s :
  engineInv s -> vanguardsPending (board s) = false -> counters b1 = counters (board s) ->
  engineInv (afterMove color p to b1 s).
Proof.
  intros [Hq Hw Hk _ _ Ht Hturn] Hp Hc.
  destruct (afterMove_fields color p to b1 s) as (Hb & Hturn' & Ht' & _ & _).
  assert (Hc' : counters (board (afterMove color p to b1 s)) = counters (board s)).
  { by rewrite Hb, counters_populate, counters_notify. }
  assert (Hp' := counters_pending _ _ Hc'). rewrite Hp in Hp'.
  unfold counters in Hc'. injection Hc' as Eq Ew Ek.
  split; rewrite ?Eq, ?Ew, ?Ek, ?Ht', ?Hturn'; try done; try congruence.
  by destruct (playersTurn (game s)).
Qed.

Lemma inv_makeMove color from to s s' :
  engineInv s -> onMakeMove color from to s = Done s' -> engineInv s'.
Proof.
  intros Hi [<-|[Hp (t & b1 & Hm & _ & ->)]]%onMakeMove_Done; [done|].
  apply inv_afterMove; [done..|].
  by rewrite <-(counters_makeMove (board s) to (piece t)), Hm.
Qed.

Lemma inv_placeVanguard color pos s s' :
  engineInv s -> onPlaceVanguard color pos s = Done s' -> engineInv s'.
Proof.
  intros Hi [<-|(c & t & _ & Hc & Ht & Hcol & Hty & Hlt & ->)]%onPlaceVanguard_Done; [done|].
  destruct Hi as [Hq Hw Hk Hcache Hlog Htk Hturn].
  assert (Hpend : vanguardsPending (board s) = true).
  { unfold vanguardsPending. apply orb_true_iff.
    destruct c; simpl in Hlt; [right|left|done]; by apply Nat.ltb_lt. }
  set (b1 := setTileN (mkBoard (tiles (board s)) (vanguards (board s))
               (if decide (c = White) then S (whiteVanguards (board s)) else whiteVanguards (board s))
               (if decide (c = Black) then S (blackVanguards (board s)) else blackVanguards (board s)))
             (Z.to_nat (row pos)) (Z.to_nat (col pos))
             (mkTile (mkPiece Vanguard c (Some pos) hist0) [])).
  assert (Hb : board (deployVanguard c pos s) = populateAvailableMoves b1) by done.
  assert (Hcnt : counters (board (deployVanguard c pos s)) = counters b1)
    by (rewrite Hb; apply counters_populate).
  assert (Hv : vanguards (board (deployVanguard c pos s)) = vanguards (board s) /\
               whiteVanguards (board (deployVanguard c pos s)) <= vanguards (board s) /\
               blackVanguards (board (deployVanguard c pos s)) <= vanguards (board s)).
  { unfold counters in Hcnt.
    assert (E1 := f_equal (fun x => x.1.1) Hcnt). assert (E2 := f_equal (fun x => x.1.2) Hcnt).
    assert (E3 := f_equal (fun x => x.2) Hcnt). cbn [fst snd] in E1, E2, E3.
    rewrite E1, E2, E3. unfold b1. destruct c; simpl in *; lia. }
  destruct Hv as (Eq & Ew & Ek).
  split.
  - rewrite Eq. lia.
  - lia.
  - lia.
  - intros Hp' r' c' t' Ht'. rewrite Hb in Ht'.
    rewrite Hb in Hp'.
    rewrite (counters_pending (populateAvailableMoves b1) b1) in Hp' by apply counters_populate.
    unfold populateAvailableMoves in Ht'. rewrite Hp' in Ht'. unfold b1 in Ht'. rewrite tileAtN_setTileN in Ht'.
    case_decide; [destruct (tileAtN _ r' c'); simplify_eq/=; done|].
    by apply (Hcache Hpend r' c').
  - intros _. by apply Hlog.
  - exact Htk.
  - exact Hturn.
Qed.

Lemma runListeners_inv sid h regs s s' :
  (forall col e e', engineInv e -> h col e = Done e' -> engineInv e') ->
  engineInv s -> runListeners sid h regs s = Done s' -> engineInv s'.
Proof.
  intros Hh Hs Hrun.
  refine (proj1 (runListeners_preserve engineInv (fun _ _ => True) (fun _ => I) (fun _ _ _ _ _ => I)
                   sid h regs s s' _ Hs Hrun)).
  intros col e e' He Hd. split; [by apply (Hh col e e')|done].
Qed.

(** The invariant holds in the constructor's state and after every
    completed event. *)
Theorem reachable_engineInv sv : reachable sv -> engineInv (engine sv).
Proof.
  induction 1 as [|sv ev sv' Hr IH Hstep].
  - apply (inv_reset 8%Z).
  - destruct ev; simpl in Hstep; try (injection Hstep as <-; done);
      unfold withEngine in Hstep;
      destruct (runListeners _ _ _ _) as [e|e] eqn:Hrun; simplify_eq/=;
      (eapply runListeners_inv; [|exact IH|exact Hrun]);
      intros col e0 e' Hi Hd; simplify_eq/=;
      eauto using inv_start, inv_quit, inv_reset, inv_makeMove, inv_placeVanguard.
Qed.

(** C4. Vanguard gating (spec section 8): in every reachable state, while a
    side has placed fewer vanguards than the quota, no tile lists a
    destination and no move has been logged. *)
Theorem vanguard_gating sv :
  reachable sv -> vanguardsPending (board (engine sv)) = true ->
  (forall r c t, tileAtN (board (engine sv)) r c = Some t -> spacesToMove t = []) /\
  whiteMoves (log (engine sv)) = [] /\ blackMoves (log (engine sv)) = [].
Proof.
  intros Hr Hp. destruct (reachable_engineInv sv Hr) as [_ _ _ Hc Hl _ _].
  split; [by apply Hc|]. by apply Hl.
Qed.

(** C22. No piece is ever recorded as taken: the only code that records one is
    the capture callback, and it throws. *)
Theorem takenPieces_always_empty sv :
  reachable sv -> takenPieces (game (engine sv)) = [].
Proof. intros Hr. by destruct (reachable_engineInv sv Hr). Qed.

(** The quota bounds both counters and the side to move is a color. *)
Theorem counters_within_quota sv :
  reachable sv ->
  whiteVanguards (board (engine sv)) <= vanguards (board (engine sv)) /\
  blackVanguards (board (engine sv)) <= vanguards (board (engine sv)) /\
  playersTurn (game (engine sv)) <> Null.
Proof. intros Hr. destruct (reachable_engineInv sv Hr). done. Qed.

End Invariant.
