(* ===== verification/Emits.v ===== *)
(** * Emits: what the engine broadcasts

    Every handler of [src/ChessGameEngine.ts] ends by calling
    [this.sendMessageToAllUsers(key, value)], the lobby's broadcast
    passed to the constructor (line 11).  This file adds those calls to
    the handlers of [Engine]: each [...W] handler returns the state of
    the handler of [Engine] together with the messages it sends, in the
    order the code sends them ([onMakeMoveW_erase] and
    [onPlaceVanguardW_erase] prove that the state is the same; for the
    other handlers it is so by definition).  A message's payload is the value the code passes,
    read when the message is sent: socket.io serialises it at the call.

    [Msg] also holds the messages of the lobby layer ([src/Lobby.ts],
    [src/LobbyList.ts]), which [Rooms] sends. *)

From S2P Require Import Prelude ChessData Capability CheckDetector MoveGen Setup Engine Server.

(** The object [getGameInfo()] returns (ChessGameEngine.ts lines
    22-27): [{ board, log }]. *)
Record GameInfo (H : Type) := mkGameInfo { giBoard : Board H; giLog : Log }.
Arguments mkGameInfo {H}. Arguments giBoard {H}. Arguments giLog {H}.

(** The object [getLobbyInfo()] returns (Lobby.ts lines 29-35):
    [{ lobbyCode, users, gameInfo }], the user names and the game's
    [getGameInfo()]. *)
Record LobbyInfo (H : Type) := mkInfo {
  infoCode : string;
  infoUsers : list string;
  infoGame : GameInfo H
}.
Arguments mkInfo {H}. Arguments infoCode {H}. Arguments infoUsers {H}. Arguments infoGame {H}.

(** The messages of the server, by their socket.io key. *)
Inductive Msg (H : Type) :=
  | MTest (text : string)                       (** 'test' *)
  | MVanguardsPlaced (placed : bool)            (** 'vanguards-placed' *)
  | MGameUpdate (g : Game H) (b : Board H)      (** 'game-update': [this.game], which holds the board *)
  | MLogUpdate (l : Log)                        (** 'log-update' *)
  | MMakeGame (g : Game H) (b : Board H)        (** 'make-game' *)
  | MJoinedLobby (info : LobbyInfo H)           (** 'joined-lobby' *)
  | MLobbyUpdated (info : LobbyInfo H)          (** 'lobby-updated' *)
  | MJoinLobbyErr (text : string).              (** 'join-lobby-err' *)
Arguments MTest {H}. Arguments MVanguardsPlaced {H}. Arguments MGameUpdate {H}.
Arguments MLogUpdate {H}. Arguments MMakeGame {H}. Arguments MJoinedLobby {H}.
Arguments MLobbyUpdated {H}. Arguments MJoinLobbyErr {H}.

Section EngineEmits.
Context {H : Type} `{!PieceCapability H}.
Implicit Types (s : Engine H) (b : Board H).

(** [getGameInfo()] (lines 22-27). *)
Definition getGameInfo s : GameInfo H := mkGameInfo (board s) (log s).

(** [sendMessageToAllUsers('game-update', this.game)]. *)
Definition gameUpdate s : Msg H := MGameUpdate (game s) (board s).

(** The broadcast at the end of [addLogMessage(msg, color)] (lines
    110-115): none for [Null], which returns first; otherwise the log
    after the push. *)
Definition logEmits (c : Color) (l : Log) : list (Msg H) :=
  match c with Null => [] | _ => [MLogUpdate l] end.

(** [createGame] starts with [sendMessageToAllUsers('vanguards-placed',
    false)] (line 243). *)
Definition createGameEmits : list (Msg H) := [MVanguardsPlaced false].

(** The constructor (lines 11-20): 'test', then [createGame()]. *)
Definition initialEngineW : Engine H * list (Msg H) :=
  (initialEngine, MTest "ChessGameEngine init" :: createGameEmits).

(** 'start-game' (lines 129-135). *)
Definition onStartGameW s : Engine H * list (Msg H) :=
  let s' := onStartGame s in
  (s', [MVanguardsPlaced false; gameUpdate s'; MLogUpdate (log s')]).

(** 'quit-game' (lines 138-145). *)
Definition onQuitGameW s : Engine H * list (Msg H) :=
  let s' := onQuitGame s in (s', createGameEmits ++ [gameUpdate s'; MLogUpdate (log s')]).

(** 'reset' (lines 147-152). *)
Definition onResetW (size : Z) s : Engine H * list (Msg H) :=
  let s' := onReset size s in (s', createGameEmits ++ [gameUpdate s'; MLogUpdate (log s')]).

(** An accepted move (lines 169-213): [addLogMessage] broadcasts the
    log, then the game is broadcast. *)
Definition afterMoveW (color : Color) (p : Piece H) (to : Coordinate) (b1 : Board H) s :
    Engine H * list (Msg H) :=
  let s' := afterMove color p to b1 s in (s', logEmits (pcolor p) (log s') ++ [gameUpdate s']).

(** 'make-move' (lines 155-215): the early return and a rejected move
    send nothing, nor does a throw, which happens before any send. *)
Definition onMakeMoveW (color : Color) (from to : Coordinate) s : Outcome (Engine H) * list (Msg H) :=
  let b := board s in
  if vanguardsPending b then (Done s, [])
  else match tileAt b from with
  | None => (Thrown s, [])
  | Some t =>
      let p := piece t in
      if bool_decide (playersTurn (game s) = pcolor p) && tryMove b to p then
        match makeMove b to p with
        | (b1, Some _) => (Thrown (set_board s b1), [])
        | (b1, None) => let '(s', ms) := afterMoveW color p to b1 s in (Done s', ms)
        end
      else (Done s, [])
  end.

(** 'place-vanguard' (lines 217-239): after either branch, or neither,
    the game is broadcast, and 'vanguards-placed' with [true] when both
    counters have reached the quota. *)
Definition onPlaceVanguardW (color : Color) (pos : Coordinate) s : Outcome (Engine H) * list (Msg H) :=
  match onPlaceVanguard color pos s with
  | Thrown s' => (Thrown s', [])
  | Done s' =>
      let b := board s' in
      (Done s', gameUpdate s' ::
         (if bool_decide (vanguards b <= blackVanguards b) && bool_decide (vanguards b <= whiteVanguards b)
          then [MVanguardsPlaced true] else []))
  end.

End EngineEmits.

(** ** The handlers send, and compute what [Engine]'s handlers compute *)
Section EmitFacts.
Context {H : Type} `{!PieceCapability H}.
Implicit Types (s : Engine H) (b : Board H).

Definition logLength (l : Log) : nat := length (whiteMoves l) + length (blackMoves l).

Lemma logLength_addLogMessage msg c l : c <> Null -> logLength (addLogMessage msg c l) = S (logLength l).
Proof. unfold logLength. destruct c; [..|done]; simpl; rewrite length_app; simpl; lia. Qed.

Lemma logEmits_color c l : c <> Null -> logEmits c l = [@MLogUpdate H l].
Proof. by destruct c. Qed.

Lemma onMakeMoveW_erase color from to s : (onMakeMoveW color from to s).1 = onMakeMove color from to s.
Proof.
  unfold onMakeMoveW, onMakeMove. destruct (vanguardsPending _); [done|].
  destruct (tileAt _ _) as [t|]; [|done]. destruct (_ && _); [|done].
  by destruct (makeMove _ _ _) as [b1 [?|]].
Qed.

Lemma onPlaceVanguardW_erase color pos s : (onPlaceVanguardW color pos s).1 = onPlaceVanguard color pos s.
Proof. unfold onPlaceVanguardW. by destruct (onPlaceVanguard color pos s). Qed.

(** C11. What 'make-move' sends.  A request that is ignored, rejected or
    thrown sends nothing; one that changes the game sends exactly the
    new log and then the new game, and the log has one more line.  In
    particular no accepted move goes unannounced, since the side to move
    is a color. *)
Theorem make_move_messages color from to s o ms :
  engineInv s -> onMakeMoveW color from to s = (o, ms) ->
  (ms = [] /\ (o = Done s \/ exists s1, o = Thrown s1)) \/
  (exists s', o = Done s' /\ ms = [MLogUpdate (log s'); gameUpdate s'] /\
              logLength (log s') = S (logLength (log s))).
Proof.
  intros Hi. unfold onMakeMoveW.
  destruct (vanguardsPending _); [intros [= <- <-]; by left; eauto|].
  destruct (tileAt _ _) as [t|]; [|intros [= <- <-]; by left; eauto].
  destruct (bool_decide _ && _) eqn:Hg; [|intros [= <- <-]; by left; eauto].
  apply andb_true_iff in Hg as [Hturn%bool_decide_eq_true _].
  destruct (makeMove _ _ _) as [b1 [?|]]; [intros [= <- <-]; by left; eauto|].
  unfold afterMoveW. intros [= <- <-]. right. eexists; split; [done|].
  assert (Hc : pcolor (piece t) <> Null) by (rewrite <-Hturn; apply (inv_turn _ Hi)).
  destruct (afterMove_fields color (piece t) to b1 s) as (_ & _ & _ & _ & ->).
  by rewrite logEmits_color, logLength_addLogMessage by done.
Qed.

(** The test that ends 'place-vanguard' (lines 236-238) is the negation
    of the gate [vanguardsPending]. *)
Lemma placed_test b :
  bool_decide (vanguards b <= blackVanguards b) && bool_decide (vanguards b <= whiteVanguards b) =
  negb (vanguardsPending b).
Proof.
  unfold vanguardsPending. destruct (Nat.ltb_spec (blackVanguards b) (vanguards b)),
    (Nat.ltb_spec (whiteVanguards b) (vanguards b)); simpl;
    repeat first [rewrite bool_decide_eq_true_2 by lia | rewrite bool_decide_eq_false_2 by lia]; done.
Qed.

(** C29. Once both sides have placed their quota, every 'place-vanguard'
    that completes, from any socket and on any square, changes nothing
    and announces 'vanguards-placed' again, after the game. *)
Theorem vanguards_placed_repeated color pos s s' ms :
  vanguardsPending (board s) = false -> onPlaceVanguardW color pos s = (Done s', ms) ->
  s' = s /\ ms = [gameUpdate s; MVanguardsPlaced true].
Proof.
  intros Hp. unfold onPlaceVanguardW. destruct (onPlaceVanguard color pos s) as [s1|] eqn:E; [|done].
  intros [= <- <-]. rewrite placed_test.
  apply onPlaceVanguard_Done in E as [->|(c & t & _ & _ & _ & _ & _ & Hlt & ->)]; [by rewrite Hp|].
  exfalso. unfold vanguardsPending in Hp. apply orb_false_iff in Hp as [Hb Hw].
  apply Nat.ltb_ge in Hb, Hw. destruct (decide (c = White)); lia.
Qed.

End EmitFacts.
