(* ===== verification/GameSpec.v ===== *)
(** * GameSpec: the game as the spec describes it, and the engine's
      refinement of it

    Spec sections 4 and 8 describe the game as a state machine over a few
    observable quantities: a deployment phase in which each side places
    its quota of vanguards one at a time; then play, in which every
    accepted move passes the turn to the other side and adds one line to
    the log; a reset that starts over with a new, positive quota.
    [AState] keeps exactly these quantities and [astep] is that machine;
    it knows nothing of boards, pieces or sockets.

    [abstr] reads the abstract state off an engine.  The refinement
    theorems say that the engine implements the machine:
    [handle_refines] matches every completed event of a reachable server
    with zero or more transitions of the machine (zero for an event
    that changes nothing observable, one per listener call that
    deploys, moves or resets); [reachable_refines] follows by induction
    on [reachable].  The machine's own invariant [aInv] (counters within
    the quota, an empty log while deploying, a side to move) is proved
    on the machine alone and transferred to the engine through the
    refinement ([engine_spec_invariant]). *)

From S2P Require Import Prelude ChessData Capability CheckDetector MoveGen Setup Engine Server.

(** ** The abstract machine *)

Record AState := mkA {
  aquota : nat;     (** vanguards each side places *)
  aWhite : nat;     (** white vanguards placed *)
  aBlack : nat;     (** black vanguards placed *)
  aturn : Color;    (** the side to move *)
  alogged : nat     (** moves in the log *)
}.

(** Deployment is under way while a side is below its quota. *)
Definition deploying (a : AState) : bool := (aBlack a <? aquota a) || (aWhite a <? aquota a).

Definition deployed (c : Color) (a : AState) : nat :=
  if decide (c = White) then aWhite a else aBlack a.

(** One more vanguard of [c]. *)
Definition bump (c : Color) (a : AState) : AState :=
  mkA (aquota a) (if decide (c = White) then S (aWhite a) else aWhite a)
      (if decide (c = Black) then S (aBlack a) else aBlack a) (aturn a) (alogged a).

(** A move passes the turn and is logged. *)
Definition moved (a : AState) : AState :=
  mkA (aquota a) (aWhite a) (aBlack a) (otherColor (aturn a)) (S (alogged a)).

Definition resetTo (q : nat) : AState := mkA q 0 0 White 0.

Inductive astep : AState -> AState -> Prop :=
  | a_deploy a c : c <> Null -> deployed c a < aquota a -> astep a (bump c a)
  | a_move a : deploying a = false -> aturn a <> Null -> astep a (moved a)
  | a_reset a q : 0 < q -> astep a (resetTo q).

(** The machine at start-up: the default size 8, quota 2. *)
Definition a0 : AState := resetTo 2.

(** What the machine keeps. *)
Record aInv (a : AState) : Prop := {
  ai_quota : 0 < aquota a;
  ai_white : aWhite a <= aquota a;
  ai_black : aBlack a <= aquota a;
  ai_log : deploying a = true -> alogged a = 0;
  ai_turn : aturn a <> Null
}.

Lemma astep_inv a a' : aInv a -> astep a a' -> aInv a'.
Proof.
  intros [Hq Hw Hb Hl Ht] Hs. destruct Hs as [a c Hc Hlt|a Hd Hn|a q Hq'].
  - assert (Hdep : deploying a = true).
    { unfold deploying. apply orb_true_iff. unfold deployed in Hlt.
      destruct c; simpl in Hlt; [right|left|done]; by apply Nat.ltb_lt. }
    unfold deployed in Hlt. unfold bump; split; simpl.
    + done.
    + destruct c; simpl in *; lia.
    + destruct c; simpl in *; lia.
    + intros _. by apply Hl.
    + done.
  - unfold moved. split; simpl; try done.
    + unfold deploying in *. simpl. by rewrite Hd.
    + destruct (aturn a); done.
  - unfold resetTo. split; simpl; try done; lia.
Qed.

Lemma rtc_astep_inv a a' : rtc astep a a' -> aInv a -> aInv a'.
Proof. induction 1 as [|a1 a2 a3 Hs _ IH]; [done|]. intros Ha. by apply IH, (astep_inv a1). Qed.

(** The spec's invariant, on the machine alone. *)
Lemma spec_invariant a : rtc astep a0 a -> aInv a.
Proof. intros Hr. apply (rtc_astep_inv a0); [done|]. split; simpl; try done; lia. Qed.

(** ** The abstraction of an engine *)
Section Abstraction.
Context {H : Type} `{!PieceCapability H}.
Implicit Types (s : Engine H).

Definition abstr s : AState :=
  mkA (vanguards (board s)) (whiteVanguards (board s)) (blackVanguards (board s))
      (playersTurn (game s)) (length (whiteMoves (log s)) + length (blackMoves (log s))).

End Abstraction.

(** ** Each handler, abstracted *)
Section HandlerSteps.
Context {H : Type} `{!PieceCapability H} `{!PieceLaws H}.
Implicit Types (s : Engine H).

Lemma abstr_counters s s' :
  counters (board s') = counters (board s) ->
  aquota (abstr s') = aquota (abstr s) /\ aWhite (abstr s') = aWhite (abstr s) /\
  aBlack (abstr s') = aBlack (abstr s).
Proof. unfold counters, abstr. simpl. by intros [= -> -> ->]. Qed.

Lemma deploying_abstr s : deploying (abstr s) = vanguardsPending (board s).
Proof. done. Qed.

Lemma abstr_reset size s : abstr (onReset size s) = resetTo (quotaFor size).
Proof.
  destruct (onReset_board size s) as [Hb _]. destruct (createGame_layout size s) as (Hq & Hw & Hk & _).
  unfold abstr, resetTo. rewrite Hb, Hq, Hw, Hk.
  unfold onReset, populate, set_board, createGame. by destruct (layoutFor size).
Qed.

Lemma abstr_quit s : abstr (onQuitGame s) = resetTo 2.
Proof. exact (abstr_reset 8 (set_started false s)). Qed.

(** An accepted move: the counters stay, the turn passes, one line is
    logged, because the mover is the side to move, which is not [Null]. *)
Lemma abstr_afterMove color p to b1 s :
  counters b1 = counters (board s) -> playersTurn (game s) = pcolor p -> playersTurn (game s) <> Null ->
  abstr (afterMove color p to b1 s) = moved (abstr s).
Proof.
  intros Hc Hturn Hn. unfold moved.
  destruct (afterMove_fields color p to b1 s) as (Eb & Et & _ & _ & El).
  assert (Hc' : counters (board (afterMove color p to b1 s)) = counters (board s))
    by (rewrite Eb, counters_populate, counters_notify; done).
  destruct (abstr_counters _ _ Hc') as (Eq & Ew & Ek).
  unfold abstr in Eq, Ew, Ek |- *. cbn [aquota aWhite aBlack] in *.
  rewrite Eq, Ew, Ek, Et, El. f_equal. rewrite <-Hturn.
  destruct (playersTurn (game s)); [..|done]; simpl; rewrite length_app; simpl; lia.
Qed.

(** A deployment counts one vanguard of its color. *)
Lemma abstr_deploy c pos s : c <> Null -> abstr (deployVanguard c pos s) = bump c (abstr s).
Proof.
  intros Hc. assert (Hcnt : counters (board (deployVanguard c pos s)) =
    (vanguards (board s), if decide (c = White) then S (whiteVanguards (board s)) else whiteVanguards (board s),
     if decide (c = Black) then S (blackVanguards (board s)) else blackVanguards (board s))).
  { rewrite deployVanguard_board by done. rewrite counters_populate. done. }
  unfold counters in Hcnt. unfold abstr, bump. simplify_eq. rewrite H0, H1, H2. done.
Qed.

Lemma onMakeMove_refines color from to s s' :
  engineInv s -> onMakeMove color from to s = Done s' -> rtc astep (abstr s) (abstr s').
Proof.
  intros Hi [<-|[Hp (t & b1 & Hm & Hturn & ->)]]%onMakeMove_Done; [done|].
  assert (Hc : counters b1 = counters (board s))
    by (by rewrite <-(counters_makeMove (board s) to (piece t)), Hm).
  rewrite (abstr_afterMove _ _ _ _ _ Hc Hturn (inv_turn _ Hi)).
  apply rtc_once, a_move; [by rewrite deploying_abstr|apply (inv_turn _ Hi)].
Qed.

Lemma onPlaceVanguard_refines color pos s s' :
  onPlaceVanguard color pos s = Done s' -> rtc astep (abstr s) (abstr s').
Proof.
  intros [<-|(c & t & _ & Hc & _ & _ & _ & Hlt & ->)]%onPlaceVanguard_Done; [done|].
  rewrite abstr_deploy by done. apply rtc_once, a_deploy; [done|].
  unfold deployed, abstr. simpl. destruct c; simpl in *; done.
Qed.

End HandlerSteps.

(** ** The server refines the machine *)
Section Refinement.
Context {H : Type} `{!PieceCapability H} `{!PieceLaws H}.
Implicit Types (s e : Engine H) (sv : Server H).

Lemma listeners_refine sid h regs s s' :
  (forall col e e', engineInv e -> h col e = Done e' -> engineInv e' /\ rtc astep (abstr e) (abstr e')) ->
  engineInv s -> runListeners sid h regs s = Done s' -> rtc astep (abstr s) (abstr s').
Proof.
  intros Hh Hs Hrun.
  exact (proj2 (runListeners_preserve engineInv (fun e e' => rtc astep (abstr e) (abstr e'))
                  (fun _ => rtc_refl _ _) (fun _ _ _ => rtc_trans _ _ _) sid h regs s s' Hh Hs Hrun)).
Qed.

(** Each listener keeps the engine invariant and moves the abstract
    state by zero or more steps of the machine. *)
Lemma start_refines e : engineInv e -> engineInv (onStartGame e) /\ rtc astep (abstr e) (abstr (onStartGame e)).
Proof. intros Hi. split; [by apply inv_start|]. apply rtc_refl. Qed.

Lemma quit_refines e : engineInv (onQuitGame e) /\ rtc astep (abstr e) (abstr (onQuitGame e)).
Proof. split; [apply inv_quit|]. rewrite abstr_quit. apply rtc_once, a_reset. lia. Qed.

Lemma reset_refines size e : engineInv (onReset size e) /\ rtc astep (abstr e) (abstr (onReset size e)).
Proof. split; [apply inv_reset|]. rewrite abstr_reset. apply rtc_once, a_reset, quotaFor_pos. Qed.

Lemma makeMove_refines color from to e e' :
  engineInv e -> onMakeMove color from to e = Done e' -> engineInv e' /\ rtc astep (abstr e) (abstr e').
Proof. intros Hi Hd. split; [by eapply inv_makeMove|by eapply onMakeMove_refines]. Qed.

Lemma placeVanguard_refines color pos e e' :
  engineInv e -> onPlaceVanguard color pos e = Done e' -> engineInv e' /\ rtc astep (abstr e) (abstr e').
Proof. intros Hi Hd. split; [by eapply inv_placeVanguard|by eapply onPlaceVanguard_refines]. Qed.

Lemma handle_step_rtc sv ev sv' :
  reachable sv -> handle ev sv = Done sv' -> rtc astep (abstr (engine sv)) (abstr (engine sv')).
Proof.
  intros Hr Hstep. assert (Hi := reachable_engineInv sv Hr).
  destruct ev; simpl in Hstep; try (injection Hstep as <-; done);
    unfold withEngine in Hstep; destruct (runListeners _ _ _ _) as [e|e] eqn:Hrun; simplify_eq/=;
    (eapply listeners_refine; [|exact Hi|exact Hrun]); intros col e0 e' He Hd; simplify_eq/=;
    eauto using start_refines, quit_refines, reset_refines, makeMove_refines, placeVanguard_refines.
Qed.

Lemma abstr_initial : abstr (@initialEngine H _) = a0.
Proof.
  exact (abstr_reset 8 (mkEngine (mkBoard [[]] 0 0 0) (mkGame White Null Null false 0 false []) (mkLog [] []))).
Qed.

Lemma reachable_rtc sv : reachable sv -> rtc astep a0 (abstr (engine sv)).
Proof.
  induction 1 as [|sv ev sv' Hr IH Hstep].
  - simpl. rewrite abstr_initial. apply rtc_refl.
  - eapply rtc_trans; [exact IH|]. by apply (handle_step_rtc sv ev sv').
Qed.

(** C6. Refinement, one event: every completed event of a reachable
    server is matched, on the abstract state (quota, counters, side to
    move, number of logged moves), by zero or more transitions of the
    spec's machine: a deployment of one vanguard under the quota, a move
    after deployment that passes the turn and logs one line, or a reset
    to a positive quota. *)
Theorem handle_refines sv ev sv' :
  reachable sv -> handle ev sv = Done sv' -> rtc astep (abstr (engine sv)) (abstr (engine sv')).
Proof. apply handle_step_rtc. Qed.

(** C5. Refinement, whole runs: the abstract state of every reachable
    server is reachable in the spec's machine from its start state. *)
Theorem reachable_refines sv : reachable sv -> rtc astep a0 (abstr (engine sv)).
Proof. apply reachable_rtc. Qed.

(** C13. The spec's invariant, proved on the machine alone, holds of the
    engine through the refinement: counters within a positive quota, an
    empty log while deploying, a side to move. *)
Theorem engine_spec_invariant sv : reachable sv -> aInv (abstr (engine sv)).
Proof. intros Hr. by apply spec_invariant, reachable_rtc. Qed.

End Refinement.
