(* ===== verification/Liveness.v ===== *)
(** * Liveness: the deployment phase can always be finished

    After a 'reset' (ChessGameEngine.ts lines 147-152) no move is accepted
    until both sides have placed their quota of vanguards: 'make-move' is
    gated on [vanguardsPending] (line 171), and so is the move generator
    (lines 80-82).  This file shows that the gate is never a dead end.
    From every engine and every requested size, the requests of
    [deployPlan] (a white and a black socket, in turn, each naming one of
    its own pawns on the pawn ranks, column after column) are all
    accepted.  After them the quota of each side is reached, the gate is
    open and White is to move ([deployment_completes]); from the
    sockets, with one socket per team, the same holds of the events
    ([server_deployment_completes]).

    The argument is generic in the requests ([runDeploys_bump]).  A list
    of requests on distinct squares, each naming a pawn of the sender's
    color, with no more requests per side than the quota leaves, is
    accepted request by request.  It moves the abstract state of
    [GameSpec] by one [bump] per request.  A deployment changes only its
    own square ([pawnAt_deploy]), so the pawns named later are still in
    place when their request comes. *)

From S2P Require Import Prelude ChessData Capability CheckDetector MoveGen Setup Engine Server GameSpec.

Section Plan.
Context {H : Type} `{!PieceCapability H}.
Implicit Types (s : Engine H) (b : Board H).

(** 'place-vanguard' requests handled one after the other by the
    engine's listener; a request that throws ends the sequence there. *)
Fixpoint runDeploys (reqs : list (Color * Coordinate)) s : Outcome (Engine H) :=
  match reqs with
  | [] => Done s
  | (c, pos) :: reqs' =>
      match onPlaceVanguard c pos s with
      | Done s1 => runDeploys reqs' s1
      | Thrown s1 => Thrown s1
      end
  end.

(** Columns [0 .. q-1] of both pawn ranks of a board of side [n], White
    on row [n - 2] and Black on row [1], alternating. *)
Fixpoint planFor (q : nat) (n : Z) : list (Color * Coordinate) :=
  match q with
  | 0 => []
  | S q' => planFor q' n ++ [(White, mkCoord (n - 2) (Z.of_nat q')); (Black, mkCoord 1 (Z.of_nat q'))]
  end.

Definition deployPlan (size : Z) : list (Color * Coordinate) :=
  planFor (quotaFor size) (Z.of_nat (boardSide size)).

(** The color and type of the piece on a square, if there is a square. *)
Definition pieceInfo b (pos : Coordinate) : option (Color * PieceType) :=
  (fun p => (pcolor p, ptype p)) <$> (piece <$> tileAt b pos).

Definition pawnAt b (c : Color) (pos : Coordinate) : Prop := pieceInfo b pos = Some (c, Pawn).

(** Requests on distinct squares, each from a team naming its own pawn. *)
Definition planReady b (reqs : list (Color * Coordinate)) : bool :=
  bool_decide (NoDup (snd <$> reqs)) &&
  forallb (fun r => bool_decide (r.1 <> Null) && bool_decide (pieceInfo b r.2 = Some (r.1, Pawn))) reqs.

Definition countColor (c : Color) (reqs : list (Color * Coordinate)) : nat :=
  length (filter (fun r => r.1 = c) reqs).

End Plan.

(** ** The same from the sockets *)
Section Sockets.
Context {H : Type} `{!PieceCapability H}.
Implicit Types (sv : Server H).

(** Events delivered one after the other; a thrown one ends the run. *)
Fixpoint runEvents (evs : list Event) sv : Outcome (Server H) :=
  match evs with
  | [] => Done sv
  | ev :: evs' =>
      match handle ev sv with
      | Done sv1 => runEvents evs' sv1
      | Thrown sv1 => Thrown sv1
      end
  end.

(** The requests of a plan sent from the white socket [w] and the black
    socket [k]. *)
Definition deployEvents (w k : nat) (reqs : list (Color * Coordinate)) : list Event :=
  (fun r => EvPlaceVanguard (if decide (r.1 = White) then w else k) r.2) <$> reqs.

End Sockets.

(** ** Deployments leave the other squares alone *)
Section Completion.
Context {H : Type} `{!PieceCapability H} `{!PieceLaws H}.
Implicit Types (s : Engine H) (b : Board H).

Lemma planReady_spec b reqs :
  planReady b reqs = true ->
  NoDup (snd <$> reqs) /\ Forall (fun r => r.1 <> Null /\ pawnAt b r.1 r.2) reqs.
Proof.
  unfold planReady. intros [Hn Hf]%andb_true_iff. split; [by apply bool_decide_eq_true in Hn|].
  apply Forall_forall. intros r Hr%list_elem_of_In.
  pose proof (proj1 (forallb_forall _ _) Hf r Hr) as Hb.
  by apply andb_true_iff in Hb as [?%bool_decide_eq_true ?%bool_decide_eq_true].
Qed.

Lemma pawnAt_tile b c pos :
  pawnAt b c pos -> exists t, tileAt b pos = Some t /\ pcolor (piece t) = c /\ ptype (piece t) = Pawn.
Proof. unfold pawnAt, pieceInfo. destruct (tileAt b pos) as [t|]; simpl; [intros [= <- <-]; eauto|done]. Qed.

(** Deploying on [pos] leaves what stands on every other square. *)
Lemma pieceInfo_deploy c pos pos' s t :
  c <> Null -> pos <> pos' -> tileAt (board s) pos = Some t ->
  pieceInfo (board (deployVanguard c pos s)) pos' = pieceInfo (board s) pos'.
Proof.
  intros Hc Hne Ht. unfold pieceInfo. f_equal.
  rewrite deployVanguard_board by done. rewrite (equiv_piece_at _ _ _ (populate_equiv _)).
  apply tileAt_Some in Ht as [[Hr Hk] _].
  rewrite !tileAt_as_N. case_decide as Hnn; [|done].
  rewrite tileAtN_setTileN, decide_False; [done|].
  intros [= E1 E2]. apply Hne. destruct pos, pos'; simpl in *. f_equal; lia.
Qed.

Lemma countColor_cons c r reqs :
  countColor c (r :: reqs) = (if decide (r.1 = c) then 1 else 0) + countColor c reqs.
Proof. unfold countColor. rewrite filter_cons. by case_decide. Qed.

Lemma deployed_bump c c' a :
  c' <> Null -> deployed c' (bump c a) = deployed c' a + (if decide (c = c') then 1 else 0).
Proof. intros Hc'. unfold deployed, bump. destruct c, c'; simpl; try done; lia. Qed.


(** Deployments touch the board only: the game record, and with it the
    [started] flag, stays as it was. *)
Lemma runDeploys_game reqs s s' : runDeploys reqs s = Done s' -> game s' = game s.
Proof.
  revert s. induction reqs as [|[c pos] reqs IH]; intros s; simpl; [by intros [= <-]|].
  destruct (onPlaceVanguard c pos s) as [s1|] eqn:E; [|done]. intros Hrun. rewrite (IH s1 Hrun).
  by apply onPlaceVanguard_Done in E as [->|(? & ? & _ & _ & _ & _ & _ & _ & ->)].
Qed.

Lemma onReset_started size s : started (game (onReset size s)) = started (game s).
Proof. unfold onReset, populate, set_board, createGame. by destruct (layoutFor size). Qed.

(** A list of accepted requests moves the abstract state by one [bump]
    per request: requests on distinct squares, each naming a pawn of
    the sender's team, with no side asking for more than its quota
    leaves, are all accepted, in order. *)
Lemma runDeploys_bump reqs s :
  NoDup (snd <$> reqs) -> Forall (fun r => r.1 <> Null /\ pawnAt (board s) r.1 r.2) reqs ->
  (forall c, c <> Null -> deployed c (abstr s) + countColor c reqs <= aquota (abstr s)) ->
  exists s', runDeploys reqs s = Done s' /\ abstr s' = foldl (fun a r => bump r.1 a) (abstr s) reqs.
Proof.
  revert s. induction reqs as [|[c pos] reqs IH]; intros s Hnd Hall Hq; [by exists s|].
  rewrite fmap_cons in Hnd. apply NoDup_cons in Hnd as [Hnin Hnd].
  apply Forall_cons in Hall as [[Hc Hp] Hall]. simpl in Hc, Hp.
  destruct (pawnAt_tile _ _ _ Hp) as (t & Ht & Hcol & Hty).
  assert (Hlt : deployed c (abstr s) < aquota (abstr s)).
  { specialize (Hq c Hc). rewrite countColor_cons, decide_True in Hq by done. lia. }
  simpl. rewrite (placeVanguard_accepted c pos s t Hc Ht Hcol Hty Hlt).
  destruct (IH (deployVanguard c pos s)) as (s' & Hrun & Habs); [done| |..].
  - apply Forall_forall. intros [c' pos'] Hin. destruct (proj1 (Forall_forall _ _) Hall _ Hin) as [Hc' Hp'].
    split; [done|]. unfold pawnAt in *. cbn [fst snd] in *. rewrite (pieceInfo_deploy _ _ _ _ t); [done..| |done].
    intros ->. apply Hnin, (list_elem_of_fmap_2 snd _ (c', pos') Hin).
  - intros c' Hc'. rewrite abstr_deploy, deployed_bump by done. specialize (Hq c' Hc').
    rewrite countColor_cons in Hq. simpl in *. case_decide; lia.
  - exists s'. split; [done|]. by rewrite Habs, abstr_deploy.
Qed.

Lemma foldl_bump_fields reqs a :
  let a' := foldl (fun a r => bump r.1 a) a reqs in
  aquota a' = aquota a /\ aWhite a' = aWhite a + countColor White reqs /\
  aBlack a' = aBlack a + countColor Black reqs /\ aturn a' = aturn a.
Proof.
  revert a. induction reqs as [|r reqs IH]; intros a; simpl; [split_and!; done || lia|].
  destruct (IH (bump r.1 a)) as (Eq & Ew & Ek & Et). rewrite Eq, Ew, Ek, Et, !countColor_cons.
  unfold bump. simpl. destruct r.1; simpl; split_and!; done || lia.
Qed.

Lemma countColor_planFor c q n : c <> Null -> countColor c (planFor q n) = q.
Proof.
  intros Hc. induction q as [|q IH]; [done|]. simpl. unfold countColor in *.
  rewrite filter_app, length_app, IH, !filter_cons, filter_nil.
  destruct c; [..|done]; repeat case_decide; simplify_eq; simpl; lia.
Qed.

(** The plan names, for every size, pawns of the sender's team on
    distinct squares of the board [reset] installs. *)
Lemma plan_ready size s : planReady (board (createGame size s)) (deployPlan size) = true.
Proof.
  unfold createGame, layoutFor. repeat case_decide; subst; [vm_compute; reflexivity ..|].
  unfold deployPlan. destruct (layout_params_other size) as (-> & -> & _); [done ..|].
  vm_compute. reflexivity.
Qed.


(** Liveness of the deployment phase.  From any engine, a 'reset' to
    any size followed by the requests of [deployPlan] runs to the end
    with no request thrown.  Each side then has exactly its quota on
    the board, the gate of 'make-move' and of the move generator is
    open, and White is to move.  The [started] flag is as it was: no
    listener reads it, so none of this waits for 'start-game'. *)
Theorem deployment_completes size s :
  exists s', runDeploys (deployPlan size) (onReset size s) = Done s' /\
    vanguardsPending (board s') = false /\
    whiteVanguards (board s') = quotaFor size /\ blackVanguards (board s') = quotaFor size /\
    playersTurn (game s') = White /\ started (game s') = started (game s).
Proof.
  destruct (onReset_board size s) as [Hb _].
  pose proof (plan_ready size s) as Hr. rewrite <-Hb in Hr.
  apply planReady_spec in Hr as [Hnd Hall].
  destruct (runDeploys_bump _ _ Hnd Hall) as (s' & Hrun & Habs).
  { intros c Hc. rewrite abstr_reset. unfold deployPlan. rewrite countColor_planFor by done.
    unfold deployed. simpl. case_decide; lia. }
  exists s'. split; [done|]. rewrite abstr_reset in Habs.
  destruct (foldl_bump_fields (deployPlan size) (resetTo (quotaFor size))) as (Eq & Ew & Ek & Et).
  rewrite <-Habs in Eq, Ew, Ek, Et. unfold deployPlan in Ew, Ek.
  rewrite countColor_planFor in Ew, Ek by done. unfold abstr in *. simpl in *.
  rewrite <-deploying_abstr. unfold deploying, abstr. simpl. rewrite Eq, Ew, Ek, Nat.ltb_irrefl.
  split_and!; try done. by rewrite (runDeploys_game _ _ _ Hrun), onReset_started.
Qed.

Lemma deployPlan_colors size : Forall (fun r => r.1 <> Null) (deployPlan size).
Proof.
  unfold deployPlan. generalize (quotaFor size). intros q. induction q as [|q IH]; simpl; [done|].
  apply Forall_app. split; [done|]. repeat constructor; simpl; discriminate.
Qed.

(** Two sockets, one per team, each registered once. *)
Lemma runListeners_two w k h s :
  w <> k ->
  runListeners w h [(w, White); (k, Black)] s = h White s /\
  runListeners k h [(w, White); (k, Black)] s = h Black s.
Proof.
  intros Hwk. unfold runListeners. simpl.
  destruct (decide (w = w)); [|done]. destruct (decide (w = k)); [done|].
  destruct (decide (k = w)); [done|]. destruct (decide (k = k)); [|done].
  by split; destruct (h _ s).
Qed.

Lemma runEvents_deploys w k reqs e e' :
  w <> k -> Forall (fun r => r.1 <> Null) reqs -> runDeploys reqs e = Done e' ->
  runEvents (deployEvents w k reqs) (mkServer e [(w, White); (k, Black)]) =
    Done (mkServer e' [(w, White); (k, Black)]).
Proof.
  intros Hwk. revert e. induction reqs as [|[c pos] reqs IH]; intros e Hc Hrun; simpl in *; [by simplify_eq|].
  apply Forall_cons in Hc as [Hc Hcs]. simpl in Hc. unfold handle. simpl.
  destruct (runListeners_two w k (fun col e => onPlaceVanguard col pos e) e Hwk) as [Hw Hk].
  assert (Hsend : runListeners (if decide (c = White) then w else k)
    (fun col e => onPlaceVanguard col pos e) [(w, White); (k, Black)] e = onPlaceVanguard c pos e).
  { case_decide; subst; [apply Hw|]. destruct c; [done| |done]. apply Hk. }
  rewrite Hsend. destruct (onPlaceVanguard c pos e); simpl; [by apply IH|done].
Qed.

Lemma runEvents_reachable evs sv sv' : reachable sv -> runEvents evs sv = Done sv' -> reachable sv'.
Proof.
  revert sv. induction evs as [|ev evs IH]; intros sv Hr; simpl; [by intros [= <-]|].
  destruct (handle ev sv) eqn:E; [|done]. apply IH. by eapply reachable_step.
Qed.

(** C7. Liveness, from the sockets.  With one socket on each team, a
    'reset' from the white socket followed by the plan's requests, each
    from the socket of its team, completes with no event thrown.  The
    state it reaches has both quotas deployed, the gate open and White
    to move, and it is reachable whenever the starting state is.  The
    game's [started] flag is unchanged, so a game that was never
    started (or was quit) is deployed and opened for moves all the
    same. *)
Theorem server_deployment_completes sv w k size :
  registrations sv = [(w, White); (k, Black)] -> w <> k ->
  exists sv', runEvents (EvReset w size :: deployEvents w k (deployPlan size)) sv = Done sv' /\
    (reachable sv -> reachable sv') /\ registrations sv' = registrations sv /\
    vanguardsPending (board (engine sv')) = false /\
    whiteVanguards (board (engine sv')) = quotaFor size /\
    blackVanguards (board (engine sv')) = quotaFor size /\ playersTurn (game (engine sv')) = White /\
    started (game (engine sv')) = started (game (engine sv)).
Proof.
  intros Hregs Hwk. destruct (deployment_completes size (engine sv)) as (s' & Hrun & Hp & Hw & Hk & Ht & Hs).
  assert (Hev : runEvents (EvReset w size :: deployEvents w k (deployPlan size)) sv =
                Done (mkServer s' [(w, White); (k, Black)])).
  { simpl. unfold handle. rewrite Hregs. simpl.
    rewrite (proj1 (runListeners_two w k (fun _ e => Done (onReset size e)) (engine sv) Hwk)). simpl.
    rewrite Hregs. apply runEvents_deploys; [done|apply deployPlan_colors|done]. }
  exists (mkServer s' [(w, White); (k, Black)]). split_and!; try done.
  intros Hr. by eapply runEvents_reachable.
Qed.

End Completion.
