(* ===== verification/Lobby.v ===== *)
(** * Lobby: one lobby of [src/Lobby.ts]

    A [Lobby] object holds its code, its [users] (name and socket, in
    join order) and the [ChessGameEngine] it constructs.  The database
    handle is never used; the socket.io rooms and the messages the
    lobby sends are modelled in [Rooms.v], over the functions of this
    file.  The listeners [addUserToLobby] attaches to the socket
    ([socket.once('leave-lobby')] and the engine's
    [setupSocketConnectionsForUser]) live on the socket, not in the
    lobby; they are modelled with the lobby list in [LobbyList.v].

    The guards [if (!this.users) return] (lines 42 and 56) never fire:
    [users] is an array from the constructor on and JavaScript arrays,
    even empty ones, are truthy. *)

From S2P Require Import Prelude ChessData Capability MoveGen Setup Engine.

(** [User] of [./types] as [Lobby.ts] builds it: [{ username, socket }];
    a socket is identified by a number. *)
Record User := mkUser { username : string; userSocket : nat }.

#[export] Instance User_eq_dec : EqDecision User.
Proof. solve_decision. Defined.

Record Lobby (H : Type) := mkLobby {
  lobbyCode : string;
  users : list User;
  lobbyGame : Engine H
}.
Arguments mkLobby {H}. Arguments lobbyCode {H}. Arguments users {H}. Arguments lobbyGame {H}.

Section LobbyOps.
Context {H : Type} `{!PieceCapability H}.
Implicit Types (l : Lobby H).

(** The constructor (lines 15-24): no users, a fresh engine. *)
Definition newLobby (code : string) : Lobby H := mkLobby code [] initialEngine.

(** [lobbySize()] (lines 65-67). *)
Definition lobbySize l : nat := length (users l).

(** The [users] field of [getLobbyInfo()] (line 32). *)
Definition usernames l : list string := username <$> users l.

(** [this.users.push({ username, socket })] (line 43), the lobby's part
    of [addUserToLobby]. *)
Definition addUser (name : string) (sid : nat) l : Lobby H :=
  mkLobby (lobbyCode l) (users l ++ [mkUser name sid]) (lobbyGame l).

(** [removeUserFromLobby(username)] (lines 55-63): [find] the first user
    of the name; if there is none answer [false]; otherwise keep only
    the users of other names (every user of the name goes) and answer
    [true]. *)
Definition removeUserFromLobby (name : string) l : bool * Lobby H :=
  match list_find (fun u => username u = name) (users l) with
  | None => (false, l)
  | Some _ => (true, mkLobby (lobbyCode l) (filter (fun u => username u <> name) (users l)) (lobbyGame l))
  end.

(** The engine of a lobby, replaced. *)
Definition setLobbyGame l (e : Engine H) : Lobby H := mkLobby (lobbyCode l) (users l) e.

End LobbyOps.

(** ** Facts *)
Section LobbyFacts.
Context {H : Type} `{!PieceCapability H}.
Implicit Types (l : Lobby H).

Lemma usernames_addUser name sid l : usernames (addUser name sid l) = usernames l ++ [name].
Proof. unfold usernames, addUser. simpl. by rewrite fmap_app. Qed.

Lemma removeUserFromLobby_code name l : lobbyCode (removeUserFromLobby name l).2 = lobbyCode l.
Proof. unfold removeUserFromLobby. by destruct (list_find _ _). Qed.

Lemma removeUserFromLobby_game name l : lobbyGame (removeUserFromLobby name l).2 = lobbyGame l.
Proof. unfold removeUserFromLobby. by destruct (list_find _ _). Qed.

(** Removal, on both branches: the answer says whether a user of the
    name was there, and the lobby keeps exactly the users of other
    names, in order. *)
Lemma removeUserFromLobby_spec name l :
  (removeUserFromLobby name l).1 = bool_decide (name ∈ usernames l) /\
  users (removeUserFromLobby name l).2 = filter (fun u => username u <> name) (users l).
Proof.
  unfold removeUserFromLobby, usernames.
  destruct (list_find _ _) as [[i u]|] eqn:Ef; simpl.
  - apply list_find_Some in Ef as (Hi & <- & _). split; [|done].
    symmetry. apply bool_decide_eq_true_2, list_elem_of_fmap. exists u. split; [done|].
    by eapply list_elem_of_lookup_2.
  - apply list_find_None in Ef. split.
    + symmetry. apply bool_decide_eq_false_2. intros (u & -> & Hu)%list_elem_of_fmap.
      rewrite Forall_forall in Ef. by apply (Ef u Hu).
    + symmetry. by apply filter_all.
Qed.

Lemma removeUserFromLobby_gone name l : name ∉ usernames (removeUserFromLobby name l).2.
Proof.
  unfold usernames. rewrite (proj2 (removeUserFromLobby_spec name l)).
  intros (u & -> & Hu)%list_elem_of_fmap. by apply list_elem_of_filter in Hu as [? _].
Qed.

End LobbyFacts.

#[export] Hint Rewrite @removeUserFromLobby_code @removeUserFromLobby_game : chess_rw.
