(* ===== verification/LobbyList.v ===== *)
(** * LobbyList: the lobby list of [src/LobbyList.ts] and the socket
      handlers of [src/index.ts]

    The process holds one [LobbyList]; [index.ts] creates a lobby at
    startup (lines 13-14) and registers 'create-lobby', 'join-lobby' and
    'leave-lobby' on every connecting socket (lines 16-34).  Joining a
    lobby ([Lobby.addUserToLobby]) registers more listeners on the
    socket: [socket.once('leave-lobby')] bound to that lobby and name,
    and the engine's game listeners, each with its own [color] closure.

    A lobby object stays reachable from those listeners after the list
    drops it, so the state is a [World]: the [store] of every lobby
    object ever constructed (a lobby is its index there), [lobbies], the
    indices [this.lobbies] holds in order, the socket-held listeners
    [gameRegs] and [leaveOnce] in registration order, and [draws], the
    position in the stream of random numbers [makeId] consumes.

    [Math.floor(Math.random() * charactersLength)] is the [n]-th value
    [rnd n] of a stream fixed by the section's variable [rnd].  The
    [while] loop of [createNewLobbyCode] is bounded by [fuel] extra
    attempts; [None] is a run that is still looping when the fuel is
    spent.  [createNewLobbyCode] is [async]: its body runs to the end
    at the call (there is no [await]) and the caller receives a
    Promise, which [JsKey] keeps apart from a string. *)

From S2P Require Import Prelude ChessData Capability MoveGen Setup Engine Server Lobby.

(** A lobby code as the handlers receive it: a string, or the Promise
    [addNewLobby] returns. *)
Inductive JsKey := KStr (s : string) | KPromise (resolved : string).

(** [l.lobbyCode === key]: a string is never [===] to a Promise. *)
Definition strictEq (code : string) (k : JsKey) : bool :=
  match k with KStr s => bool_decide (code = s) | KPromise _ => false end.

Record World (H : Type) := mkWorld {
  store : list (Lobby H);
  lobbies : list nat;
  gameRegs : list (nat * nat * Color);
  leaveOnce : list (nat * nat * string);
  draws : nat
}.
Arguments mkWorld {H}. Arguments store {H}. Arguments lobbies {H}.
Arguments gameRegs {H}. Arguments leaveOnce {H}. Arguments draws {H}.

Inductive WEvent :=
  | WCreateLobby (sid : nat) (name : string)
  | WJoinLobby (sid : nat) (code name : string)
  | WLeaveLobby (sid : nat) (name : string)
  | WChooseTeam (sid : nat) (c : Color)
  | WStartGame (sid : nat)
  | WQuitGame (sid : nat)
  | WReset (sid : nat) (size : Z)
  | WMakeMove (sid : nat) (from to : Coordinate)
  | WPlaceVanguard (sid : nat) (pos : Coordinate).

(** ** Lobby codes (lines 15-39) *)

Definition characters : string := "ABCDEFGHIJKLMNOPQRSTUVWXYZ0123456789".
Definition ID_LENGTH : nat := 4.

(** [String.prototype.charAt]: the empty string out of range. *)
Definition charAt (s : string) (k : Z) : string :=
  if (k <? 0)%Z then ""
  else match String.get (Z.to_nat k) s with Some a => String a EmptyString | None => "" end.

Section Codes.
Variable rnd : nat -> Z.

(** [makeId()] reading the draws [n .. n + 3]. *)
Definition makeId (n : nat) : string :=
  fold_left (fun result i => result +:+ charAt characters (rnd (n + i))) (seq 0 ID_LENGTH) "".

(** The [while] loop of [createNewLobbyCode] (lines 21-23), from the
    candidate [code] whose draws end at [n]. *)
Fixpoint codeLoop (fuel : nat) (used : string -> bool) (n : nat) (code : string) : option (string * nat) :=
  if used code then
    match fuel with
    | 0 => None
    | S f => codeLoop f used (n + ID_LENGTH) (makeId n)
    end
  else Some (code, n).

End Codes.

Section Lists.
Context {H : Type} `{!PieceCapability H}.
Variable rnd : nat -> Z.
Implicit Types (w : World H).

Definition setStore w (st : list (Lobby H)) : World H :=
  mkWorld st (lobbies w) (gameRegs w) (leaveOnce w) (draws w).

(** [this.lobbies.filter((l) => l.lobbyCode === lobbyCode).length]
    is not zero. *)
Definition codeUsed w (c : string) : bool :=
  bool_decide (length (filter (fun id => lobbyCode <$> store w !! id = Some c) (lobbies w)) <> 0).

(** [createNewLobbyCode()] (lines 18-25): the code and the position of
    the next draw. *)
Definition createNewLobbyCode (fuel : nat) w : option (string * nat) :=
  codeLoop rnd fuel (codeUsed w) (draws w + ID_LENGTH) (makeId rnd (draws w)).

(** [addNewLobby()] (lines 46-51): the code is computed and discarded;
    the new lobby is constructed with the code ['AAAA'] and pushed; the
    Promise is returned. *)
Definition addNewLobby (fuel : nat) w : option (World H * JsKey) :=
  match createNewLobbyCode fuel w with
  | None => None
  | Some (code, n) =>
      Some (mkWorld (store w ++ [newLobby "AAAA"]) (lobbies w ++ [length (store w)])
                    (gameRegs w) (leaveOnce w) n, KPromise code)
  end.

(** [this.lobbies.find((value) => value.lobbyCode === lobbyCode)]. *)
Definition findLobby w (k : JsKey) : option nat :=
  find (fun id => match store w !! id with Some l => strictEq (lobbyCode l) k | None => false end)
       (lobbies w).

(** [Lobby.addUserToLobby(username, socket)] (Lobby.ts lines 41-53) on
    the lobby [id]: the user is pushed, [socket.once('leave-lobby')] is
    registered with the name, and [setupSocketConnectionsForUser] adds
    game listeners whose [color] starts as [Null]. *)
Definition joinLobby (id : nat) (name : string) (sid : nat) w : World H :=
  mkWorld (alter (addUser name sid) id (store w)) (lobbies w)
          (gameRegs w ++ [(sid, id, Null)]) (leaveOnce w ++ [(sid, id, name)]) (draws w).

(** [LobbyList.addUserToLobby(lobbyCode, username, socket)] (lines
    59-68): the lobby found, or [undefined] and a 'join-lobby-err'. *)
Definition addUserToLobby (k : JsKey) (name : string) (sid : nat) w : World H * option nat :=
  match findLobby w k with
  | None => (w, None)
  | Some id => (joinLobby id name sid w, Some id)
  end.

(** One call of the [filter] callback of [removeUserFromLobbies]: the
    lobby object is mutated by [removeUserFromLobby] whatever the
    verdict, and is dropped when a user went and none is left. *)
Definition removeStep (name : string) (acc : list nat * list (Lobby H)) (id : nat) :
    list nat * list (Lobby H) :=
  let '(kept, st) := acc in
  match st !! id with
  | Some l =>
      let '(wasRemoved, l') := removeUserFromLobby name l in
      (if wasRemoved && (lobbySize l' =? 0) then kept else kept ++ [id], <[id := l']> st)
  | None => (kept ++ [id], st)
  end.

(** [removeUserFromLobbies(username)] (lines 74-83). *)
Definition removeUserFromLobbies (name : string) w : World H :=
  let '(kept, st) := fold_left (removeStep name) (lobbies w) ([], store w) in
  mkWorld st kept (gameRegs w) (leaveOnce w) (draws w).

(** The [once('leave-lobby')] listeners of a socket, in registration
    order, each calling [removeUserFromLobby] with the name it was
    registered with on its own lobby object; [once] removes them. *)
Definition runLeaveOnce (sid : nat) w : World H :=
  let st := fold_left (fun st '(sid', id, name) =>
                         if decide (sid = sid') then alter (fun l => (removeUserFromLobby name l).2) id st
                         else st) (leaveOnce w) (store w) in
  mkWorld st (lobbies w) (gameRegs w) (filter (fun x => x.1.1 <> sid) (leaveOnce w)) (draws w).

(** index.ts lines 18-21: [addUserToLobby] receives the Promise. *)
Definition onCreateLobby (fuel : nat) (sid : nat) (name : string) w : option (World H) :=
  match addNewLobby fuel w with
  | None => None
  | Some (w1, k) => Some (addUserToLobby k name sid w1).1
  end.

(** index.ts lines 23-28. *)
Definition onJoinLobby (sid : nat) (code name : string) w : World H :=
  (addUserToLobby (KStr code) name sid w).1.

(** index.ts lines 30-32, then the socket's [once] listeners, which were
    registered after it. *)
Definition onLeaveLobby (sid : nat) (name : string) w : World H :=
  runLeaveOnce sid (removeUserFromLobbies name w).

(** 'choose-team': every [color] closure of the socket, in every lobby. *)
Definition onChooseTeam (sid : nat) (c : Color) w : World H :=
  mkWorld (store w) (lobbies w)
          ((fun x : nat * nat * Color => if decide (x.1.1 = sid) then (x.1.1, x.1.2, c) else x) <$> gameRegs w)
          (leaveOnce w) (draws w).

(** A game event of the socket: every game listener of the socket, in
    registration order, on the engine of its lobby; a throw ends the
    process. *)
Definition runGameListeners (sid : nat) (h : Color -> Engine H -> Outcome (Engine H)) w : Outcome (World H) :=
  fold_left (fun acc '(sid', id, col) =>
               match acc with
               | Thrown w' => Thrown w'
               | Done w' =>
                   if decide (sid = sid') then
                     match store w' !! id with
                     | Some l =>
                         match h col (lobbyGame l) with
                         | Done e => Done (setStore w' (<[id := setLobbyGame l e]> (store w')))
                         | Thrown e => Thrown (setStore w' (<[id := setLobbyGame l e]> (store w')))
                         end
                     | None => Done w'
                     end
                   else Done w'
               end) (gameRegs w) (Done w).

Definition worldStep (fuel : nat) (ev : WEvent) w : option (Outcome (World H)) :=
  match ev with
  | WCreateLobby sid name => Done <$> onCreateLobby fuel sid name w
  | WJoinLobby sid code name => Some (Done (onJoinLobby sid code name w))
  | WLeaveLobby sid name => Some (Done (onLeaveLobby sid name w))
  | WChooseTeam sid c => Some (Done (onChooseTeam sid c w))
  | WStartGame sid => Some (runGameListeners sid (fun _ e => Done (onStartGame e)) w)
  | WQuitGame sid => Some (runGameListeners sid (fun _ e => Done (onQuitGame e)) w)
  | WReset sid size => Some (runGameListeners sid (fun _ e => Done (onReset size e)) w)
  | WMakeMove sid from to => Some (runGameListeners sid (fun col e => onMakeMove col from to e) w)
  | WPlaceVanguard sid pos => Some (runGameListeners sid (fun col e => onPlaceVanguard col pos e) w)
  end.

(** The process at startup (index.ts lines 13-14): the list is empty,
    so the first candidate code is taken. *)
Definition emptyWorld : World H := mkWorld [] [] [] [] 0.

Definition initialWorld : World H := mkWorld [newLobby "AAAA"] [0] [] [] ID_LENGTH.

Inductive reachableW : World H -> Prop :=
  | reachableW_init : reachableW initialWorld
  | reachableW_step w ev fuel w' :
      reachableW w -> worldStep fuel ev w = Some (Done w') -> reachableW w'.

End Lists.

(** ** The lobby list's traversals *)
Section ListFacts.
Context {H : Type} `{!PieceCapability H}.
Implicit Types (w : World H) (st : list (Lobby H)).

(** The verdict of [removeUserFromLobbies]' callback on a lobby: dropped
    when a user of the name went and the lobby is now empty. *)
Definition dropped (name : string) (l : Lobby H) : bool :=
  (removeUserFromLobby name l).1 && (lobbySize (removeUserFromLobby name l).2 =? 0).

Definition keepAt (name : string) st (id : nat) : bool :=
  match st !! id with Some l => negb (dropped name l) | None => true end.

Definition removeAt (name : string) st (id : nat) : list (Lobby H) :=
  alter (fun l => (removeUserFromLobby name l).2) id st.

Lemma removeStep_eq name kept st id :
  removeStep name (kept, st) id =
  (if keepAt name st id then kept ++ [id] else kept, removeAt name st id).
Proof.
  unfold removeStep, keepAt, removeAt, dropped.
  destruct (st !! id) as [l|] eqn:Hl.
  - destruct (removeUserFromLobby name l) as [was l'] eqn:Er. simpl. f_equal.
    + by destruct (was && (lobbySize l' =? 0)).
    + apply list_eq. intros i. destruct (decide (i = id)) as [->|Hne].
      * rewrite list_lookup_alter_eq, Hl. simpl. rewrite Er.
        apply list_lookup_insert_eq. by eapply lookup_lt_Some.
      * rewrite list_lookup_alter_ne, list_lookup_insert_ne; done.
  - f_equal. apply list_eq. intros i. destruct (decide (i = id)) as [->|Hne].
    + by rewrite list_lookup_alter_eq, Hl.
    + by rewrite list_lookup_alter_ne.
Qed.

Lemma keepAt_removeAt name st id j : j <> id -> keepAt name (removeAt name st j) id = keepAt name st id.
Proof. intros Hne. unfold keepAt, removeAt. by rewrite list_lookup_alter_ne. Qed.

Lemma lookup_fold_removeAt name l st i :
  NoDup l ->
  fold_left (removeAt name) l st !! i =
  if decide (i ∈ l) then (fun x => (removeUserFromLobby name x).2) <$> st !! i else st !! i.
Proof.
  intros Hnd. revert st. induction Hnd as [|x l Hx Hnd IH]; intros st; cbn [fold_left].
  - by rewrite decide_False by apply not_elem_of_nil.
  - rewrite IH. unfold removeAt. destruct (decide (i = x)) as [->|Hne].
    + rewrite decide_False by done. rewrite decide_True by (by left). apply list_lookup_alter_eq.
    + rewrite list_lookup_alter_ne by done.
      destruct (decide (i ∈ l)), (decide (i ∈ x :: l)); try done; set_solver.
Qed.

(** The in-place traversal of [removeUserFromLobbies] equals the
    reference: keep the lobbies whose verdict is "keep", computed on the
    lobbies as they were, and apply the removal to every listed lobby.
    This holds because no lobby is listed twice. *)
Lemma fold_removeStep name l kept st :
  NoDup l ->
  fold_left (removeStep name) l (kept, st) =
  (kept ++ filter (fun id => keepAt name st id = true) l, fold_left (removeAt name) l st).
Proof.
  intros Hnd. revert kept st. induction Hnd as [|x l Hx Hnd IH]; intros kept st; cbn [fold_left].
  - by rewrite app_nil_r.
  - rewrite removeStep_eq, IH, filter_cons. f_equal.
    rewrite (filter_ext_in _ (fun id => keepAt name st id = true)).
    + destruct (keepAt name st x); simpl; [by rewrite <-app_assoc|done].
    + intros y Hy. rewrite keepAt_removeAt; [done|]. intros ->. contradiction.
Qed.

End ListFacts.

(** ** Removal of a user from every lobby *)
Section RemovalFacts.
Context {H : Type} `{!PieceCapability H}.
Implicit Types (w : World H) (st : list (Lobby H)).

(** C18. [removeUserFromLobbies], on a list without duplicates, keeps exactly
    the lobbies whose verdict on the lobby as it was is "keep", in
    order, and applies [removeUserFromLobby] to every listed lobby and
    to no other. *)
Theorem removeUserFromLobbies_spec name w :
  NoDup (lobbies w) ->
  lobbies (removeUserFromLobbies name w) = filter (fun id => keepAt name (store w) id = true) (lobbies w) /\
  forall i, store (removeUserFromLobbies name w) !! i =
    if decide (i ∈ lobbies w) then (fun l => (removeUserFromLobby name l).2) <$> store w !! i
    else store w !! i.
Proof.
  intros Hnd. unfold removeUserFromLobbies. rewrite fold_removeStep by done. simpl.
  split; [done|]. intros i. by apply lookup_fold_removeAt.
Qed.

Lemma removeUserFromLobbies_lobbies name w :
  NoDup (lobbies w) -> lobbies (removeUserFromLobbies name w) = filter (fun id => keepAt name (store w) id = true) (lobbies w).
Proof. intros Hnd. unfold removeUserFromLobbies. by rewrite fold_removeStep. Qed.

Lemma removeUserFromLobbies_lookup name w i :
  NoDup (lobbies w) ->
  store (removeUserFromLobbies name w) !! i =
  if decide (i ∈ lobbies w) then (fun l => (removeUserFromLobby name l).2) <$> store w !! i
  else store w !! i.
Proof. intros Hnd. unfold removeUserFromLobbies. rewrite fold_removeStep by done. by apply lookup_fold_removeAt. Qed.

(** C20. After [removeUserFromLobbies(name)] no listed lobby has a user of
    the name. *)
Theorem removeUserFromLobbies_gone name w id l :
  NoDup (lobbies w) -> id ∈ lobbies (removeUserFromLobbies name w) ->
  store (removeUserFromLobbies name w) !! id = Some l -> name ∉ usernames l.
Proof.
  intros Hnd Hin Hl. rewrite removeUserFromLobbies_lobbies, list_elem_of_filter in Hin by done.
  rewrite removeUserFromLobbies_lookup, decide_True in Hl by (done || tauto).
  destruct (store w !! id) as [l0|]; simplify_eq/=. apply removeUserFromLobby_gone.
Qed.

(** C33. A listed lobby without users is never dropped: [wasRemoved] is
    [false] for it. *)
Theorem empty_lobby_kept name w id l :
  NoDup (lobbies w) -> id ∈ lobbies w -> store w !! id = Some l -> users l = [] ->
  id ∈ lobbies (removeUserFromLobbies name w).
Proof.
  intros Hnd Hin Hl Hu. rewrite removeUserFromLobbies_lobbies, list_elem_of_filter by done.
  split; [|done]. unfold keepAt, dropped. rewrite Hl.
  destruct (removeUserFromLobby_spec name l) as [Hb _]. rewrite Hb.
  unfold usernames. rewrite Hu. by rewrite bool_decide_eq_false_2 by apply not_elem_of_nil.
Qed.

End RemovalFacts.

(** ** Well-formed worlds *)
Section WorldFacts.
Context {H : Type} `{!PieceCapability H}.
Variable rnd : nat -> Z.
Implicit Types (w : World H) (st : list (Lobby H)).

Definition outWorld (o : Outcome (World H)) : World H := match o with Done w => w | Thrown w => w end.

Lemma codes_alter (f : Lobby H -> Lobby H) id st :
  (forall l, lobbyCode (f l) = lobbyCode l) -> lobbyCode <$> alter f id st = lobbyCode <$> st.
Proof.
  intros Hf. apply list_eq. intros i. rewrite !list_lookup_fmap.
  destruct (decide (i = id)) as [->|Hne].
  - rewrite list_lookup_alter_eq. destruct (st !! id); simpl; [by rewrite Hf|done].
  - by rewrite list_lookup_alter_ne.
Qed.

Lemma codes_insert id l l' st :
  st !! id = Some l -> lobbyCode l' = lobbyCode l -> lobbyCode <$> <[id := l']> st = lobbyCode <$> st.
Proof.
  intros Hl Hc. rewrite list_fmap_insert, Hc. apply list_insert_id. by rewrite list_lookup_fmap, Hl.
Qed.

Lemma length_of_codes st st' : lobbyCode <$> st' = lobbyCode <$> st -> length st' = length st.
Proof. intros He. by rewrite <-(length_fmap lobbyCode st'), He, length_fmap. Qed.

Lemma findLobby_Some w k id :
  findLobby w k = Some id ->
  id ∈ lobbies w /\ exists l, store w !! id = Some l /\ strictEq (lobbyCode l) k = true.
Proof.
  unfold findLobby. intros [Hin Hf]%find_some. split; [by apply list_elem_of_In|].
  destruct (store w !! id) as [l|]; [by exists l|done].
Qed.

(** A Promise matches no lobby. *)
Lemma findLobby_promise w c : findLobby w (KPromise c) = None.
Proof.
  unfold findLobby. induction (lobbies w) as [|id l IH]; [done|]. simpl.
  by destruct (store w !! id).
Qed.

(** Once a listener has thrown, the traversal carries the throw. *)
Lemma fold_left_thrown {A B} (F : Outcome A -> B -> Outcome A) (l : list B) (x : A) :
  (forall b y, F (Thrown y) b = Thrown y) -> fold_left F l (Thrown x) = Thrown x.
Proof. intros HF. induction l as [|b l IH]; simpl; [done|]. by rewrite HF. Qed.

(** The game-listener traversal, on a completed run, carries any
    property its completed listener calls keep. *)
Lemma runGameListeners_preserve (P : World H -> Prop) sid h w w' :
  (forall w1 id l col e, P w1 -> store w1 !! id = Some l -> h col (lobbyGame l) = Done e ->
     P (setStore w1 (<[id := setLobbyGame l e]> (store w1)))) ->
  P w -> runGameListeners sid h w = Done w' -> P w'.
Proof.
  intros Hstep. unfold runGameListeners.
  generalize (gameRegs w) as regs. intros regs. revert w.
  induction regs as [|[[sid' id] col] regs IH]; intros w Hw; cbn [fold_left]; [by intros [= <-]|].
  try case_decide; try by apply IH.
  destruct (store w !! id) as [l|] eqn:Hl; [|by apply IH].
  destruct (h col (lobbyGame l)) as [e|e] eqn:He; [|by rewrite fold_left_thrown by (by intros [[??]?])].
  apply IH. by apply (Hstep w id l col e).
Qed.

(** The same, where each completed call is one of a registration of
    the socket. *)
Lemma runGameListeners_preserve_regs (P : World H -> Prop) sid h w w' :
  (forall w1 id l col e, P w1 -> (sid, id, col) ∈ gameRegs w -> store w1 !! id = Some l ->
     h col (lobbyGame l) = Done e -> P (setStore w1 (<[id := setLobbyGame l e]> (store w1)))) ->
  P w -> runGameListeners sid h w = Done w' -> P w'.
Proof.
  intros Hstep. unfold runGameListeners.
  set (regs0 := gameRegs w) in *. clearbody regs0.
  assert (Hin : forall x, x ∈ regs0 -> x ∈ regs0) by done. revert Hin.
  generalize regs0 at 1 3 as regs. intros regs. revert w.
  induction regs as [|[[sid' id] col] regs IH]; intros w Hin Hw; cbn [fold_left]; [by intros [= <-]|].
  assert (Htl : forall x, x ∈ regs -> x ∈ regs0) by (intros x Hx; apply Hin, elem_of_cons; by right).
  case_decide as Hs; [|by apply IH].
  destruct (store w !! id) as [l|] eqn:Hl; [|by apply IH].
  destruct (h col (lobbyGame l)) as [e|e] eqn:He; [|by rewrite fold_left_thrown by (by intros [[??]?])].
  apply IH; [done|]. subst sid'. apply (Hstep w id l col e); [done| |done|done].
  apply Hin, elem_of_cons. by left.
Qed.

End WorldFacts.

Section Invariant.
Context {H : Type} `{!PieceCapability H}.
Variable rnd : nat -> Z.
Implicit Types (w : World H) (st : list (Lobby H)).

(** The shape of every reachable world: every stored lobby has the code
    ['AAAA'], the list and the socket-held listeners refer to stored
    lobbies, and no lobby is listed twice. *)
Record wfWorld w : Prop := {
  wf_codes : Forall (fun c => c = "AAAA") (lobbyCode <$> store w);
  wf_lobbies : Forall (fun id => id < length (store w)) (lobbies w);
  wf_nodup : NoDup (lobbies w);
  wf_regs : Forall (fun x => x.1.2 < length (store w)) (gameRegs w);
  wf_once : Forall (fun x => x.1.2 < length (store w)) (leaveOnce w)
}.

Lemma wf_transfer w w' :
  lobbyCode <$> store w' = lobbyCode <$> store w ->
  Forall (fun c => c = "AAAA") (lobbyCode <$> store w) ->
  Forall (fun id => id < length (store w)) (lobbies w') -> NoDup (lobbies w') ->
  Forall (fun x => x.1.2 < length (store w)) (gameRegs w') ->
  Forall (fun x => x.1.2 < length (store w)) (leaveOnce w') -> wfWorld w'.
Proof. intros Hc. rewrite <-(length_of_codes _ _ Hc), <-Hc. by split. Qed.

Lemma codes_removeUserFromLobbies name w :
  NoDup (lobbies w) -> lobbyCode <$> store (removeUserFromLobbies name w) = lobbyCode <$> store w.
Proof.
  intros Hnd. apply list_eq. intros i. rewrite !list_lookup_fmap, removeUserFromLobbies_lookup by done.
  case_decide; [|done]. destruct (store w !! i); simpl; [by rewrite removeUserFromLobby_code|done].
Qed.

Lemma codes_runLeaveOnce sid w : lobbyCode <$> store (runLeaveOnce sid w) = lobbyCode <$> store w.
Proof.
  unfold runLeaveOnce; cbn [store]. apply (fold_left_proj (fun st => lobbyCode <$> st)).
  intros st [[sid' id] name] _. case_decide; [|done]. apply codes_alter, removeUserFromLobby_code.
Qed.

Lemma wf_addNewLobby fuel w w1 k :
  wfWorld w -> addNewLobby rnd fuel w = Some (w1, k) -> wfWorld w1.
Proof.
  intros [Hc Hl Hnd Hr Ho]. unfold addNewLobby.
  destruct (createNewLobbyCode rnd fuel w) as [[code n]|]; [intros [= <- _]|done].
  split; cbn [store lobbies gameRegs leaveOnce].
  - rewrite fmap_app. apply Forall_app. split; [done|]. by repeat constructor.
  - apply Forall_app. split.
    + eapply Forall_impl; [exact Hl|]. intros x Hx. cbv beta in Hx |- *. rewrite length_app. simpl. lia.
    + rewrite length_app. repeat constructor. simpl. lia.
  - apply NoDup_app. split_and!; [done| |apply NoDup_singleton].
    intros x Hx ->%list_elem_of_singleton. rewrite Forall_forall in Hl. specialize (Hl _ Hx). lia.
  - eapply Forall_impl; [exact Hr|]. intros x Hx. cbv beta in Hx |- *. rewrite length_app. simpl. lia.
  - eapply Forall_impl; [exact Ho|]. intros x Hx. cbv beta in Hx |- *. rewrite length_app. simpl. lia.
Qed.

Lemma onCreateLobby_eq fuel sid name w :
  onCreateLobby rnd fuel sid name w = fst <$> addNewLobby rnd fuel w.
Proof.
  unfold onCreateLobby. destruct (addNewLobby rnd fuel w) as [[w1 k]|] eqn:Ha; [|done].
  unfold addNewLobby in Ha. destruct (createNewLobbyCode rnd fuel w) as [[c n]|]; [|done].
  injection Ha as <- <-. simpl. unfold addUserToLobby. by rewrite findLobby_promise.
Qed.

Lemma wf_joinLobby k name sid w : wfWorld w -> wfWorld (addUserToLobby k name sid w).1.
Proof.
  intros Hw. unfold addUserToLobby. destruct (findLobby w k) as [id|] eqn:Hf; [|done].
  apply findLobby_Some in Hf as (Hin & l & Hl & _). destruct Hw as [Hc Hlb Hnd Hr Ho].
  assert (Hid : id < length (store w)) by (by eapply lookup_lt_Some).
  apply (wf_transfer w); cbn [store lobbies gameRegs leaveOnce]; try done.
  - by apply codes_alter.
  - apply Forall_app. split; [done|]. by repeat constructor.
  - apply Forall_app. split; [done|]. by repeat constructor.
Qed.

Lemma runLeaveOnce_lobbies sid w : lobbies (runLeaveOnce sid w) = lobbies w.
Proof. done. Qed.

Lemma runLeaveOnce_leaveOnce sid w :
  leaveOnce (runLeaveOnce sid w) = filter (fun x => x.1.1 <> sid) (leaveOnce w).
Proof. done. Qed.

Lemma removeUserFromLobbies_regs name w :
  gameRegs (removeUserFromLobbies name w) = gameRegs w /\ leaveOnce (removeUserFromLobbies name w) = leaveOnce w.
Proof. unfold removeUserFromLobbies. by destruct (fold_left _ _ _). Qed.

Lemma wf_leave sid name w : wfWorld w -> wfWorld (onLeaveLobby sid name w).
Proof.
  intros Hw. destruct Hw as [Hc Hlb Hnd Hr Ho]. unfold onLeaveLobby.
  destruct (removeUserFromLobbies_regs name w) as [Hg Hl].
  apply (wf_transfer w); try done.
  - by rewrite codes_runLeaveOnce, codes_removeUserFromLobbies.
  - rewrite runLeaveOnce_lobbies, removeUserFromLobbies_lobbies by done. by apply Forall_filter_sub.
  - rewrite runLeaveOnce_lobbies, removeUserFromLobbies_lobbies by done. by apply NoDup_filter.
  - unfold runLeaveOnce; cbn [gameRegs]. by rewrite Hg.
  - rewrite runLeaveOnce_leaveOnce, Hl. by apply Forall_filter_sub.
Qed.

Lemma wf_chooseTeam sid c w : wfWorld w -> wfWorld (onChooseTeam sid c w).
Proof.
  intros [Hc Hlb Hnd Hr Ho]. split; try done. cbn [gameRegs store]. apply Forall_fmap.
  eapply Forall_impl; [exact Hr|]. intros x Hx. simpl. by case_decide.
Qed.

Lemma wf_game sid h w w' : wfWorld w -> runGameListeners sid h w = Done w' -> wfWorld w'.
Proof.
  apply runGameListeners_preserve. intros w1 id l col e Hw Hl _.
  destruct Hw as [Hc Hlb Hnd Hr Ho]. apply (wf_transfer w1); try done.
  by apply (codes_insert id l).
Qed.

(** Every reachable world is well formed. *)
Lemma reachableW_wf w : reachableW rnd w -> wfWorld w.
Proof.
  induction 1 as [|w ev fuel w' Hr IH Hstep].
  - split; cbn; repeat constructor; simpl; try lia. apply not_elem_of_nil.
  - destruct ev; cbn [worldStep] in Hstep;
      try (injection Hstep as Hstep; by eapply wf_game).
    + rewrite onCreateLobby_eq in Hstep.
      destruct (addNewLobby rnd fuel w) as [[w1 k]|] eqn:Ha; simplify_eq/=. by eapply wf_addNewLobby.
    + injection Hstep as <-. by apply wf_joinLobby.
    + injection Hstep as <-. by apply wf_leave.
    + injection Hstep as <-. by apply wf_chooseTeam.
Qed.

End Invariant.

(** ** Any property of engines the handlers keep holds of every lobby

    The induction on [reachableW] is done once, for a predicate [P] on
    engines that a new lobby's engine has and that every completed
    listener call keeps; the engine invariant below and the refinement
    of [LobbySpec.v] are its instances. *)
Section EnginePredicate.
Context {H : Type} `{!PieceCapability H}.
Variable rnd : nat -> Z.
Variable P : Engine H -> Prop.
Hypothesis P_new : forall c, P (lobbyGame (newLobby c)).
Hypothesis P_start : forall e, P e -> P (onStartGame e).
Hypothesis P_quit : forall e, P e -> P (onQuitGame e).
Hypothesis P_reset : forall size e, P e -> P (onReset size e).
Hypothesis P_makeMove : forall col from to e e', P e -> onMakeMove col from to e = Done e' -> P e'.
Hypothesis P_placeVanguard : forall col pos e e', P e -> onPlaceVanguard col pos e = Done e' -> P e'.
Implicit Types (w : World H) (st : list (Lobby H)).

Definition lobbiesSat st : Prop := Forall (fun l => P (lobbyGame l)) st.

Lemma lobbiesSat_alter (f : Lobby H -> Lobby H) id st :
  (forall l, lobbyGame (f l) = lobbyGame l) -> lobbiesSat st -> lobbiesSat (alter f id st).
Proof. intros Hf Hst. apply Forall_alter; [done|]. intros l _ Hl. by rewrite Hf. Qed.

Lemma lobbiesSat_leave sid name w :
  NoDup (lobbies w) -> lobbiesSat (store w) -> lobbiesSat (store (onLeaveLobby sid name w)).
Proof.
  intros Hnd Hst. unfold onLeaveLobby, runLeaveOnce; cbn [store].
  apply (fold_left_preserve lobbiesSat).
  - apply Forall_lookup. intros i l Hl. rewrite removeUserFromLobbies_lookup in Hl by done.
    case_decide; [|by eapply (Forall_lookup_1 _ _ _ _ Hst)].
    destruct (store w !! i) as [l0|] eqn:Hl0; simplify_eq/=.
    rewrite removeUserFromLobby_game. by eapply (Forall_lookup_1 _ _ _ _ Hst).
  - intros st [[sid' id] nm] _ Hs. case_decide; [|done].
    apply lobbiesSat_alter; [apply removeUserFromLobby_game|done].
Qed.

Lemma lobbiesSat_game sid (h : Color -> Engine H -> Outcome (Engine H)) w w' :
  (forall col e e', P e -> h col e = Done e' -> P e') ->
  lobbiesSat (store w) -> runGameListeners sid h w = Done w' -> lobbiesSat (store w').
Proof.
  intros Hh. apply (runGameListeners_preserve (fun w => lobbiesSat (store w))).
  intros w1 id l col e Hw Hl He. cbn [store]. apply Forall_insert; [done|].
  simpl. eapply Hh; [|exact He]. by eapply (Forall_lookup_1 _ _ _ _ Hw).
Qed.

Lemma reachableW_store_preserve w : reachableW rnd w -> lobbiesSat (store w).
Proof.
  induction 1 as [|w ev fuel w' Hr IH Hstep]; [apply Forall_singleton, P_new|].
  assert (Hnd := wf_nodup _ (reachableW_wf rnd w Hr)).
  destruct ev; cbn [worldStep] in Hstep;
    try (injection Hstep as Hstep; eapply lobbiesSat_game; [|exact IH|exact Hstep];
         intros ? e e' He Hd; cbn beta in Hd; first [injection Hd as <-; by auto | by eauto]).
  - rewrite onCreateLobby_eq in Hstep. unfold addNewLobby in Hstep.
    destruct (createNewLobbyCode rnd fuel w) as [[c n]|]; simplify_eq/=.
    apply Forall_app. split; [done|]. apply Forall_singleton. exact (P_new "AAAA").
  - injection Hstep as <-. unfold onJoinLobby, addUserToLobby.
    destruct (findLobby w _); [|done]. by apply lobbiesSat_alter.
  - injection Hstep as <-. by apply lobbiesSat_leave.
  - by injection Hstep as <-.
Qed.

End EnginePredicate.

(** ** Every lobby's engine keeps the engine invariant *)
Section Engines.
Context {H : Type} `{!PieceCapability H} `{!PieceLaws H}.
Variable rnd : nat -> Z.
Implicit Types (w : World H) (st : list (Lobby H)).

Lemma engineInv_initial : engineInv (@initialEngine H _).
Proof. apply (reachable_engineInv initialServer reachable_init). Qed.

Definition enginesOk st : Prop := lobbiesSat engineInv st.

(** C16. In every reachable world the engine of every lobby object,
    listed or not, satisfies the engine invariant of [Server.v]: counters
    within the quota, caches empty and log empty while vanguards are
    pending, no taken piece, a side to move. *)
Theorem reachableW_engines w : reachableW rnd w -> enginesOk (store w).
Proof.
  apply reachableW_store_preserve.
  - intros c. apply engineInv_initial.
  - apply inv_start.
  - intros e _. apply inv_quit.
  - intros size e _. apply inv_reset.
  - intros col from to e e'. apply inv_makeMove.
  - intros col pos e e'. apply inv_placeVanguard.
Qed.

End Engines.

(** ** Lobby codes *)
Section CodeFacts.
Variable rnd : nat -> Z.

(** The [k]-th code the loop tries when it starts with [code], the next
    draws being at [n]. *)
Definition candidate (n : nat) (code : string) (k : nat) : string :=
  match k with 0 => code | S j => makeId rnd (n + j * ID_LENGTH) end.

Lemma candidate_S n code k :
  candidate n code (S k) = candidate (n + ID_LENGTH) (makeId rnd n) k.
Proof. destruct k as [|j]; simpl; [by rewrite Nat.add_0_r|]. f_equal. unfold ID_LENGTH. lia. Qed.

(** The loop answers a code only when it is unused. *)
Lemma codeLoop_sound fuel used n code c n' :
  codeLoop rnd fuel used n code = Some (c, n') -> used c = false.
Proof.
  revert n code. induction fuel as [|f IH]; intros n code; simpl;
    destruct (used code) eqn:Hu; [done| |apply IH|]; intros Hs; by simplify_eq.
Qed.

(** With fuel for [k] more attempts, the loop ends when the [k]-th
    candidate is unused. *)
Lemma codeLoop_total fuel used n code k :
  k <= fuel -> used (candidate n code k) = false ->
  exists c n', codeLoop rnd fuel used n code = Some (c, n').
Proof.
  revert fuel n code. induction k as [|k IH]; intros fuel n code Hk Hu.
  - destruct fuel; simpl in *; rewrite Hu; eauto.
  - destruct fuel as [|f]; [lia|]. simpl. destruct (used code); [|eauto].
    apply IH; [lia|]. by rewrite candidate_S in Hu.
Qed.

(** [charAt] inside [characters]: one character of it. *)
Lemma charAt_range k :
  (0 <= k < 36)%Z ->
  exists a, String.get (Z.to_nat k) characters = Some a /\ charAt characters k = String a EmptyString.
Proof.
  intros Hk. unfold charAt. destruct (Z.ltb_spec k 0); [lia|].
  assert (Hn : Z.to_nat k < 36) by lia. revert Hn. generalize (Z.to_nat k) as m. intros m Hm.
  do 36 (destruct m as [|m]; [eexists; split; reflexivity|]). lia.
Qed.

End CodeFacts.

Section ListsFacts2.
Context {H : Type} `{!PieceCapability H}.
Variable rnd : nat -> Z.
Implicit Types (w : World H).

(** In a world whose lobbies all have the code ['AAAA'], the lookup of
    a string finds the first listed lobby exactly when the string is
    ['AAAA']. *)
Lemma findLobby_wf w code :
  wfWorld w ->
  findLobby w (KStr code) = if decide (code = "AAAA") then head (lobbies w) else None.
Proof.
  intros [Hc Hl _ _ _]. unfold findLobby.
  induction (lobbies w) as [|id ids IH]; [by case_decide|].
  apply Forall_cons in Hl as [Hid Hl]. simpl.
  destruct (lookup_lt_is_Some_2 (store w) id Hid) as [l Hlk]. rewrite Hlk.
  assert (Hcode : lobbyCode l = "AAAA").
  { rewrite Forall_lookup in Hc. apply (Hc id). by rewrite list_lookup_fmap, Hlk. }
  simpl. rewrite Hcode. unfold strictEq.
  destruct (decide (code = "AAAA")) as [->|Hne].
  - by rewrite bool_decide_eq_true_2.
  - rewrite bool_decide_eq_false_2 by congruence. exact (IH Hl).
Qed.

End ListsFacts2.

(** ** What the lobby layer does *)
Section LobbyTheorems.
Context {H : Type} `{!PieceCapability H}.
Variable rnd : nat -> Z.
Implicit Types (w : World H).

(** The startup state is what [addNewLobby()] makes of the empty list:
    the first candidate code is unused, so the loop does not run. *)
Lemma initialWorld_startup :
  addNewLobby rnd 0 (@emptyWorld H) = Some (initialWorld, KPromise (makeId rnd 0)).
Proof. done. Qed.

(** C23. 'create-lobby' joins nobody: [addNewLobby] returns the Promise of
    [createNewLobbyCode], no lobby's code is [===] to it, so
    [addUserToLobby] finds no lobby and only answers 'join-lobby-err'.
    The completed handler appends a lobby coded ['AAAA'] with no users
    and registers no listener on the socket. *)
Theorem create_lobby_joins_nobody fuel sid name w w' :
  onCreateLobby rnd fuel sid name w = Some w' ->
  store w' = store w ++ [newLobby "AAAA"] /\ lobbies w' = lobbies w ++ [length (store w)] /\
  gameRegs w' = gameRegs w /\ leaveOnce w' = leaveOnce w.
Proof.
  rewrite onCreateLobby_eq. unfold addNewLobby.
  destruct (createNewLobbyCode rnd fuel w) as [[c n]|]; simpl; intros Hw; simplify_eq/=. done.
Qed.

(** C32. Every lobby ever constructed has the code ['AAAA'], whatever the
    random draws: [addNewLobby] passes the literal to the constructor. *)
Theorem lobby_codes_AAAA w : reachableW rnd w -> Forall (fun l => lobbyCode l = "AAAA") (store w).
Proof. intros Hr. assert (Hc := wf_codes _ (reachableW_wf rnd w Hr)). by apply Forall_fmap in Hc. Qed.

(** C30. 'join-lobby' in a reachable world: the code ['AAAA'] joins the
    first listed lobby (if any), any other code joins nothing. *)
Theorem join_lobby_spec w sid code name :
  reachableW rnd w ->
  onJoinLobby sid code name w =
  match lobbies w with
  | id :: _ => if decide (code = "AAAA") then joinLobby id name sid w else w
  | [] => w
  end.
Proof.
  intros Hr. unfold onJoinLobby, addUserToLobby.
  rewrite (findLobby_wf w code (reachableW_wf rnd w Hr)).
  destruct (lobbies w) as [|id ids]; case_decide; done.
Qed.

(** C19. Termination of [createNewLobbyCode]: with fuel for [k] more
    attempts, where the [k]-th candidate is unused, the loop ends, and
    the code it answers is used by no listed lobby. *)
Theorem createNewLobbyCode_total fuel w k :
  k <= fuel ->
  codeUsed w (candidate rnd (draws w + ID_LENGTH) (makeId rnd (draws w)) k) = false ->
  exists c n, createNewLobbyCode rnd fuel w = Some (c, n) /\ codeUsed w c = false.
Proof.
  intros Hk Hu. unfold createNewLobbyCode.
  destruct (codeLoop_total rnd fuel (codeUsed w) _ _ k Hk Hu) as (c & n & Hc).
  exists c, n. split; [done|]. by eapply codeLoop_sound.
Qed.

(** C38. [makeId] with draws in [0, 36) (what
    [Math.floor(Math.random() * 36)] yields) is four characters of
    [characters], the [i]-th one at the [i]-th draw. *)
Theorem makeId_spec n :
  (forall i, i < ID_LENGTH -> (0 <= rnd (n + i) < 36)%Z) ->
  exists a0 a1 a2 a3,
    makeId rnd n = String a0 (String a1 (String a2 (String a3 EmptyString))) /\
    String.get (Z.to_nat (rnd n)) characters = Some a0 /\
    String.get (Z.to_nat (rnd (n + 1))) characters = Some a1 /\
    String.get (Z.to_nat (rnd (n + 2))) characters = Some a2 /\
    String.get (Z.to_nat (rnd (n + 3))) characters = Some a3.
Proof.
  intros Hr. unfold ID_LENGTH in Hr.
  destruct (charAt_range (rnd (n + 0))) as (a0 & G0 & C0); [apply Hr; lia|].
  destruct (charAt_range (rnd (n + 1))) as (a1 & G1 & C1); [apply Hr; lia|].
  destruct (charAt_range (rnd (n + 2))) as (a2 & G2 & C2); [apply Hr; lia|].
  destruct (charAt_range (rnd (n + 3))) as (a3 & G3 & C3); [apply Hr; lia|].
  rewrite Nat.add_0_r in G0, C0. exists a0, a1, a2, a3. split_and!; try done.
  unfold makeId, ID_LENGTH. cbn [seq fold_left]. rewrite Nat.add_0_r, C0, C1, C2, C3. done.
Qed.

End LobbyTheorems.
