(* ===== verification/LobbySpec.v ===== *)
(** * LobbySpec: every lobby's game refines the spec's machine

    [GameSpec.v] shows that one server (one engine and its socket
    registrations) refines the spec's abstract machine [astep].  The
    process of [src/index.ts] runs many engines, one per lobby object,
    each driven by the game listeners [Lobby.addUserToLobby] leaves on
    the sockets that joined it, even after the list has dropped the
    lobby.  This file lifts the refinement to the process:

    - Section [StoreRelation]: for any preorder [R] on engines that the
      completed listener calls follow, every completed event of
      [LobbyList.worldStep] relates the engine of each stored lobby to
      the engine the same lobby object holds afterwards ([storeStep]);
      lobby objects are never removed from the store, and the lobby
      operations ('create-lobby', 'join-lobby', 'leave-lobby',
      'choose-team') do not touch any engine.
    - Section [LobbyRefinement]: the instance of [R] that relates two
      engines when the machine goes from the abstraction of the first to
      that of the second ([absStep]), and the reachability of each
      lobby's abstract state from the machine's start.
    - Section [Isolation]: a socket's event leaves the engines of the
      lobbies whose game listeners it does not hold as they were.
    - Section [LeaveKeepsGames]: 'leave-lobby' keeps every game listener
      and every engine, so it changes nothing that later game events do
      to the engines. *)

From S2P Require Import Prelude ChessData Capability MoveGen Setup Engine Server GameSpec Lobby LobbyList.

(** The events the engine's listeners handle ('start-game',
    'quit-game', 'reset', 'make-move', 'place-vanguard'); the others
    are the lobby events of [index.ts] and 'choose-team'. *)
Definition gameEvent (ev : WEvent) : bool :=
  match ev with
  | WStartGame _ | WQuitGame _ | WReset _ _ | WMakeMove _ _ _ | WPlaceVanguard _ _ => true
  | WCreateLobby _ _ | WJoinLobby _ _ _ | WLeaveLobby _ _ | WChooseTeam _ _ => false
  end.

#[local] Instance engine_eq_preorder {H : Type} : PreOrder (@eq (Engine H)).
Proof. split; [intros ?; done|intros ???; apply eq_trans]. Qed.

(** ** Any preorder the listener calls follow is followed by every lobby *)
Section StoreRelation.
Context {H : Type} `{!PieceCapability H} `{!PieceLaws H}.
Context (R : relation (Engine H)) `{!PreOrder R}.
Hypothesis R_start : forall e, engineInv e -> R e (onStartGame e).
Hypothesis R_quit : forall e, R e (onQuitGame e).
Hypothesis R_reset : forall size e, R e (onReset size e).
Hypothesis R_makeMove : forall col from to e e', engineInv e -> onMakeMove col from to e = Done e' -> R e e'.
Hypothesis R_placeVanguard : forall col pos e e', engineInv e -> onPlaceVanguard col pos e = Done e' -> R e e'.
Implicit Types (w : World H) (st : list (Lobby H)).

(** Every lobby object of [st] is still in [st'], at the same index,
    and its engine has moved along [R]. *)
Definition storeStep st st' : Prop :=
  forall id l, st !! id = Some l -> exists l', st' !! id = Some l' /\ R (lobbyGame l) (lobbyGame l').

Lemma storeStep_refl st : storeStep st st.
Proof. intros id l Hl. exists l. split; [done|reflexivity]. Qed.

Lemma storeStep_trans st1 st2 st3 : storeStep st1 st2 -> storeStep st2 st3 -> storeStep st1 st3.
Proof.
  intros H12 H23 id l Hl. destruct (H12 id l Hl) as (l2 & Hl2 & HR2).
  destruct (H23 id l2 Hl2) as (l3 & Hl3 & HR3). exists l3. split; [done|by etrans].
Qed.

Lemma storeStep_app st st' : storeStep st (st ++ st').
Proof. intros id l Hl. exists l. split; [by apply lookup_app_l_Some|reflexivity]. Qed.

(** An update of one lobby object that keeps its engine. *)
Lemma storeStep_alter (f : Lobby H -> Lobby H) id st :
  (forall l, lobbyGame (f l) = lobbyGame l) -> storeStep st (alter f id st).
Proof.
  intros Hf i l Hl. destruct (decide (i = id)) as [->|Hne].
  - exists (f l). rewrite list_lookup_alter_eq, Hl, Hf. split; [done|reflexivity].
  - exists l. rewrite list_lookup_alter_ne by congruence. split; [done|reflexivity].
Qed.

(** A listener's result written back into its lobby object. *)
Lemma storeStep_insert id l e st :
  st !! id = Some l -> R (lobbyGame l) e -> storeStep st (<[id := setLobbyGame l e]> st).
Proof.
  intros Hl HR i l0 Hl0. destruct (decide (i = id)) as [->|Hne].
  - rewrite Hl in Hl0. injection Hl0 as <-. exists (setLobbyGame l e).
    rewrite list_lookup_insert_eq by (by eapply lookup_lt_Some). by split.
  - exists l0. rewrite list_lookup_insert_ne by congruence. split; [done|reflexivity].
Qed.

Lemma storeStep_leave sid name w :
  NoDup (lobbies w) -> storeStep (store w) (store (onLeaveLobby sid name w)).
Proof.
  intros Hnd. unfold onLeaveLobby, runLeaveOnce; cbn [store].
  apply (fold_left_preserve (storeStep (store w))).
  - intros i l Hl. rewrite removeUserFromLobbies_lookup, Hl by done.
    case_decide; eexists; (split; [done|]); simpl; rewrite ?removeUserFromLobby_game; reflexivity.
  - intros st [[sid' id] nm] _ Hs. case_decide; [|done].
    eapply storeStep_trans; [exact Hs|]. apply storeStep_alter, removeUserFromLobby_game.
Qed.

(** The game listeners of a socket, on engines that keep the engine
    invariant: each completed call moves its lobby's engine along [R]. *)
Lemma storeStep_game sid (h : Color -> Engine H -> Outcome (Engine H)) w w' :
  (forall col e e', engineInv e -> h col e = Done e' -> engineInv e' /\ R e e') ->
  lobbiesSat engineInv (store w) -> runGameListeners sid h w = Done w' -> storeStep (store w) (store w').
Proof.
  intros Hh Hinv Hrun.
  cut (storeStep (store w) (store w') /\ lobbiesSat engineInv (store w')); [by intros []|].
  revert Hrun. apply (runGameListeners_preserve
    (fun w1 => storeStep (store w) (store w1) /\ lobbiesSat engineInv (store w1)));
    [|split; [apply storeStep_refl|done]].
  intros w1 id l col e [Hs Hi] Hl He.
  destruct (Hh col (lobbyGame l) e) as [Hie HR]; [by eapply (Forall_lookup_1 _ _ _ _ Hi)|done|].
  cbn [store]. split; [eapply storeStep_trans; [exact Hs|by apply storeStep_insert]|].
  by apply Forall_insert.
Qed.

(** The lobby events move no engine: lobby objects are appended,
    altered in their users, or left as they are. *)
Lemma lobbyEvent_storeStep rnd fuel ev w w' :
  gameEvent ev = false -> NoDup (lobbies w) ->
  worldStep rnd fuel ev w = Some (Done w') -> storeStep (store w) (store w').
Proof.
  intros Hg Hnd Hstep. destruct ev; try discriminate Hg; cbn [worldStep] in Hstep.
  - rewrite onCreateLobby_eq in Hstep. unfold addNewLobby in Hstep.
    destruct (createNewLobbyCode rnd fuel w) as [[c n]|]; simplify_eq/=. apply storeStep_app.
  - injection Hstep as <-. unfold onJoinLobby, addUserToLobby.
    destruct (findLobby w _); [|apply storeStep_refl]. by apply storeStep_alter.
  - injection Hstep as <-. by apply storeStep_leave.
  - injection Hstep as <-. apply storeStep_refl.
Qed.

Lemma worldStep_storeStep rnd fuel ev w w' :
  NoDup (lobbies w) -> lobbiesSat engineInv (store w) ->
  worldStep rnd fuel ev w = Some (Done w') -> storeStep (store w) (store w').
Proof.
  intros Hnd Hinv Hstep. destruct (gameEvent ev) eqn:Hg; [|by eapply lobbyEvent_storeStep].
  destruct ev; try discriminate Hg; cbn [worldStep] in Hstep; injection Hstep as Hstep;
    (eapply storeStep_game; [|exact Hinv|exact Hstep]);
    intros col e e' Hi Hd; cbn beta in Hd; try injection Hd as <-;
    split; eauto using inv_start, inv_quit, inv_reset, inv_makeMove, inv_placeVanguard.
Qed.

End StoreRelation.

(** ** The instance: the machine's steps on the abstraction *)
Section LobbyRefinement.
Context {H : Type} `{!PieceCapability H} `{!PieceLaws H}.
Variable rnd : nat -> Z.
Implicit Types (w : World H) (e : Engine H).

Definition absStep : relation (Engine H) := fun e e' => rtc astep (abstr e) (abstr e').

#[local] Instance absStep_preorder : PreOrder absStep.
Proof. split; [intros e; apply rtc_refl|intros e1 e2 e3; apply rtc_trans]. Qed.

(** An engine the machine accounts for: it keeps the engine invariant
    and the machine reaches its abstraction from its start state. *)
Definition specReached e : Prop := engineInv e /\ rtc astep a0 (abstr e).

Lemma specReached_of e e' : specReached e -> (engineInv e -> engineInv e' /\ absStep e e') -> specReached e'.
Proof. intros [Hi Ha] Hs. destruct (Hs Hi) as [Hi' Hs']. split; [done|by etrans]. Qed.

Lemma reachableW_specReached w : reachableW rnd w -> lobbiesSat specReached (store w).
Proof.
  apply reachableW_store_preserve.
  - intros c. unfold newLobby; cbn [lobbyGame]. split; [exact engineInv_initial|]. exact (eq_ind_r (rtc astep a0) (rtc_refl astep a0) abstr_initial).
  - intros e He. apply (specReached_of e); [done|]. exact (start_refines e).
  - intros e He. apply (specReached_of e); [done|]. intros _. exact (quit_refines e).
  - intros size e He. apply (specReached_of e); [done|]. intros _. exact (reset_refines size e).
  - intros col from to e e' He Hd. apply (specReached_of e); [done|]. intros Hi. by eapply makeMove_refines.
  - intros col pos e e' He Hd. apply (specReached_of e); [done|]. intros Hi. by eapply placeVanguard_refines.
Qed.

Lemma reachableW_lobbiesInv w : reachableW rnd w -> lobbiesSat engineInv (store w).
Proof. intros Hr. eapply Forall_impl; [exact (reachableW_specReached w Hr)|]. by intros l []. Qed.

(** C14. Refinement of the process, one event: in a reachable state,
    every completed socket event leaves each lobby object, listed or
    dropped, at its index in the store, and moves the abstract state of
    its game (quota, vanguards placed per side, side to move, moves
    logged) by zero or more transitions of the spec's machine; a lobby
    event ('create-lobby', 'join-lobby', 'leave-lobby', 'choose-team')
    leaves the game of every lobby object as it was. *)
Theorem lobby_events_refine fuel ev w w' id l :
  reachableW rnd w -> worldStep rnd fuel ev w = Some (Done w') -> store w !! id = Some l ->
  exists l', store w' !! id = Some l' /\ rtc astep (abstr (lobbyGame l)) (abstr (lobbyGame l')) /\
    (gameEvent ev = false -> lobbyGame l' = lobbyGame l).
Proof.
  intros Hr Hstep Hl. assert (Hnd := wf_nodup _ (reachableW_wf rnd w Hr)).
  destruct (gameEvent ev) eqn:Hg.
  - destruct (worldStep_storeStep absStep (fun e Hi => proj2 (start_refines e Hi))
      (fun e => proj2 (quit_refines e)) (fun size e => proj2 (reset_refines size e))
      (fun col from to e e' Hi Hd => proj2 (makeMove_refines col from to e e' Hi Hd))
      (fun col pos e e' Hi Hd => proj2 (placeVanguard_refines col pos e e' Hi Hd))
      rnd fuel ev w w' Hnd (reachableW_lobbiesInv w Hr) Hstep id l Hl) as (l' & Hl' & Hs).
    exists l'. split_and!; [done|done|discriminate].
  - destruct (lobbyEvent_storeStep eq rnd fuel ev w w' Hg Hnd Hstep id l Hl) as (l' & Hl' & He).
    exists l'. rewrite <-He. split_and!; [done|apply rtc_refl|done].
Qed.

(** C15. Refinement of the process, whole runs: in every reachable state
    the abstract state of the game of every lobby object ever
    constructed is reached by the spec's machine from its start state. *)
Theorem lobbies_refine_spec w id l :
  reachableW rnd w -> store w !! id = Some l -> rtc astep a0 (abstr (lobbyGame l)).
Proof.
  intros Hr Hl. exact (proj2 (Forall_lookup_1 _ _ _ _ (reachableW_specReached w Hr) Hl)).
Qed.

End LobbyRefinement.

(** ** Isolation of the engines

    A game event runs only the listeners the socket holds, each on the
    engine of the lobby it was registered for, so a lobby whose game
    listeners the socket does not hold keeps its engine.  The messages
    are not isolated in the same way: every lobby's broadcasts go to the
    one room 'AAAA' ([Rooms.rooms_all_AAAA]), so they reach the players
    of every lobby. *)
Section Isolation.
Context {H : Type} `{!PieceCapability H}.
Variable rnd : nat -> Z.
Implicit Types (w : World H).

(** The socket an event arrives on. *)
Definition eventSocket (ev : WEvent) : nat :=
  match ev with
  | WCreateLobby sid _ | WJoinLobby sid _ _ | WLeaveLobby sid _ | WChooseTeam sid _
  | WStartGame sid | WQuitGame sid | WReset sid _ | WMakeMove sid _ _ | WPlaceVanguard sid _ => sid
  end.

Lemma runGameListeners_other sid h w w' id :
  (forall col, (sid, id, col) ∉ gameRegs w) -> runGameListeners sid h w = Done w' -> store w' !! id = store w !! id.
Proof.
  intros Hn. apply (runGameListeners_preserve_regs (fun w1 => store w1 !! id = store w !! id)); [|done].
  intros w1 id' l col e Hw Hreg _ _. unfold setStore; cbn [store]. rewrite list_lookup_insert_ne; [done|].
  intros ->. by apply (Hn col).
Qed.

(** C24. Engine isolation: in a reachable state, a completed event leaves
    the engine of every lobby object whose game listeners the sending
    socket does not hold as it was.  The lobby events change no engine;
    a game event of the socket changes only the engines of the lobbies
    it joined, listed or dropped. *)
Theorem lobby_engine_isolated fuel ev w w' id l :
  reachableW rnd w -> worldStep rnd fuel ev w = Some (Done w') -> store w !! id = Some l ->
  (forall col, (eventSocket ev, id, col) ∉ gameRegs w) ->
  exists l', store w' !! id = Some l' /\ lobbyGame l' = lobbyGame l.
Proof.
  intros Hr Hstep Hl Hn. assert (Hnd := wf_nodup _ (reachableW_wf rnd w Hr)).
  destruct (gameEvent ev) eqn:Hg.
  - destruct ev; try discriminate Hg; cbn [worldStep eventSocket] in Hstep, Hn; injection Hstep as Hstep;
      rewrite (runGameListeners_other _ _ _ _ _ Hn Hstep); by eauto.
  - destruct (lobbyEvent_storeStep eq rnd fuel ev w w' Hg Hnd Hstep id l Hl) as (l' & ? & ?). eauto.
Qed.

End Isolation.

(** ** Leaving a lobby does not reach the games

    'leave-lobby' (index.ts lines 30-32 and the [once] listeners of
    Lobby.ts lines 47-49) removes users, never a game listener of the
    socket, and changes no engine.  Every game event that follows, from
    any socket, therefore acts on the engines as if the leave had not
    happened. *)
Section LeaveKeepsGames.
Context {H : Type} `{!PieceCapability H}.
Variable rnd : nat -> Z.
Implicit Types (w : World H).

(** The engines of the store, lobby object by lobby object. *)
Definition engines w : list (Engine H) := lobbyGame <$> store w.

Definition outEngines (o : Outcome (World H)) : Outcome (list (Engine H)) :=
  match o with Done w => Done (engines w) | Thrown w => Thrown (engines w) end.

Lemma removeUserFromLobbies_engines name w : engines (removeUserFromLobbies name w) = engines w.
Proof.
  assert (Hp : lobbyGame <$> (fold_left (removeStep name) (lobbies w) ([], store w)).2 = lobbyGame <$> store w).
  { apply (fold_left_preserve (fun acc => lobbyGame <$> acc.2 = lobbyGame <$> store w)); [done|].
    intros [kept st] id _ Hst. unfold removeStep. destruct (st !! id) as [l|] eqn:Hl; [|done].
    destruct (removeUserFromLobby name l) as [b l'] eqn:Hr. cbn [snd]. rewrite list_fmap_insert.
    assert (Hg : lobbyGame l' = lobbyGame l) by (by rewrite <-(removeUserFromLobby_game name l), Hr).
    rewrite Hg, list_insert_id; [done|]. by rewrite list_lookup_fmap, Hl. }
  unfold engines, removeUserFromLobbies. revert Hp. by destruct (fold_left _ _ _).
Qed.

Lemma runLeaveOnce_engines sid w : engines (runLeaveOnce sid w) = engines w.
Proof.
  unfold engines, runLeaveOnce; cbn [store].
  apply (fold_left_preserve (fun st => lobbyGame <$> st = lobbyGame <$> store w)); [done|].
  intros st [[sid' id] nm] _ Hst. case_decide; [|done].
  erewrite (list_fmap_alter lobbyGame _ (fun e => e)); [by rewrite list_alter_id|].
  apply Forall_forall. intros l _. apply removeUserFromLobby_game.
Qed.

Lemma onLeaveLobby_regs sid name w : gameRegs (onLeaveLobby sid name w) = gameRegs w.
Proof. unfold onLeaveLobby, runLeaveOnce, removeUserFromLobbies. cbn [gameRegs]. by destruct (fold_left _ _ _). Qed.

(** A game event depends on the registrations and the engines only. *)
Lemma runGameListeners_engines sid h w1 w2 :
  gameRegs w1 = gameRegs w2 -> engines w1 = engines w2 ->
  outEngines (runGameListeners sid h w1) = outEngines (runGameListeners sid h w2).
Proof.
  intros Hr He. unfold runGameListeners. rewrite Hr.
  assert (Ha : outEngines (Done w1) = outEngines (Done w2)) by (cbn; by rewrite He).
  revert Ha. generalize (Done w1) as a1, (Done w2) as a2. clear Hr He.
  induction (gameRegs w2) as [|[[sid' id] col] regs IH]; intros a1 a2 Ha; cbn [fold_left]; [done|].
  apply IH. destruct a1 as [x1|x1], a2 as [x2|x2]; cbn [outEngines] in Ha; try discriminate Ha;
    injection Ha as Ha; [|by cbn [outEngines]; rewrite Ha].
  case_decide; [|by cbn [outEngines]; rewrite Ha].
  assert (Hlk : lobbyGame <$> store x1 !! id = lobbyGame <$> store x2 !! id)
    by (rewrite <-!list_lookup_fmap; exact (f_equal (fun es => es !! id) Ha)).
  destruct (store x1 !! id) as [l1|], (store x2 !! id) as [l2|]; try discriminate Hlk; [|by cbn [outEngines]; rewrite Ha].
  injection Hlk as Hlk. rewrite Hlk.
  destruct (h col (lobbyGame l2)) as [e|e]; cbn [outEngines]; unfold engines, setStore; cbn [store];
    rewrite !list_fmap_insert; unfold engines in Ha; by rewrite Ha.
Qed.

(** C25. Leaving a lobby does not reach the games: a completed
    'leave-lobby', from any socket and with any name, keeps every game
    listener registered and the engine of every lobby object as it was,
    so every later game event of any socket changes the engines exactly
    as it would have without the leave.  A player who left keeps playing
    in the lobby's game. *)
Theorem leave_lobby_keeps_games fuel sid name w w' fuel' ev :
  worldStep rnd fuel (WLeaveLobby sid name) w = Some (Done w') -> gameEvent ev = true ->
  gameRegs w' = gameRegs w /\ engines w' = engines w /\
  outEngines <$> worldStep rnd fuel' ev w' = outEngines <$> worldStep rnd fuel' ev w.
Proof.
  intros Hstep Hg. injection Hstep as <-.
  assert (Hr := onLeaveLobby_regs sid name w).
  assert (He : engines (onLeaveLobby sid name w) = engines w)
    by (unfold onLeaveLobby; by rewrite runLeaveOnce_engines, removeUserFromLobbies_engines).
  split_and!; [done|done|].
  destruct ev; try discriminate Hg; cbn [worldStep]; cbn [fmap option_fmap option_map];
    f_equal; by apply runGameListeners_engines.
Qed.

End LeaveKeepsGames.
