(* ===== verification/Rooms.v ===== *)
(** * Rooms: socket.io rooms and the messages the process sends

    A lobby broadcasts with [this.io.to(this.lobbyCode).emit(command,
    message)] (Lobby.ts lines 75-80): every socket in the room named by
    the lobby's code receives it.  A socket enters that room in
    [Lobby.addUserToLobby] ([socket.join], line 44) and leaves it in
    [removeUserFromLobby] ([user.socket.leave], line 59).  The engine of
    a lobby sends through the same function (it is the callback its
    constructor receives, Lobby.ts line 20).  Besides, [io.emit] (line
    22) reaches every connected socket, and [socket.emit] one socket.

    [Net] is that side of the process: the room memberships and the
    list of messages sent so far, each with its recipients, the members
    of the room resolved when it is sent.  Every handler of [LobbyList]
    is given here with its network part ([...N]); its [World] part is
    the function of [LobbyList], so [worldStepN_erase] holds by
    construction and by the erasure lemmas of [Emits]. *)

From S2P Require Import Prelude ChessData Capability MoveGen Setup Engine Server Emits Lobby LobbyList.

(** Who a message is sent to. *)
Inductive Target :=
  | ToSocket (sid : nat)                        (** [socket.emit] *)
  | ToRoom (room : string) (members : list nat) (** [io.to(room).emit], the room's sockets then *)
  | ToAll.                                      (** [io.emit] *)

Record Net (H : Type) := mkNet { rooms : list (nat * string); sent : list (Target * Msg H) }.
Arguments mkNet {H}. Arguments rooms {H}. Arguments sent {H}.

Section Network.
Context {H : Type} `{!PieceCapability H}.
Implicit Types (n : Net H) (w : World H) (l : Lobby H).

(** [socket.join(room)]: a socket is in a room at most once. *)
Definition socketJoin (sid : nat) (room : string) n : Net H :=
  if decide ((sid, room) ∈ rooms n) then n else mkNet (rooms n ++ [(sid, room)]) (sent n).

(** [socket.leave(room)]. *)
Definition socketLeave (sid : nat) (room : string) n : Net H :=
  mkNet (filter (fun x => x <> (sid, room)) (rooms n)) (sent n).

Definition roomMembers (room : string) n : list nat := fst <$> filter (fun x => x.2 = room) (rooms n).

Definition socketEmit (sid : nat) (m : Msg H) n : Net H := mkNet (rooms n) (sent n ++ [(ToSocket sid, m)]).

Definition ioEmit (m : Msg H) n : Net H := mkNet (rooms n) (sent n ++ [(ToAll, m)]).

Definition ioToEmit (room : string) (m : Msg H) n : Net H :=
  mkNet (rooms n) (sent n ++ [(ToRoom room (roomMembers room n), m)]).

(** [Lobby.sendMessageToAllUsers(command, message)] (lines 75-80), once
    per message: [this.io] is the server, which is truthy. *)
Definition sendMessageToAllUsers (code : string) (ms : list (Msg H)) n : Net H :=
  fold_left (fun n m => ioToEmit code m n) ms n.

(** [getLobbyInfo()] (lines 29-35). *)
Definition getLobbyInfo l : LobbyInfo H :=
  mkInfo (lobbyCode l) (usernames l) (getGameInfo (lobbyGame l)).

(** The constructor of [Lobby] (lines 15-24): the engine's constructor
    sends its messages through the new lobby, then [io.emit('test',
    'hello world')]. *)
Definition newLobbyN (code : string) n : Net H :=
  ioEmit (MTest "hello world") (sendMessageToAllUsers code initialEngineW.2 n).

(** [Lobby.addUserToLobby(username, socket)] (lines 41-53): join the
    room, 'joined-lobby' to the socket, 'lobby-updated' to the room,
    then [setupSocketConnectionsForUser] sends 'make-game' to the
    socket (ChessGameEngine.ts line 121). *)
Definition addUserN (name : string) (sid : nat) l n : Net H :=
  let l' := addUser name sid l in
  let n1 := socketJoin sid (lobbyCode l') n in
  let n2 := socketEmit sid (MJoinedLobby (getLobbyInfo l')) n1 in
  let n3 := sendMessageToAllUsers (lobbyCode l') [MLobbyUpdated (getLobbyInfo l')] n2 in
  socketEmit sid (MMakeGame (game (lobbyGame l')) (board (lobbyGame l'))) n3.

(** [removeUserFromLobby(username)] (lines 55-63): the socket of the
    first user of the name leaves the room, and the lobby, without the
    users of that name, is broadcast. *)
Definition removeUserFromLobbyN (name : string) l n : Net H :=
  match list_find (fun u => username u = name) (users l) with
  | None => n
  | Some (_, u) =>
      sendMessageToAllUsers (lobbyCode l) [MLobbyUpdated (getLobbyInfo (removeUserFromLobby name l).2)]
        (socketLeave (userSocket u) (lobbyCode l) n)
  end.

(** One lobby of [st] loses the users of [name]: the store as the code
    leaves it, and the messages. *)
Definition removeAtN (name : string) (acc : list (Lobby H) * Net H) (id : nat) : list (Lobby H) * Net H :=
  let '(st, n) := acc in
  match st !! id with
  | Some l => (<[id := (removeUserFromLobby name l).2]> st, removeUserFromLobbyN name l n)
  | None => (st, n)
  end.

(** [removeUserFromLobbies(username)] (LobbyList.ts lines 74-83): the
    callback runs on every listed lobby, in order. *)
Definition removeUserFromLobbiesN (name : string) w n : Net H :=
  (fold_left (removeAtN name) (lobbies w) (store w, n)).2.

(** The socket's [once('leave-lobby')] listeners, in order. *)
Definition runLeaveOnceN (sid : nat) w n : Net H :=
  (fold_left (fun acc '(sid', id, name) => if decide (sid = sid') then removeAtN name acc id else acc)
             (leaveOnce w) (store w, n)).2.

(** [LobbyList.addUserToLobby(lobbyCode, username, socket)] (lines
    59-68): 'join-lobby-err' to the socket when no lobby has the code. *)
Definition addUserToLobbyN (k : JsKey) (name : string) (sid : nat) w n : World H * Net H :=
  match findLobby w k with
  | None => (w, socketEmit sid (MJoinLobbyErr "Lobby Not Found!") n)
  | Some id =>
      (joinLobby id name sid w, match store w !! id with Some l => addUserN name sid l n | None => n end)
  end.

(** The listeners of a game event on one socket, each sending the
    messages of its handler to the room of its lobby. *)
Definition runGameListenersN (sid : nat) (h : Color -> Engine H -> Outcome (Engine H) * list (Msg H))
    w n : Outcome (World H * Net H) :=
  fold_left (fun acc '(sid', id, col) =>
               match acc with
               | Thrown p => Thrown p
               | Done (w', n') =>
                   if decide (sid = sid') then
                     match store w' !! id with
                     | Some l =>
                         let '(o, ms) := h col (lobbyGame l) in
                         let n'' := sendMessageToAllUsers (lobbyCode l) ms n' in
                         match o with
                         | Done e => Done (setStore w' (<[id := setLobbyGame l e]> (store w')), n'')
                         | Thrown e => Thrown (setStore w' (<[id := setLobbyGame l e]> (store w')), n'')
                         end
                     | None => Done (w', n')
                     end
                   else Done (w', n')
               end) (gameRegs w) (Done (w, n)).

End Network.

Section Process.
Context {H : Type} `{!PieceCapability H}.
Variable rnd : nat -> Z.
Implicit Types (n : Net H) (w : World H).

(** index.ts lines 18-21, with [addNewLobby]'s new lobby. *)
Definition onCreateLobbyN (fuel : nat) (sid : nat) (name : string) w n : option (World H * Net H) :=
  match addNewLobby rnd fuel w with
  | None => None
  | Some (w1, k) => Some (addUserToLobbyN k name sid w1 (newLobbyN "AAAA" n))
  end.

(** index.ts lines 30-32, then the socket's [once] listeners. *)
Definition onLeaveLobbyN (sid : nat) (name : string) w n : World H * Net H :=
  let w1 := removeUserFromLobbies name w in
  (runLeaveOnce sid w1, runLeaveOnceN sid w1 (removeUserFromLobbiesN name w n)).

Definition worldStepN (fuel : nat) (ev : WEvent) w n : option (Outcome (World H * Net H)) :=
  match ev with
  | WCreateLobby sid name => Done <$> onCreateLobbyN fuel sid name w n
  | WJoinLobby sid code name => Some (Done (addUserToLobbyN (KStr code) name sid w n))
  | WLeaveLobby sid name => Some (Done (onLeaveLobbyN sid name w n))
  | WChooseTeam sid c => Some (Done (onChooseTeam sid c w, n))
  | WStartGame sid => Some (runGameListenersN sid (fun _ e => let '(e', ms) := onStartGameW e in (Done e', ms)) w n)
  | WQuitGame sid => Some (runGameListenersN sid (fun _ e => let '(e', ms) := onQuitGameW e in (Done e', ms)) w n)
  | WReset sid size => Some (runGameListenersN sid (fun _ e => let '(e', ms) := onResetW size e in (Done e', ms)) w n)
  | WMakeMove sid from to => Some (runGameListenersN sid (fun col e => onMakeMoveW col from to e) w n)
  | WPlaceVanguard sid pos => Some (runGameListenersN sid (fun col e => onPlaceVanguardW col pos e) w n)
  end.

(** The process at startup (index.ts lines 12-14): no socket yet. *)
Definition initialNet : Net H := newLobbyN "AAAA" (mkNet [] []).

Inductive reachableN : World H -> Net H -> Prop :=
  | reachableN_init : reachableN (initialWorld) initialNet
  | reachableN_step w n ev fuel w' n' :
      reachableN w n -> worldStepN fuel ev w n = Some (Done (w', n')) -> reachableN w' n'.

End Process.

(** ** The network part changes nothing else *)
Section Erasure.
Context {H : Type} `{!PieceCapability H}.
Variable rnd : nat -> Z.
Implicit Types (n : Net H) (w : World H).

Definition outFst {A B} (o : Outcome (A * B)) : Outcome A :=
  match o with Done p => Done p.1 | Thrown p => Thrown p.1 end.

Lemma runGameListenersN_erase sid (hW : Color -> Engine H -> Outcome (Engine H) * list (Msg H))
    (h : Color -> Engine H -> Outcome (Engine H)) w n :
  (forall col e, (hW col e).1 = h col e) ->
  outFst (runGameListenersN sid hW w n) = runGameListeners sid h w.
Proof.
  intros Hh. unfold runGameListenersN, runGameListeners.
  assert (Hacc : outFst (Done (w, n)) = Done w) by done. revert Hacc.
  generalize (@Done (World H * Net H) (w, n)) as aN, (@Done (World H) w) as a.
  induction (gameRegs w) as [|[[sid' id] col] regs IH]; intros aN a Hacc; simpl; [done|].
  apply IH. destruct aN as [[w' n']|[w' n']]; simpl in Hacc; subst a; [|done].
  case_decide; [|done]. destruct (store w' !! id) as [l|]; [|done].
  rewrite <-(Hh col (lobbyGame l)). destruct (hW col (lobbyGame l)) as [[e|e] ms]; done.
Qed.

(** The process with its network part computes the lobbies, listeners
    and engines of [worldStep]. *)
Lemma worldStepN_erase fuel ev w n :
  outFst <$> worldStepN rnd fuel ev w n = worldStep rnd fuel ev w.
Proof.
  destruct ev; simpl.
  - unfold onCreateLobbyN, onCreateLobby. destruct (addNewLobby rnd fuel w) as [[w1 k]|]; [|done].
    simpl. unfold addUserToLobbyN, addUserToLobby. by destruct (findLobby w1 k).
  - unfold onJoinLobby, addUserToLobbyN, addUserToLobby. by destruct (findLobby w (KStr code)).
  - done.
  - done.
  - f_equal. by apply runGameListenersN_erase.
  - f_equal. by apply runGameListenersN_erase.
  - f_equal. by apply runGameListenersN_erase.
  - f_equal. apply runGameListenersN_erase. intros. apply onMakeMoveW_erase.
  - f_equal. apply runGameListenersN_erase. intros. apply onPlaceVanguardW_erase.
Qed.

Lemma reachableN_reachableW w n : reachableN rnd w n -> reachableW rnd w.
Proof.
  induction 1 as [|w n ev fuel w' n' Hr IH Hstep]; [constructor|].
  apply (reachableW_step rnd w ev fuel w' IH).
  rewrite <-(worldStepN_erase fuel ev w n), Hstep. done.
Qed.

End Erasure.

(** ** Every room is the room 'AAAA' *)
Section RoomInvariant.
Context {H : Type} `{!PieceCapability H}.
Variable rnd : nat -> Z.
Implicit Types (n : Net H) (w : World H) (l : Lobby H) (st : list (Lobby H)).

(** A message sent to a room is sent to the room [c]. *)
Definition toRoomOf (c : string) (e : Target * Msg H) : Prop :=
  match e.1 with ToRoom r _ => r = c | _ => True end.

Record roomsOk (c : string) n : Prop := {
  ro_rooms : Forall (fun x => x.2 = c) (rooms n);
  ro_sent : Forall (toRoomOf c) (sent n)
}.

Lemma roomsOk_send c n e : roomsOk c n -> toRoomOf c e -> roomsOk c (mkNet (rooms n) (sent n ++ [e])).
Proof. intros [Hr Hs] He. split; [done|]. apply Forall_app. by split; [|constructor]. Qed.

Lemma socketJoin_ok c sid n : roomsOk c n -> roomsOk c (socketJoin sid c n).
Proof.
  intros [Hr Hs]. unfold socketJoin. case_decide; [by split|].
  split; [|done]. apply Forall_app. by split; [|constructor].
Qed.

Lemma socketLeave_ok c sid r n : roomsOk c n -> roomsOk c (socketLeave sid r n).
Proof.
  intros [Hr Hs]. unfold socketLeave. split; [|done]. simpl.
  first [done | apply Forall_forall; intros x Hx%list_elem_of_filter;
                exact (proj1 (Forall_forall _ _) Hr x (proj2 Hx))].
Qed.

Lemma socketEmit_ok c sid m n : roomsOk c n -> roomsOk c (socketEmit sid m n).
Proof. intros Hn. by apply roomsOk_send. Qed.

Lemma ioEmit_ok c m n : roomsOk c n -> roomsOk c (ioEmit m n).
Proof. intros Hn. by apply roomsOk_send. Qed.

Lemma sendMessageToAllUsers_ok c ms n : roomsOk c n -> roomsOk c (sendMessageToAllUsers c ms n).
Proof.
  unfold sendMessageToAllUsers. revert n. induction ms as [|m ms IH]; intros n Hn; simpl; [done|].
  apply IH. by apply roomsOk_send.
Qed.

Create HintDb rooms.
#[local] Hint Resolve socketJoin_ok socketLeave_ok socketEmit_ok ioEmit_ok sendMessageToAllUsers_ok : rooms.

Lemma newLobbyN_ok c n : roomsOk c n -> roomsOk c (newLobbyN c n).
Proof. unfold newLobbyN. auto with rooms. Qed.

Lemma addUserN_ok c name sid l n : lobbyCode l = c -> roomsOk c n -> roomsOk c (addUserN name sid l n).
Proof. intros Hc Hn. unfold addUserN, addUser. cbn [lobbyCode]. rewrite Hc. auto with rooms. Qed.

Lemma removeUserFromLobbyN_ok c name l n : lobbyCode l = c -> roomsOk c n -> roomsOk c (removeUserFromLobbyN name l n).
Proof.
  intros Hc Hn. unfold removeUserFromLobbyN. destruct (list_find _ _) as [[i u]|]; [|done].
  rewrite Hc. auto with rooms.
Qed.

(** One step of the removal keeps the codes of the store and the rooms. *)
Lemma removeAtN_ok c name acc id :
  Forall (fun l => lobbyCode l = c) acc.1 -> roomsOk c acc.2 ->
  Forall (fun l => lobbyCode l = c) (removeAtN name acc id).1 /\ roomsOk c (removeAtN name acc id).2.
Proof.
  destruct acc as [st n]; simpl. intros Hst Hn. destruct (st !! id) as [l|] eqn:E; [|done].
  assert (Hl : lobbyCode l = c) by exact (Forall_lookup_1 _ _ _ _ Hst E).
  split; [apply Forall_insert; [done|by rewrite removeUserFromLobby_code]|].
  by apply removeUserFromLobbyN_ok.
Qed.

Lemma fold_removeAtN_ok c name ids acc :
  Forall (fun l => lobbyCode l = c) acc.1 -> roomsOk c acc.2 ->
  Forall (fun l => lobbyCode l = c) (fold_left (removeAtN name) ids acc).1 /\
  roomsOk c (fold_left (removeAtN name) ids acc).2.
Proof.
  revert acc. induction ids as [|id ids IH]; intros acc Hst Hn; [done|]. simpl.
  destruct (removeAtN_ok c name acc id Hst Hn). by apply IH.
Qed.

Lemma fold_leaveOnceN_ok c (sid : nat) (regs : list (nat * nat * string)) acc :
  Forall (fun l => lobbyCode l = c) acc.1 -> roomsOk c acc.2 ->
  roomsOk c (fold_left (fun acc '(sid', id, name) => if decide (sid = sid') then removeAtN name acc id else acc)
                       regs acc).2.
Proof.
  revert acc. induction regs as [|[[sid' id] name] regs IH]; intros acc Hst Hn; [done|]. simpl.
  case_decide; [|by apply IH]. destruct (removeAtN_ok c name acc id Hst Hn). by apply IH.
Qed.

(** The state a listener traversal ends in, thrown or not. *)
Definition outNet {A} (o : Outcome (A * Net H)) : Net H := match o with Done p => p.2 | Thrown p => p.2 end.

Lemma runGameListenersN_ok c sid h w n :
  Forall (fun l => lobbyCode l = c) (store w) -> roomsOk c n -> roomsOk c (outNet (runGameListenersN sid h w n)).
Proof.
  intros Hst Hn. unfold runGameListenersN.
  assert (Hacc : match @Done (World H * Net H) (w, n) with
                 | Done (w', n') => Forall (fun l => lobbyCode l = c) (store w') /\ roomsOk c n'
                 | Thrown (_, n') => roomsOk c n' end) by done.
  revert Hacc. generalize (@Done (World H * Net H) (w, n)) as acc.
  induction (gameRegs w) as [|[[sid' id] col] regs IH]; intros acc Hacc.
  { simpl. by destruct acc as [[w' n']|[w' n']]; [apply Hacc|]. }
  simpl. apply IH. destruct acc as [[w' n']|[w' n']]; [|done]. destruct Hacc as [Hst' Hn'].
  case_decide; [|done]. destruct (store w' !! id) as [l|] eqn:E; [|done].
  assert (Hl : lobbyCode l = c) by exact (Forall_lookup_1 _ _ _ _ Hst' E).
  destruct (h col (lobbyGame l)) as [[e|e] ms]; rewrite Hl; [split|]; auto with rooms.
  simpl. apply Forall_insert; [done|]. done.
Qed.

Lemma codes_of_wf w : wfWorld w -> Forall (fun l => lobbyCode l = "AAAA") (store w).
Proof. intros Hw. apply (Forall_fmap lobbyCode (fun c => c = "AAAA")), (wf_codes _ Hw). Qed.

Lemma addUserToLobbyN_ok k name sid w n :
  wfWorld w -> roomsOk "AAAA" n -> roomsOk "AAAA" (addUserToLobbyN k name sid w n).2.
Proof.
  intros Hw Hn. unfold addUserToLobbyN. destruct (findLobby w k) as [id|]; simpl; [|auto with rooms].
  destruct (store w !! id) as [l|] eqn:E; [|done].
  apply addUserN_ok; [exact (Forall_lookup_1 _ _ _ _ (codes_of_wf w Hw) E)|done].
Qed.

Lemma worldStepN_rooms fuel ev w n o :
  wfWorld w -> roomsOk "AAAA" n -> worldStepN rnd fuel ev w n = Some o -> roomsOk "AAAA" (outNet o).
Proof.
  intros Hw Hn. destruct ev; simpl;
    try (intros [= <-]; by apply runGameListenersN_ok; [apply codes_of_wf|]).
  - unfold onCreateLobbyN. destruct (addNewLobby rnd fuel w) as [[w1 k]|] eqn:Ha; [|done].
    intros [= <-]. simpl. apply addUserToLobbyN_ok; [by eapply wf_addNewLobby|]. by apply newLobbyN_ok.
  - intros [= <-]. by apply addUserToLobbyN_ok.
  - intros [= <-]. simpl. unfold runLeaveOnceN, removeUserFromLobbiesN.
    destruct (fold_removeAtN_ok "AAAA" name (lobbies w) (store w, n) (codes_of_wf w Hw) Hn) as [_ Hn1].
    apply fold_leaveOnceN_ok; [|done]. simpl.
    apply (Forall_fmap lobbyCode (fun c => c = "AAAA")).
    rewrite codes_removeUserFromLobbies by apply (wf_nodup _ Hw). apply (wf_codes _ Hw).
  - by intros [= <-].
Qed.

(** C17. One audience for every lobby.  In every reachable state of the
    process, every socket.io room a socket is in is the room 'AAAA',
    and every message a lobby or the engine of a lobby has broadcast
    went to the room 'AAAA': all lobbies carry the code 'AAAA', so
    [io.to(this.lobbyCode)] names the same room for each of them. *)
Theorem rooms_all_AAAA w n : reachableN rnd w n -> roomsOk "AAAA" n.
Proof.
  induction 1 as [|w n ev fuel w' n' Hr IH Hstep].
  - apply newLobbyN_ok. by split.
  - exact (worldStepN_rooms fuel ev w n _ (reachableW_wf rnd w (reachableN_reachableW rnd w n Hr)) IH Hstep).
Qed.

End RoomInvariant.

(** ** What joining sends *)
Section JoinMessages.
Context {H : Type} `{!PieceCapability H}.
Variable rnd : nat -> Z.
Implicit Types (n : Net H) (w : World H) (l : Lobby H).

Lemma socketJoin_sent sid r n : sent (socketJoin sid r n) = sent n.
Proof. unfold socketJoin. by case_decide. Qed.

Lemma socketJoin_members sid r x n : x ∈ roomMembers r (socketJoin sid r n) <-> x = sid \/ x ∈ roomMembers r n.
Proof.
  unfold socketJoin, roomMembers. case_decide as Hin.
  - split; [by right|]. intros [->|?]; [|done]. apply list_elem_of_fmap.
    exists (sid, r). split; [done|]. by apply list_elem_of_filter.
  - simpl. rewrite filter_app, fmap_app, elem_of_app. simpl.
    rewrite filter_cons_True by done. simpl. set_solver.
Qed.

Lemma socketJoin_rooms sid r n : (sid, r) ∈ rooms (socketJoin sid r n).
Proof. unfold socketJoin. case_decide; [done|]. simpl. set_solver. Qed.

(** C31. 'join-lobby' with the code 'AAAA' in a reachable state, when the
    list is not empty.  The socket joins the room 'AAAA'.  It is sent
    'joined-lobby' with the first listed lobby, user added.  That
    lobby is then broadcast to the room, which holds the joining socket
    and every socket already there, whatever lobby it joined.  Last the
    socket is sent 'make-game' with that lobby's game. *)
Theorem join_lobby_messages w n sid name id ids l :
  reachableN rnd w n -> lobbies w = id :: ids -> store w !! id = Some l ->
  let '(w', n') := addUserToLobbyN (KStr "AAAA") name sid w n in
  let info := getLobbyInfo (addUser name sid l) in
  w' = joinLobby id name sid w /\ (sid, "AAAA") ∈ rooms n' /\
  exists ms, sent n' = sent n ++ [(ToSocket sid, MJoinedLobby info); (ToRoom "AAAA" ms, MLobbyUpdated info);
                                  (ToSocket sid, MMakeGame (game (lobbyGame l)) (board (lobbyGame l)))] /\
             sid ∈ ms /\ (forall x, x ∈ roomMembers "AAAA" n -> x ∈ ms).
Proof.
  intros Hr Hl Hid. assert (Hw := reachableW_wf rnd w (reachableN_reachableW rnd w n Hr)).
  assert (Hc : lobbyCode l = "AAAA") by exact (Forall_lookup_1 _ _ _ _ (codes_of_wf w Hw) Hid).
  unfold addUserToLobbyN. rewrite (findLobby_wf w "AAAA" Hw), decide_True, Hl by done. simpl.
  rewrite Hid. unfold addUserN, addUser. cbn [lobbyCode lobbyGame]. rewrite Hc.
  split; [done|]. split; [apply socketJoin_rooms|].
  eexists. split; [simpl; rewrite socketJoin_sent, <-!app_assoc; reflexivity|].
  split; [apply socketJoin_members; by left|]. intros x Hx. apply socketJoin_members. by right.
Qed.

End JoinMessages.
