(* ===== verification/Scenarios.v ===== *)
(** * Scenarios: a piece module and concrete games

    The repository does not contain [./piece]; to run the engine's model
    on concrete positions we give a small piece module, [SamplePieces],
    that implements the capability with ordinary chess moves (king and
    vanguard one step, rook/bishop/queen sliding over empty squares,
    knight jumps, pawns one step forward or one diagonal capture), never
    onto a piece of the mover's own color.  It satisfies [PieceLaws].

    The positions the spec describes (section 8), the pinned rook and a
    mating move, are built here ([Positions]); [Witnesses.v] applies the
    library's theorems to them. *)

From S2P Require Import Prelude ChessData Capability CheckDetector MoveGen Setup Engine Server.

Module SamplePieces.

Definition Look := Coordinate -> option (Piece unit).

(** The piece on a square of a board. *)
Definition pieceAt (b : Board unit) : Look := fun p => piece <$> tileAt b p.

Definition emptyAt (look : Look) (p : Coordinate) : bool :=
  match look p with Some q => bool_decide (ptype q = Empty) | None => false end.

(** The squares strictly between two squares of a line. *)
Definition between (from to : Coordinate) : list Coordinate :=
  let dr := Z.sgn (row to - row from) in
  let dc := Z.sgn (col to - col from) in
  let n := Z.to_nat (Z.max (Z.abs (row to - row from)) (Z.abs (col to - col from))) in
  (fun k => mkCoord (row from + dr * Z.of_nat k) (col from + dc * Z.of_nat k)) <$> seq 1 (n - 1).

Definition clear (look : Look) (from to : Coordinate) : bool := forallb (emptyAt look) (between from to).

Definition straight (dr dc : Z) : bool := bool_decide ((dr = 0 \/ dc = 0)%Z /\ (dr, dc) <> (0%Z, 0%Z)).
Definition diagonal (dr dc : Z) : bool := bool_decide (Z.abs dr = Z.abs dc /\ dr <> 0%Z).

Definition shapeOk (look : Look) (p : Piece unit) (from to : Coordinate) (target : Piece unit) : bool :=
  let dr := (row to - row from)%Z in
  let dc := (col to - col from)%Z in
  let forward := match pcolor p with White => (-1)%Z | _ => 1%Z end in
  match ptype p with
  | Empty => false
  | King | Vanguard => bool_decide (Z.abs dr <= 1 /\ Z.abs dc <= 1 /\ (dr, dc) <> (0%Z, 0%Z))%Z
  | Rook => straight dr dc && clear look from to
  | Bishop => diagonal dr dc && clear look from to
  | Queen => (straight dr dc || diagonal dr dc) && clear look from to
  | Knight => bool_decide ((Z.abs dr = 1 /\ Z.abs dc = 2) \/ (Z.abs dr = 2 /\ Z.abs dc = 1))%Z
  | Pawn =>
      (bool_decide (dr = forward /\ dc = 0%Z) && bool_decide (ptype target = Empty)) ||
      (bool_decide (dr = forward /\ Z.abs dc = 1%Z) && bool_decide (ptype target <> Empty))
  end.

Definition tryMoveWith (look : Look) (d : Coordinate) (p : Piece unit) : bool :=
  match pcoord p, look d with
  | Some from, Some target => bool_decide (pcolor target <> pcolor p) && shapeOk look p from d target
  | _, _ => false
  end.

(** Lift the piece off its square, put it on [d], report what was there. *)
Definition makeMoveSample (b : Board unit) (d : Coordinate) (p : Piece unit) : Board unit * option (Piece unit) :=
  match pcoord p with
  | Some from =>
      let captured := match pieceAt b d with
                      | Some q => if decide (ptype q = Empty) then None else Some q
                      | None => None
                      end in
      let b1 := setTileN b (Z.to_nat (row from)) (Z.to_nat (col from))
                         (mkTile (mkPiece Empty Null (Some from) tt) []) in
      (setTileN b1 (Z.to_nat (row d)) (Z.to_nat (col d)) (mkTile (setCoordToPiece d p) []), captured)
  | None => (b, None)
  end.

#[export] Instance sampleCap : PieceCapability unit := {|
  hist0 := tt;
  tryMove b d p := tryMoveWith (pieceAt b) d p;
  makeMove := makeMoveSample;
  moveMade _ q := q
|}.

Lemma pieceAt_proper b1 b2 x : b1 ≡ b2 -> pieceAt b1 x = pieceAt b2 x.
Proof. apply equiv_piece_at. Qed.

Lemma tryMoveWith_ext (l1 l2 : Look) d p :
  (forall x, l1 x = l2 x) -> tryMoveWith l1 d p = tryMoveWith l2 d p.
Proof.
  intros Hl. assert (Hc : forall from to, clear l1 from to = clear l2 from to).
  { intros from to. unfold clear. induction (between from to) as [|x l IH]; [done|].
    simpl. unfold emptyAt at 1 3. by rewrite Hl, IH. }
  unfold tryMoveWith. rewrite Hl. destruct (pcoord p), (l2 d); [|done..].
  unfold shapeOk. by rewrite !Hc.
Qed.

#[export] Instance sampleLaws : PieceLaws unit.
Proof.
  split.
  - intros b1 b2 He d ? <- p ? <-. simpl. apply tryMoveWith_ext. intros x. by apply pieceAt_proper.
  - intros b1 b2 d p He. simpl. unfold makeMoveSample. destruct (pcoord p); [|done].
    simpl. by do 2 apply setTileN_proper.
  - intros b1 b2 d p He. simpl. unfold makeMoveSample. destruct (pcoord p); [|done].
    simpl. by rewrite (pieceAt_proper _ _ d He).
  - intros b d p. simpl. unfold makeMoveSample. destruct (pcoord p); [|done].
    simpl. by rewrite !shape_setTileN.
  - intros b d p. simpl. unfold makeMoveSample. by destruct (pcoord p).
Qed.

End SamplePieces.

(** ** Positions *)
Section Positions.
Import SamplePieces.

(** A piece standing on its square, knowing it. *)
Definition sq (c : Color) (ty : PieceType) (r k : nat) : Tile unit :=
  mkTile (mkPiece ty c (Some (mkCoord (Z.of_nat r) (Z.of_nat k))) tt) [].

(** An [n] by [n] grid with the listed pieces and empty squares elsewhere. *)
Definition place (n : nat) (pl : list (nat * nat * Color * PieceType)) : list (list (Tile unit)) :=
  (fun r => (fun k => match list_find (fun x => x.1.1.1 = r /\ x.1.1.2 = k) pl with
                      | Some (_, (_, _, c, ty)) => sq c ty r k
                      | None => sq Null Empty r k
                      end) <$> seq 0 n) <$> seq 0 n.

(** A game in progress (quota 0: no vanguard is pending), White to move. *)
Definition inPlay (b : Board unit) : Engine unit :=
  mkEngine b (mkGame White Null Null false 5 true []) (mkLog [] []).

(** Spec section 8: the white rook on (3,2) shields its king on (4,2)
    from the black rook on (0,2). *)
Definition pinned : Board unit :=
  mkBoard (place 5 [(4, 2, White, King); (3, 2, White, Rook); (0, 2, Black, Rook);
                    (0, 0, Black, King)]) 0 0 0.

Definition rookW : Piece unit := mkPiece Rook White (Some (mkCoord 3 2)) tt.

(** White to mate: the rook on (4,4) swings to (0,4); the white king on
    (2,1) guards the black king's escape squares. *)
Definition mating : Board unit :=
  mkBoard (place 5 [(2, 1, White, King); (4, 4, White, Rook); (0, 0, Black, King)]) 0 0 0.

End Positions.
