(* ===== verification/LobbyRuns.v ===== *)
(** * LobbyRuns: the lobby layer on concrete event sequences

    The runs use the sample piece module of [Scenarios.v] and the random
    stream [demoDraws] (the [n]-th draw is [n mod 36], so the codes
    [makeId] builds are "ABCD", "EFGH", ...).  The runs are the
    reachable worlds [Witnesses.v] applies the lobby theorems to. *)

From S2P Require Import Prelude ChessData Capability CheckDetector MoveGen Setup Engine Server Lobby LobbyList Scenarios.
Import SamplePieces.

Definition demoDraws (n : nat) : Z := Z.of_nat (n mod 36).

(** Completed events, one after the other, with [fuel] for every
    code loop. *)
Fixpoint runWorld (fuel : nat) (evs : list WEvent) (w : World unit) : option (World unit) :=
  match evs with
  | [] => Some w
  | ev :: evs' =>
      match worldStep demoDraws fuel ev w with
      | Some (Done w') => runWorld fuel evs' w'
      | _ => None
      end
  end.

Lemma runWorld_reachable fuel evs w w' :
  reachableW demoDraws w -> runWorld fuel evs w = Some w' -> reachableW demoDraws w'.
Proof.
  revert w. induction evs as [|ev evs IH]; intros w Hr; simpl; [by intros [= <-]|].
  destruct (worldStep demoDraws fuel ev w) as [[w1|w1]|] eqn:Hs; [|done|done].
  intros Hrun. apply (IH w1); [|done]. by apply (reachableW_step _ w ev fuel).
Qed.

(** Socket 1 joins the startup lobby as "ann", chooses White, leaves. *)
Definition joinedAndLeft : World unit :=
  Eval vm_compute in
  default initialWorld (runWorld 0 [WJoinLobby 1 "AAAA" "ann"; WChooseTeam 1 White; WLeaveLobby 1 "ann"]
                                 initialWorld).
