(* ===== verification/RoomRuns.v ===== *)
(** * RoomRuns: who receives what, on a concrete run

    The run uses the sample piece module of [Scenarios.v] and the draws
    [demoDraws] of [LobbyRuns.v]: ann joins the startup lobby and leaves
    it (the list drops it), bob creates a lobby and carol joins it.  It
    is the reachable state, with its rooms and messages, that
    [Witnesses.v] applies the theorems of [Rooms.v] and [LobbySpec.v]
    to. *)

From S2P Require Import Prelude ChessData Capability CheckDetector MoveGen Setup Engine Server Emits Lobby LobbyList Rooms Scenarios LobbyRuns.
Import SamplePieces.

(** Completed events with their messages, one after the other. *)
Fixpoint runWorldN (fuel : nat) (evs : list WEvent) (w : World unit) (n : Net unit) : option (World unit * Net unit) :=
  match evs with
  | [] => Some (w, n)
  | ev :: evs' =>
      match worldStepN demoDraws fuel ev w n with
      | Some (Done (w', n')) => runWorldN fuel evs' w' n'
      | _ => None
      end
  end.

Lemma runWorldN_reachable fuel evs w n w' n' :
  reachableN demoDraws w n -> runWorldN fuel evs w n = Some (w', n') -> reachableN demoDraws w' n'.
Proof.
  revert w n. induction evs as [|ev evs IH]; intros w n Hr; simpl; [by intros [= <- <-]|].
  destruct (worldStepN demoDraws fuel ev w n) as [[[w1 n1]|?]|] eqn:Hs; [|done|done].
  intros Hrun. apply (IH w1 n1); [|done]. by apply (reachableN_step _ w n ev fuel).
Qed.

(** Socket 1 joins the startup lobby as "ann" and leaves it, which drops
    the lobby from the list; socket 2 creates a lobby; socket 3 joins
    'AAAA' as "carol", which is now the new lobby. *)
Definition carolJoined : World unit * Net unit :=
  Eval vm_compute in
  default (initialWorld, initialNet)
    (runWorldN 0 [WJoinLobby 1 "AAAA" "ann"; WLeaveLobby 1 "ann"; WCreateLobby 2 "bob";
                  WJoinLobby 3 "AAAA" "carol"] initialWorld initialNet).

Section LeakRun.

Lemma carolJoined_reachable : reachableN demoDraws carolJoined.1 carolJoined.2.
Proof.
  apply (runWorldN_reachable 0 [WJoinLobby 1 "AAAA" "ann"; WLeaveLobby 1 "ann"; WCreateLobby 2 "bob";
                                WJoinLobby 3 "AAAA" "carol"] initialWorld initialNet);
    [constructor|vm_compute; reflexivity].
Qed.

End LeakRun.
