(* ===== verification/Witnesses.v ===== *)
(** * Witnesses: the library's theorems applied to concrete games

    Each lemma applies one theorem of the library at a concrete input of
    the sample piece module of Scenarios.v and discharges its hypotheses
    by computation, so that none of them holds vacuously. *)

From S2P Require Import Prelude ChessData Capability CheckDetector MoveGen Setup Engine MoveLog Server Emits GameSpec Liveness Lobby LobbyList LobbySpec Rooms Scenarios LobbyRuns RoomRuns.
Import SamplePieces.

Definition pinnedPlay : Engine unit := Eval vm_compute in inPlay (populateAvailableMoves pinned).
Definition matingPlay : Engine unit := Eval vm_compute in inPlay (populateAvailableMoves mating).
Definition opening : Engine unit := Eval vm_compute in initialEngine.
Definition rookTile : Tile unit := Eval vm_compute in default (sq Null Empty 0 0) (tileAt (board pinnedPlay) (mkCoord 3 2)).
Definition blackRookTile : Tile unit := Eval vm_compute in default (sq Null Empty 0 0) (tileAt (board pinnedPlay) (mkCoord 0 2)).
Definition matingRookTile : Tile unit := Eval vm_compute in default (sq Null Empty 0 0) (tileAt (board matingPlay) (mkCoord 4 4)).
Definition openingPawn : Tile unit := Eval vm_compute in default (sq Null Empty 0 0) (tileAt (board opening) (mkCoord 6 0)).

Lemma legal_move_keeps_king_safe_witness :
  let nb := (makeMove pinned (mkCoord 2 2) rookW).1 in
  exists kr kc tk, tileAtN nb kr kc = Some tk /\ ptype (piece tk) = King /\
    pcolor (piece tk) = White /\
    forall r' c' t'', tileAtN nb r' c' = Some t'' -> pcolor (piece t'') = Black ->
      mkCoord (Z.of_nat kr) (Z.of_nat kc) ∉ pseudoMoves nb (piece t'').
Proof.
  exact (legal_move_keeps_king_safe pinned 3 2 (sq White Rook 3 2)
           (mkTile rookW [mkCoord 0 2; mkCoord 1 2; mkCoord 2 2]) (mkCoord 2 2)
           ltac:(vm_compute; reflexivity) ltac:(vm_compute; reflexivity) ltac:(discriminate)
           ltac:(vm_compute; reflexivity) ltac:(vm_compute; set_solver)).
Defined.

Lemma spacesToMove_spec_witness :
  exists t', tileAtN (populateAvailableMoves pinned) 3 2 = Some t' /\ piece t' = rookW /\
  forall d, d ∈ spacesToMove t' <->
    ptype rookW <> Empty /\
    (0 <= row d < Z.of_nat (length (tiles pinned)) /\ 0 <= col d < Z.of_nat (length (tiles pinned)))%Z /\
    tryMove pinned d rookW = true /\ keepsKingSafe pinned rookW d = true.
Proof.
  exact (spacesToMove_spec pinned 3 2 (sq White Rook 3 2)
           ltac:(vm_compute; reflexivity) ltac:(vm_compute; reflexivity)).
Defined.

Lemma populate_sequential_eq_ref_witness : populateAvailableMoves pinned = populateRef pinned.
Proof. exact (populate_sequential_eq_ref pinned). Defined.


Lemma inCheck_no_king_witness : Detector.inCheck White (place 2 []) = true.
Proof.
  apply Detector.inCheck_no_king. intros r c t Hin. apply list_elem_of_In in Hin.
  vm_compute in Hin. repeat destruct Hin as [Hin|Hin]; simplify_eq; try reflexivity; done.
Defined.

Lemma onMakeMove_rejects_witness :
  onMakeMove Black (mkCoord 0 2) (mkCoord 1 2) pinnedPlay = Done pinnedPlay.
Proof.
  exact (onMakeMove_rejects Black (mkCoord 0 2) (mkCoord 1 2) pinnedPlay
           blackRookTile
           ltac:(vm_compute; reflexivity) ltac:(right; left; discriminate)).
Defined.

Lemma onMakeMove_bad_source_witness :
  onMakeMove White (mkCoord 9 9) (mkCoord 1 2) pinnedPlay = Thrown pinnedPlay.
Proof.
  exact (onMakeMove_bad_source White (mkCoord 9 9) (mkCoord 1 2) pinnedPlay
           ltac:(vm_compute; reflexivity) ltac:(vm_compute; reflexivity)).
Defined.

Lemma onMakeMove_capture_throws_witness :
  onMakeMove White (mkCoord 3 2) (mkCoord 0 2) pinnedPlay =
  Thrown (mkEngine (makeMove (board pinnedPlay) (mkCoord 0 2) rookW).1 (game pinnedPlay) (log pinnedPlay)).
Proof.
  exact (onMakeMove_capture_throws White (mkCoord 3 2) (mkCoord 0 2) pinnedPlay
           rookTile
           (makeMove (board pinnedPlay) (mkCoord 0 2) rookW).1 (piece (sq Black Rook 0 2))
           ltac:(vm_compute; reflexivity) ltac:(vm_compute; reflexivity) ltac:(reflexivity)
           ltac:(vm_compute; reflexivity) ltac:(vm_compute; reflexivity)).
Defined.

Lemma onMakeMove_accepts_witness :
  let rookM := mkPiece Rook White (Some (mkCoord 4 4)) tt in
  let b1 := (makeMove (board matingPlay) (mkCoord 0 4) rookM).1 in
  exists s', onMakeMove White (mkCoord 4 4) (mkCoord 0 4) matingPlay = Done s' /\
    board s' = populateAvailableMoves (notifyMoveMade (mkCoord 0 4) rookM b1) /\
    playersTurn (game s') = Black /\
    takenPieces (game s') = [] /\
    inCheck (game s') = (if Detector.inCheck White (tiles (board s')) then Black else Null) /\
    log s' = addLogMessage (moveNotation Rook (mkCoord 0 4) (inCheck (game s'))) White (log matingPlay).
Proof.
  exact (onMakeMove_accepts White (mkCoord 4 4) (mkCoord 0 4) matingPlay
           matingRookTile
           (makeMove (board matingPlay) (mkCoord 0 4) (mkPiece Rook White (Some (mkCoord 4 4)) tt)).1
           ltac:(vm_compute; reflexivity) ltac:(vm_compute; reflexivity) ltac:(reflexivity)
           ltac:(vm_compute; reflexivity) ltac:(vm_compute; reflexivity)).
Defined.

(** The state after White's mating move. *)
Definition afterMate : Engine unit :=
  Eval vm_compute in
  match onMakeMove White (mkCoord 4 4) (mkCoord 0 4) matingPlay with Done s => s | Thrown s => s end.

Lemma onMakeMove_turn_witness :
  afterMate = matingPlay \/ playersTurn (game afterMate) = Black.
Proof.
  refine (onMakeMove_turn White (mkCoord 4 4) (mkCoord 0 4) matingPlay afterMate _).
  vm_compute. reflexivity.
Defined.

Lemma onPlaceVanguard_bad_row_witness :
  onPlaceVanguard White (mkCoord 8 0) opening = Thrown opening.
Proof. exact (onPlaceVanguard_bad_row White (mkCoord 8 0) opening ltac:(vm_compute; reflexivity)). Defined.

Lemma onPlaceVanguard_no_team_witness :
  onPlaceVanguard Null (mkCoord 6 20) opening = Done opening.
Proof.
  exact (onPlaceVanguard_no_team (mkCoord 6 20) opening
           (default [] (tiles (board opening) !!z 6)) ltac:(vm_compute; reflexivity)).
Defined.

Lemma onPlaceVanguard_deploys_witness :
  onPlaceVanguard White (mkCoord 6 0) opening = Done (deployVanguard White (mkCoord 6 0) opening).
Proof.
  exact (onPlaceVanguard_deploys White (mkCoord 6 0) opening
           openingPawn
           ltac:(discriminate) ltac:(vm_compute; reflexivity) ltac:(vm_compute; reflexivity)
           ltac:(vm_compute; reflexivity) ltac:(vm_compute; lia)).
Defined.

Lemma onPlaceVanguard_result_witness :
  deployVanguard White (mkCoord 6 0) opening = opening \/
  exists c t, c = White /\ c <> Null /\ tileAt (board opening) (mkCoord 6 0) = Some t /\
    pcolor (piece t) = c /\ ptype (piece t) = Pawn /\
    (if decide (c = White) then whiteVanguards (board opening) else blackVanguards (board opening)) <
      vanguards (board opening) /\ deployVanguard White (mkCoord 6 0) opening = deployVanguard c (mkCoord 6 0) opening.
Proof.
  exact (onPlaceVanguard_result White (mkCoord 6 0) opening _ ltac:(vm_compute; reflexivity)).
Defined.

Lemma vanguard_gating_witness :
  (forall r c t, tileAtN (board (engine (@initialServer unit _))) r c = Some t -> spacesToMove t = []) /\
  whiteMoves (log (engine (@initialServer unit _))) = [] /\ blackMoves (log (engine (@initialServer unit _))) = [].
Proof. exact (vanguard_gating initialServer (reachable_init) ltac:(vm_compute; reflexivity)). Defined.

(** A socket connects and chooses White. *)
Lemma reachable_white_joined :
  reachable (mkServer (@initialEngine unit _) [(0, White)]).
Proof.
  apply (reachable_step (mkServer initialEngine [(0, Null)]) (EvChooseTeam 0 White));
    [|vm_compute; reflexivity].
  apply (reachable_step initialServer (EvConnect 0)); [apply reachable_init|vm_compute; reflexivity].
Qed.

Lemma takenPieces_always_empty_witness :
  takenPieces (game (engine (mkServer (@initialEngine unit _) [(0, White)]))) = [].
Proof. exact (takenPieces_always_empty _ reachable_white_joined). Defined.

Lemma counters_within_quota_witness :
  let sv := mkServer (@initialEngine unit _) [(0, White)] in
  whiteVanguards (board (engine sv)) <= vanguards (board (engine sv)) /\
  blackVanguards (board (engine sv)) <= vanguards (board (engine sv)) /\
  playersTurn (game (engine sv)) <> Null.
Proof. exact (counters_within_quota _ reachable_white_joined). Defined.

Lemma createGame_kings_witness :
  let b := board (createGame 16 opening) in
  (exists t, tileAtN b 15 8 = Some t /\ ptype (piece t) = King /\ pcolor (piece t) = White) /\
  forall r c t, tileAtN b r c = Some t -> ptype (piece t) = King -> pcolor (piece t) = White ->
    (r, c) = (15, 8).
Proof. exact (createGame_kings 16 opening White ltac:(discriminate)). Defined.

Lemma createGame_mirror_witness :
  exists t', tileAtN (board (createGame 12 opening)) 10 3 = Some t' /\
    ptype (piece t') = Pawn /\ pcolor (piece t') = White.
Proof.
  refine (createGame_mirror 12 opening 1 3 (mkTile (mkPiece Pawn Black (Some (mkCoord 1 3)) tt) []) _).
  vm_compute. reflexivity.
Defined.

(** ** The lobby layer *)

(** After 'create-lobby' from socket 1 at startup. *)
Definition createdWorld : World unit :=
  Eval vm_compute in default initialWorld (onCreateLobby demoDraws 0 1 "ann" initialWorld).

(** Sockets 1 and 2 in the startup lobby as "ann" and "bob". *)
Definition twoJoined : World unit :=
  Eval vm_compute in default initialWorld (runWorld 0 [WJoinLobby 1 "AAAA" "ann"; WJoinLobby 2 "AAAA" "bob"]
                                                   initialWorld).

Definition afterRemoveAnn : World unit := Eval vm_compute in removeUserFromLobbies "ann" twoJoined.
Definition bobsLobby : Lobby unit := Eval vm_compute in default (newLobby "") (store afterRemoveAnn !! 0).

Lemma joinedAndLeft_reachable : reachableW demoDraws joinedAndLeft.
Proof.
  apply (runWorld_reachable 0 [WJoinLobby 1 "AAAA" "ann"; WChooseTeam 1 White; WLeaveLobby 1 "ann"]
           initialWorld); [apply reachableW_init|vm_compute; reflexivity].
Qed.

Lemma create_lobby_joins_nobody_witness :
  store createdWorld = store (@initialWorld unit _) ++ [newLobby "AAAA"] /\
  lobbies createdWorld = lobbies (@initialWorld unit _) ++ [length (store (@initialWorld unit _))] /\
  gameRegs createdWorld = gameRegs (@initialWorld unit _) /\
  leaveOnce createdWorld = leaveOnce (@initialWorld unit _).
Proof.
  refine (create_lobby_joins_nobody demoDraws 0 1 "ann" initialWorld createdWorld _).
  vm_compute. reflexivity.
Defined.

Lemma lobby_codes_AAAA_witness : Forall (fun l => lobbyCode l = "AAAA") (store joinedAndLeft).
Proof. exact (lobby_codes_AAAA demoDraws joinedAndLeft joinedAndLeft_reachable). Defined.

Lemma join_lobby_spec_witness :
  onJoinLobby 1 "AAAA" "ann" (@initialWorld unit _) = joinLobby 0 "ann" 1 initialWorld.
Proof. exact (join_lobby_spec demoDraws initialWorld 1 "AAAA" "ann" (reachableW_init demoDraws)). Defined.

Lemma createNewLobbyCode_total_witness :
  exists c n, createNewLobbyCode demoDraws 0 (@initialWorld unit _) = Some (c, n) /\
    codeUsed (@initialWorld unit _) c = false.
Proof.
  refine (createNewLobbyCode_total demoDraws 0 initialWorld 0 _ _); [lia|vm_compute; reflexivity].
Defined.

Lemma makeId_spec_witness :
  exists a0 a1 a2 a3,
    makeId demoDraws 0 = String a0 (String a1 (String a2 (String a3 EmptyString))) /\
    String.get (Z.to_nat (demoDraws 0)) characters = Some a0 /\
    String.get (Z.to_nat (demoDraws (0 + 1))) characters = Some a1 /\
    String.get (Z.to_nat (demoDraws (0 + 2))) characters = Some a2 /\
    String.get (Z.to_nat (demoDraws (0 + 3))) characters = Some a3.
Proof.
  refine (makeId_spec demoDraws 0 _).
  intros i Hi. unfold ID_LENGTH in Hi. unfold demoDraws. destruct i as [|[|[|[|i]]]]; simpl; lia.
Defined.

Lemma removeUserFromLobbies_spec_witness :
  lobbies (removeUserFromLobbies "ann" twoJoined) =
    filter (fun id => keepAt "ann" (store twoJoined) id = true) (lobbies twoJoined) /\
    forall i, store (removeUserFromLobbies "ann" twoJoined) !! i =
    if decide (i ∈ lobbies twoJoined) then (fun l => (removeUserFromLobby "ann" l).2) <$> store twoJoined !! i
    else store twoJoined !! i.
Proof. refine (removeUserFromLobbies_spec "ann" twoJoined _). vm_compute. apply NoDup_singleton. Defined.

Lemma removeUserFromLobbies_gone_witness : "ann" ∉ usernames bobsLobby.
Proof.
  refine (removeUserFromLobbies_gone "ann" twoJoined 0 bobsLobby _ _ _).
  - vm_compute. apply NoDup_singleton.
  - vm_compute. left.
  - vm_compute. reflexivity.
Defined.

Lemma empty_lobby_kept_witness : 1 ∈ lobbies (removeUserFromLobbies "ann" createdWorld).
Proof.
  refine (empty_lobby_kept "ann" createdWorld 1 (newLobby "AAAA") _ _ _ _).
  - vm_compute. repeat constructor; set_solver.
  - vm_compute. right. left.
  - vm_compute. reflexivity.
  - reflexivity.
Defined.

Lemma reachableW_engines_witness : enginesOk (store joinedAndLeft).
Proof. exact (reachableW_engines demoDraws joinedAndLeft joinedAndLeft_reachable). Defined.

(** ** The refinement, the round trip of the log and the liveness of deployment *)

(** The white socket of [reachable_white_joined] deploys on a6. *)
Definition deployedOnce : Server unit :=
  Eval vm_compute in
    match handle (EvPlaceVanguard 0 (mkCoord 6 0)) (mkServer (@initialEngine unit _) [(0, White)]) with
    | Done x => x | Thrown x => x
    end.

Lemma reachable_deployed_once : reachable deployedOnce.
Proof.
  apply (reachable_step _ (EvPlaceVanguard 0 (mkCoord 6 0)) _ reachable_white_joined).
  vm_compute. reflexivity.
Qed.

Lemma handle_refines_witness :
  rtc astep (abstr (engine (mkServer (@initialEngine unit _) [(0, White)]))) (abstr (engine deployedOnce)).
Proof.
  refine (handle_refines _ (EvPlaceVanguard 0 (mkCoord 6 0)) deployedOnce reachable_white_joined _).
  vm_compute. reflexivity.
Defined.

Lemma reachable_refines_witness : rtc astep a0 (abstr (engine deployedOnce)).
Proof. exact (reachable_refines deployedOnce reachable_deployed_once). Defined.

Lemma engine_spec_invariant_witness : aInv (abstr (engine deployedOnce)).
Proof. exact (engine_spec_invariant deployedOnce reachable_deployed_once). Defined.

Lemma readMove_moveNotation_witness :
  readMove (moveNotation Rook (mkCoord 4 0) Black) = Some (Rook, 0%Z, 4%Z, true).
Proof.
  refine (eq_trans (readMove_moveNotation Rook (mkCoord 4 0) Black _ _) _); [simpl; lia|simpl; lia|].
  vm_compute. reflexivity.
Defined.

Lemma server_deployment_completes_witness :
  exists sv', runEvents (EvReset 0 10 :: deployEvents 0 1 (deployPlan 10))
                (mkServer (@initialEngine unit _) [(0, White); (1, Black)]) = Done sv' /\
    (reachable (mkServer (@initialEngine unit _) [(0, White); (1, Black)]) -> reachable sv') /\
    registrations sv' = [(0, White); (1, Black)] /\
    vanguardsPending (board (engine sv')) = false /\
    whiteVanguards (board (engine sv')) = quotaFor 10 /\
    blackVanguards (board (engine sv')) = quotaFor 10 /\ playersTurn (game (engine sv')) = White /\
    started (game (engine sv')) = false.
Proof. refine (server_deployment_completes _ 0 1 10 _ _); [reflexivity|lia]. Defined.

(** ** What is sent *)

Lemma make_move_messages_witness :
  exists o ms, onMakeMoveW White (mkCoord 6 0) (mkCoord 5 0) opening = (o, ms) /\
  ((ms = [] /\ (o = Done opening \/ exists s1, o = Thrown s1)) \/
   (exists s', o = Done s' /\ ms = [MLogUpdate (log s'); gameUpdate s'] /\
               logLength (log s') = S (logLength (log opening)))).
Proof.
  eexists _, _. split; [vm_compute; reflexivity|].
  exact (make_move_messages White (mkCoord 6 0) (mkCoord 5 0) opening (Done opening) []
           engineInv_initial ltac:(vm_compute; reflexivity)).
Defined.

Lemma vanguards_placed_repeated_witness :
  pinnedPlay = pinnedPlay /\ [gameUpdate pinnedPlay; MVanguardsPlaced true] = [gameUpdate pinnedPlay; MVanguardsPlaced true].
Proof.
  refine (vanguards_placed_repeated Black (mkCoord 0 0) pinnedPlay pinnedPlay
            [gameUpdate pinnedPlay; MVanguardsPlaced true] _ _); vm_compute; reflexivity.
Defined.

Lemma rooms_all_AAAA_witness : roomsOk "AAAA" carolJoined.2.
Proof. exact (rooms_all_AAAA demoDraws _ _ carolJoined_reachable). Defined.

Definition carolLobby : Lobby unit := Eval vm_compute in default (newLobby "") (store carolJoined.1 !! 1).

Lemma join_lobby_messages_witness :
  let '(w', n') := addUserToLobbyN (KStr "AAAA") "dan" 4 carolJoined.1 carolJoined.2 in
  let info := getLobbyInfo (addUser "dan" 4 carolLobby) in
  w' = joinLobby 1 "dan" 4 carolJoined.1 /\ (4, "AAAA") ∈ rooms n' /\
  exists ms, sent n' = sent carolJoined.2 ++ [(ToSocket 4, MJoinedLobby info); (ToRoom "AAAA" ms, MLobbyUpdated info);
                                  (ToSocket 4, MMakeGame (game (lobbyGame carolLobby)) (board (lobbyGame carolLobby)))] /\
             4 ∈ ms /\ (forall x, x ∈ roomMembers "AAAA" carolJoined.2 -> x ∈ ms).
Proof.
  refine (join_lobby_messages demoDraws carolJoined.1 carolJoined.2 4 "dan" 1 [] carolLobby
            carolJoined_reachable _ _); vm_compute; reflexivity.
Defined.

(** ** The refinement of the process *)

(** The dropped startup lobby of [joinedAndLeft]. *)
Definition joinedAndLeftLobby : Lobby unit :=
  Eval vm_compute in default (newLobby "") (store joinedAndLeft !! 0).

(** Dan (socket 4) joins carol's lobby 1: a lobby event, which keeps
    the lobby's game. *)
Definition afterDanJoins : World unit :=
  Eval vm_compute in
  match worldStep demoDraws 0 (WJoinLobby 4 "AAAA" "dan") carolJoined.1 with
  | Some (Done w') => w'
  | _ => carolJoined.1
  end.

Lemma lobby_events_refine_witness :
  exists l', store afterDanJoins !! 1 = Some l' /\
    rtc astep (abstr (lobbyGame carolLobby)) (abstr (lobbyGame l')) /\
    (gameEvent (WJoinLobby 4 "AAAA" "dan") = false -> lobbyGame l' = lobbyGame carolLobby).
Proof.
  refine (lobby_events_refine demoDraws 0 (WJoinLobby 4 "AAAA" "dan") carolJoined.1 afterDanJoins 1
            carolLobby (reachableN_reachableW demoDraws _ _ carolJoined_reachable) _ _); vm_compute; reflexivity.
Defined.

Lemma lobbies_refine_spec_witness : rtc astep a0 (abstr (lobbyGame joinedAndLeftLobby)).
Proof.
  refine (lobbies_refine_spec demoDraws joinedAndLeft 0 joinedAndLeftLobby joinedAndLeft_reachable _).
  vm_compute. reflexivity.
Defined.

(** Ann's socket 1 holds the listeners of the dropped lobby 0 only; its
    'start-game' leaves the engine of carol's lobby 1 as it was. *)
Definition afterAnnStart : World unit :=
  Eval vm_compute in
  match worldStep demoDraws 0 (WStartGame 1) carolJoined.1 with
  | Some (Done w') => w'
  | _ => carolJoined.1
  end.

Lemma lobby_engine_isolated_witness :
  exists l', store afterAnnStart !! 1 = Some l' /\ lobbyGame l' = lobbyGame carolLobby.
Proof.
  refine (lobby_engine_isolated demoDraws 0 (WStartGame 1) carolJoined.1 afterAnnStart 1 carolLobby
            (reachableN_reachableW demoDraws _ _ carolJoined_reachable) _ _ _).
  - vm_compute. reflexivity.
  - vm_compute. reflexivity.
  - intros col. cbn [carolJoined fst gameRegs]. rewrite !elem_of_cons, elem_of_nil. naive_solver.
Defined.

(** Ann (socket 1) joined the startup lobby and chose White; her
    'leave-lobby' leads to [joinedAndLeft], and her 'place-vanguard'
    does the same to the engines before and after it. *)
Definition annWhite : World unit :=
  Eval vm_compute in
  default initialWorld (runWorld 0 [WJoinLobby 1 "AAAA" "ann"; WChooseTeam 1 White] initialWorld).

Lemma leave_lobby_keeps_games_witness :
  gameRegs joinedAndLeft = gameRegs annWhite /\ engines joinedAndLeft = engines annWhite /\
  outEngines <$> worldStep demoDraws 0 (WPlaceVanguard 1 (mkCoord 6 0)) joinedAndLeft =
  outEngines <$> worldStep demoDraws 0 (WPlaceVanguard 1 (mkCoord 6 0)) annWhite.
Proof.
  refine (leave_lobby_keeps_games demoDraws 0 1 "ann" annWhite joinedAndLeft 0 (WPlaceVanguard 1 (mkCoord 6 0)) _ _);
    vm_compute; reflexivity.
Defined.
